(** * Connection tables of a kvrocks Worker (src/worker.cc, src/worker.h)

    A shallow embedding of the [Worker] class: its two [std::map<int,
    Redis::Connection*>] tables, the idle-scan cursor, the process-wide
    counters it shares with the [Server], and the [Connection] objects the
    tables point to.  Member functions become computations in a small
    state-and-failure monad over that store; failure stands for the
    undefined behaviour of dereferencing a destroyed [Connection]. *)

From Stdlib Require Import Ascii.
From stdpp Require Import gmap strings list sorting pretty.
From Stdlib Require Import ZArith Lia.

Local Open Scope Z_scope.

(** ** [std::map<int, Redis::Connection*>]

    An ordered map is kept as the list of its entries in iteration
    (ascending key) order, which is what the range-for loops and
    [upper_bound] of worker.cc rely on. *)

Abbreviation ptr := positive.

Module StdMap.

Abbreviation t := (list (Z * ptr)).

(** [find]: the mapped pointer, [None] standing for [end()]. *)
Fixpoint find (m : t) (k : Z) : option ptr :=
  match m with
  | [] => None
  | (k', v) :: m' => if Z.eqb k k' then Some v else find m' k
  end.

(** [insert(std::pair(k, v))]: no effect when the key is present. *)
Fixpoint insert (k : Z) (v : ptr) (m : t) : t :=
  match m with
  | [] => [(k, v)]
  | (k', v') :: m' =>
      if Z.ltb k k' then (k, v) :: m
      else if Z.eqb k k' then m
      else (k', v') :: insert k v m'
  end.

(** [m[k] = v]: overwrites the mapped pointer when the key is present. *)
Fixpoint assign (k : Z) (v : ptr) (m : t) : t :=
  match m with
  | [] => [(k, v)]
  | (k', v') :: m' =>
      if Z.ltb k k' then (k, v) :: m
      else if Z.eqb k k' then (k, v) :: m'
      else (k', v') :: assign k v m'
  end.

(** [erase(k)] and [erase(iterator)]. *)
Fixpoint erase (k : Z) (m : t) : t :=
  match m with
  | [] => []
  | (k', v') :: m' => if Z.eqb k k' then erase k m' else (k', v') :: erase k m'
  end.

(** [upper_bound(k)] as a position: the first entry whose key is greater
    than [k]; [length m] stands for [end()]. *)
Fixpoint upper_bound (m : t) (k : Z) : nat :=
  match m with
  | [] => 0%nat
  | (k', _) :: m' => if Z.ltb k k' then 0%nat else S (upper_bound m' k)
  end.

Definition keys (m : t) : list Z := m.*1.
Definition ptrs (m : t) : list ptr := m.*2.

Definition sorted (m : t) : Prop := StronglySorted Z.lt (keys m).

End StdMap.

(** ** Values of the collaborating classes *)

(** Modelled from the spec: [Status] (status.h is not part of the sources
    at hand), the OK-or-rejected result of an operation, with the reason. *)
Inductive StatusCode := cOK | NotOK.

Record Status := mkStatus { code : StatusCode; Msg : string }.

Definition Status_OK : Status := mkStatus cOK "".
Definition IsOK (s : Status) : bool := if code s is cOK then true else false.

Definition CRLF : string :=
  String (Ascii.ascii_of_nat 13) (String (Ascii.ascii_of_nat 10) EmptyString).
Definition DQUOTE : string := String (Ascii.ascii_of_nat 34) EmptyString.

(** Modelled from the spec: [Redis::Error] and [Redis::SimpleString] live in
    redis_reply.cc, which is not part of the sources at hand; the spec gives
    the RESP encodings [-ERR ...\r\n] and [+...\r\n]. *)
Definition Redis_Error (m : string) : string := "-" +:+ m +:+ CRLF.
Definition Redis_SimpleString (m : string) : string := "+" +:+ m +:+ CRLF.

(** libevent's event bits. *)
Definition EV_READ : Z := 2.
Definition EV_WRITE : Z := 4.

(** Modelled from the spec: the flag bits of [Redis::Connection]
    (redis_request.h is not part of the sources at hand); the spec asks for
    a bit set holding at least [Monitor] and [CloseAfterReply]. *)
Definition kMonitor : Z := Z.shiftl 1 5.
Definition kCloseAfterReply : Z := Z.shiftl 1 6.

(** Modelled from the spec: [kDefaultNamespace], the well-known default
    namespace, is declared outside the sources at hand. *)
Definition kDefaultNamespace : string := "__namespace".

(** Modelled from the spec: the attributes of [Redis::Connection] (section 3
    of the specification); the class itself is declared in redis_request.h.
    [id_assigned] is a ghost field: it records that [SetID] has run.
    [events_] is the set of events enabled on the connection's bufferevent,
    [output_] the bytes queued in its output evbuffer. *)
Record Connection := mkConnection {
  fd_ : Z;
  id_ : Z;
  id_assigned : bool;
  addr_ : string;
  name_ : string;
  ns_ : string;
  flags_ : Z;
  create_time_ : Z;
  last_interaction_ : Z;
  last_cmd_ : string;
  input_ : string;
  output_ : string;
  events_ : Z
}.

Definition set_id (v : Z) (c : Connection) : Connection :=
  mkConnection (fd_ c) v true (addr_ c) (name_ c) (ns_ c) (flags_ c)
    (create_time_ c) (last_interaction_ c) (last_cmd_ c) (input_ c) (output_ c) (events_ c).
Definition set_addr (v : string) (c : Connection) : Connection :=
  mkConnection (fd_ c) (id_ c) (id_assigned c) v (name_ c) (ns_ c) (flags_ c)
    (create_time_ c) (last_interaction_ c) (last_cmd_ c) (input_ c) (output_ c) (events_ c).
Definition set_flags (v : Z) (c : Connection) : Connection :=
  mkConnection (fd_ c) (id_ c) (id_assigned c) (addr_ c) (name_ c) (ns_ c) v
    (create_time_ c) (last_interaction_ c) (last_cmd_ c) (input_ c) (output_ c) (events_ c).
Definition set_output (v : string) (c : Connection) : Connection :=
  mkConnection (fd_ c) (id_ c) (id_assigned c) (addr_ c) (name_ c) (ns_ c) (flags_ c)
    (create_time_ c) (last_interaction_ c) (last_cmd_ c) (input_ c) v (events_ c).
Definition set_events (v : Z) (c : Connection) : Connection :=
  mkConnection (fd_ c) (id_ c) (id_assigned c) (addr_ c) (name_ c) (ns_ c) (flags_ c)
    (create_time_ c) (last_interaction_ c) (last_cmd_ c) (input_ c) (output_ c) v.

(** Modelled from the spec: the constructor [Redis::Connection(bev, worker)]
    for a socket [fd] accepted at time [now]: no id yet, empty address and
    name, default namespace, no flag, empty buffers, no event enabled. *)
Definition new_Connection (fd now : Z) : Connection :=
  mkConnection fd 0 false "" "" kDefaultNamespace 0 now now "" "" "" 0.

(** Modelled from the spec: [Server]'s configuration and client registry
    (server.h is not part of the sources at hand): the [maxclients] and
    [timeout] options and the three atomic counters. *)
Record Server := mkServer {
  maxclients : Z;
  timeout : Z;
  connected_clients_ : Z;
  monitor_clients_ : Z;
  client_id_ : Z
}.

Definition set_connected_clients (v : Z) (sv : Server) : Server :=
  mkServer (maxclients sv) (timeout sv) v (monitor_clients_ sv) (client_id_ sv).
Definition set_monitor_clients (v : Z) (sv : Server) : Server :=
  mkServer (maxclients sv) (timeout sv) (connected_clients_ sv) v (client_id_ sv).
Definition set_client_id (v : Z) (sv : Server) : Server :=
  mkServer (maxclients sv) (timeout sv) (connected_clients_ sv) (monitor_clients_ sv) v.

(** The history of a run, in program order: what reaches a peer's socket
    ([write], [close]) and, as a ghost record, every id handed to a
    Connection by [SetID]. *)
Inductive Event :=
| EvWrite (fd : Z) (bytes : string)
| EvClose (fd : Z)
| EvSetID (id : Z).

Global Instance Event_eq_dec : EqDecision Event.
Proof. solve_decision. Defined.

(** ** The store

    [svr_] is the [Server] behind [Worker::svr_]; [conns_],
    [monitor_conns_] and [last_iter_conn_fd] are the Worker's own fields;
    [heap] holds the [Connection] objects allocated with [new] and not yet
    deleted; [trace] is the history of the run. *)
Record State := mkState {
  svr_ : Server;
  conns_ : StdMap.t;
  monitor_conns_ : StdMap.t;
  last_iter_conn_fd : Z;
  heap : gmap ptr Connection;
  trace : list Event
}.

Definition set_svr (v : Server) (s : State) : State :=
  mkState v (conns_ s) (monitor_conns_ s) (last_iter_conn_fd s) (heap s) (trace s).
Definition set_conns (v : StdMap.t) (s : State) : State :=
  mkState (svr_ s) v (monitor_conns_ s) (last_iter_conn_fd s) (heap s) (trace s).
Definition set_monitor_conns (v : StdMap.t) (s : State) : State :=
  mkState (svr_ s) (conns_ s) v (last_iter_conn_fd s) (heap s) (trace s).
Definition set_last_iter_conn_fd (v : Z) (s : State) : State :=
  mkState (svr_ s) (conns_ s) (monitor_conns_ s) v (heap s) (trace s).
Definition set_heap (v : gmap ptr Connection) (s : State) : State :=
  mkState (svr_ s) (conns_ s) (monitor_conns_ s) (last_iter_conn_fd s) v (trace s).
Definition set_trace (v : list Event) (s : State) : State :=
  mkState (svr_ s) (conns_ s) (monitor_conns_ s) (last_iter_conn_fd s) (heap s) v.

(** ** The monad *)

Definition M (A : Type) : Type := State → option (A * State).

Global Instance M_ret : MRet M := λ A a s, Some (a, s).
Global Instance M_bind : MBind M := λ A B f m s,
  match m s with
  | Some (a, s') => f a s'
  | None => None
  end.

Definition gets {A} (f : State → A) : M A := λ s, Some (f s, s).
Definition modify (f : State → State) : M unit := λ s, Some (tt, f s).
Definition undefined {A} : M A := λ _, None.

(** Every member call [p->...] goes through [deref]. *)
Definition deref (p : ptr) : M Connection := λ s,
  match heap s !! p with
  | Some c => Some (c, s)
  | None => None
  end.

Definition update (p : ptr) (f : Connection → Connection) : M unit :=
  c ← deref p; modify (λ s, set_heap (<[p := f c]> (heap s)) s).

(** [for (x : l) body]. *)
Fixpoint for_each {A} (l : list A) (body : A → M unit) : M unit :=
  match l with
  | [] => mret tt
  | x :: l' => body x;; for_each l' body
  end.

(** ** Members of the collaborating classes *)

(** Modelled from the spec: the accessors of [Redis::Connection]
    (redis_request.h is not part of the sources at hand). *)
Definition GetFD (p : ptr) : M Z := c ← deref p; mret (fd_ c).
Definition GetID (p : ptr) : M Z := c ← deref p; mret (id_ c).
Definition GetAddr (p : ptr) : M string := c ← deref p; mret (addr_ c).
Definition GetNamespace (p : ptr) : M string := c ← deref p; mret (ns_ c).
Definition SetID (p : ptr) (id : Z) : M unit :=
  update p (set_id id);;
  modify (λ s, set_trace (trace s ++ [EvSetID id]) s).
Definition SetAddr (p : ptr) (a : string) : M unit := update p (set_addr a).
Definition EnableFlag (p : ptr) (flag : Z) : M unit :=
  update p (λ c, set_flags (Z.lor (flags_ c) flag) c).

(** Modelled from the spec: [idle() = now - last_interaction_at], in
    seconds; [now] is the clock reading at the time of the call. *)
Definition GetIdleTime (now : Z) (p : ptr) : M Z :=
  c ← deref p; mret (now - last_interaction_ c).

(** [bufferevent_enable(p->GetBufferEvent(), ev)]. *)
Definition bufferevent_enable (p : ptr) (ev : Z) : M unit :=
  update p (λ c, set_events (Z.lor (events_ c) ev) c).

(** Modelled from the spec: [Redis::Reply(p->Output(), bytes)] (declared in
    redis_reply.h, not part of the sources at hand) appends the bytes to the
    output buffer. *)
Definition Redis_Reply (p : ptr) (bytes : string) : M unit :=
  update p (λ c, set_output (output_ c +:+ bytes) c).

(** Modelled from the spec: [Connection::Reply] is [write_reply(bytes)]:
    append to the output buffer and make sure the writable event is
    armed. *)
Definition Connection_Reply (p : ptr) (bytes : string) : M unit :=
  Redis_Reply p bytes;; bufferevent_enable p EV_WRITE.

(** [new Redis::Connection(bev, worker)] returning the address [p]; the
    allocator never returns the address of an object that is still
    allocated. *)
Definition alloc (p : ptr) (c : Connection) : M unit := λ s,
  match heap s !! p with
  | Some _ => None
  | None => Some (tt, set_heap (<[p := c]> (heap s)) s)
  end.

(** Modelled from the spec: [delete p] runs the destructor of
    [Redis::Connection] (not part of the sources at hand): destroying a
    Connection closes its socket; [newConnection] creates the bufferevent
    with [BEV_OPT_CLOSE_ON_FREE]. *)
Definition delete_conn (p : ptr) : M unit :=
  c ← deref p;
  modify (λ s, set_trace (trace s ++ [EvClose (fd_ c)]) (set_heap (delete p (heap s)) s)).

(** [write(fd, bytes.data(), bytes.size())]. *)
Definition sys_write (fd : Z) (bytes : string) : M unit :=
  modify (λ s, set_trace (trace s ++ [EvWrite fd bytes]) s).

(** [evutil_closesocket(fd)]. *)
Definition evutil_closesocket (fd : Z) : M unit :=
  modify (λ s, set_trace (trace s ++ [EvClose fd]) s).

(** Modelled from the spec: the registry operations of [Server] (server.h
    is not part of the sources at hand).  The counters are atomics;
    [IncrClientNum] is a fetch-and-add, returning the value the counter held
    before the increment, the idiom [AddConnection] itself uses on the id
    counter; compared with [>= max_clients] it rejects exactly when the new
    value would exceed the cap, which is what the specification says of
    admission and what its scenario S2 needs (with [maxclients = 3], three
    of four clients stay). *)
Definition IncrClientNum : M Z := λ s,
  let n := connected_clients_ (svr_ s) in
  Some (n, set_svr (set_connected_clients (n + 1) (svr_ s)) s).
Definition DecrClientNum : M unit :=
  modify (λ s, set_svr (set_connected_clients (connected_clients_ (svr_ s) - 1) (svr_ s)) s).
Definition IncrMonitorClientNum : M unit :=
  modify (λ s, set_svr (set_monitor_clients (monitor_clients_ (svr_ s) + 1) (svr_ s)) s).
Definition DecrMonitorClientNum : M unit :=
  modify (λ s, set_svr (set_monitor_clients (monitor_clients_ (svr_ s) - 1) (svr_ s)) s).

(** [svr_->GetClientID()->fetch_add(1, std::memory_order_relaxed)] on a
    [uint64_t]. *)
Definition fetch_add_client_id : M Z := λ s,
  let id := client_id_ (svr_ s) in
  Some (id, set_svr (set_client_id ((id + 1) mod 2 ^ 64) (svr_ s)) s).

(** [static_cast<int>(x)]. *)
Definition static_cast_int (x : Z) : Z := (x + 2 ^ 31) mod 2 ^ 32 - 2 ^ 31.

(** ** Worker *)

Definition AddConnection (c : ptr) : M Status :=
  fd ← GetFD c;
  iter ← gets (λ s, StdMap.find (conns_ s) fd);
  if iter is Some _ then mret (mkStatus NotOK "connection was exists")
  else
    max_clients ← gets (λ s, maxclients (svr_ s));
    n ← IncrClientNum;
    if bool_decide (n >= max_clients) then
      DecrClientNum;;
      mret (mkStatus NotOK "max number of clients reached")
    else
      modify (λ s, set_conns (StdMap.insert fd c (conns_ s)) s);;
      id ← fetch_add_client_id;
      SetID c id;;
      mret Status_OK.

Definition RemoveConnection (fd : Z) : M unit :=
  iter ← gets (λ s, StdMap.find (conns_ s) fd);
  (if iter is Some p then
     delete_conn p;;
     modify (λ s, set_conns (StdMap.erase fd (conns_ s)) s);;
     DecrClientNum
   else mret tt);;
  iter ← gets (λ s, StdMap.find (monitor_conns_ s) fd);
  (if iter is Some p then
     delete_conn p;;
     modify (λ s, set_monitor_conns (StdMap.erase fd (monitor_conns_ s)) s);;
     DecrClientNum;;
     DecrMonitorClientNum
   else mret tt).

Definition RemoveConnectionByID (fd : Z) (id : Z) : M unit :=
  iter ← gets (λ s, StdMap.find (conns_ s) fd);
  (if iter is Some p then
     i ← GetID p;
     if bool_decide (i = id) then
       delete_conn p;;
       modify (λ s, set_conns (StdMap.erase fd (conns_ s)) s);;
       DecrClientNum
     else mret tt
   else mret tt);;
  iter ← gets (λ s, StdMap.find (monitor_conns_ s) fd);
  (if iter is Some p then
     i ← GetID p;
     if bool_decide (i = id) then
       delete_conn p;;
       modify (λ s, set_monitor_conns (StdMap.erase fd (monitor_conns_ s)) s);;
       DecrClientNum;;
       DecrMonitorClientNum
     else mret tt
   else mret tt).

Definition EnableWriteEvent (fd : Z) : M Status :=
  iter ← gets (λ s, StdMap.find (conns_ s) fd);
  if iter is Some p then
    bufferevent_enable p EV_WRITE;;
    mret Status_OK
  else mret (mkStatus NotOK "").

Definition Reply (fd : Z) (reply : string) : M Status :=
  iter ← gets (λ s, StdMap.find (conns_ s) fd);
  if iter is Some p then
    Redis_Reply p reply;;
    mret Status_OK
  else mret (mkStatus NotOK "connection doesn't exist").

Definition BecomeMonitorConn (conn : ptr) : M unit :=
  fd ← GetFD conn;
  modify (λ s, set_conns (StdMap.erase fd (conns_ s)) s);;
  fd ← GetFD conn;
  modify (λ s, set_monitor_conns (StdMap.assign fd conn (monitor_conns_ s)) s);;
  IncrMonitorClientNum;;
  EnableFlag conn kMonitor.

(** The line [FeedMonitorConns] composes; [tv_sec] and [tv_usec] are what
    [gettimeofday] returned. *)
Definition feed_line (tv_sec tv_usec : Z) (addr : string) (tokens : list string) : string :=
  foldl (λ output token, output +:+ (" " +:+ DQUOTE +:+ token +:+ DQUOTE))
        ((pretty tv_sec +:+ "." +:+ pretty tv_usec) +:+ (" [0 " +:+ addr +:+ "]"))
        tokens.

Definition FeedMonitorConns (tv_sec tv_usec : Z) (conn : ptr) (tokens : list string) : M unit :=
  addr ← GetAddr conn;
  let output := feed_line tv_sec tv_usec addr tokens in
  mons ← gets monitor_conns_;
  for_each mons (λ iter,
    if bool_decide (conn = iter.2) then mret tt
    else
      ns_c ← GetNamespace conn;
      ns_m ← GetNamespace iter.2;
      if bool_decide (ns_c = ns_m) then Connection_Reply iter.2 (Redis_SimpleString output)
      else
        ns_m ← GetNamespace iter.2;
        if bool_decide (ns_m = kDefaultNamespace)
        then Connection_Reply iter.2 (Redis_SimpleString output)
        else mret tt).

(** The test of [KillClient]'s loop body, with C++'s short-circuit
    evaluation. *)
Definition kill_matches (conn : ptr) (id : Z) (addr : string) : M bool :=
  by_addr ← (if bool_decide (addr = "") then mret false
             else a ← GetAddr conn; mret (bool_decide (a = addr)));
  if (by_addr : bool) then mret true
  else if bool_decide (id = 0) then mret false
  else i ← GetID conn; mret (bool_decide (i = id)).

Fixpoint KillClient_loop (l : StdMap.t) (self : ptr) (id : Z) (addr : string)
    (skipme : bool) (killed : Z) : M Z :=
  match l with
  | [] => mret killed
  | (_, conn) :: l' =>
      if skipme && bool_decide (self = conn) then KillClient_loop l' self id addr skipme killed
      else
        b ← kill_matches conn id addr;
        if (b : bool) then
          EnableFlag conn kCloseAfterReply;;
          bufferevent_enable conn EV_WRITE;;
          KillClient_loop l' self id addr skipme (killed + 1)
        else KillClient_loop l' self id addr skipme killed
  end.

(** [killed] is the value of [*killed] on entry, the result its value on
    return. *)
Definition KillClient (self : ptr) (id : Z) (addr : string) (skipme : bool) (killed : Z) : M Z :=
  conns ← gets conns_;
  KillClient_loop conns self id addr skipme killed.

(** The [while (iterations--)] loop of [KickoutIdleClients]; an iterator is
    a position in the table, [length conns] being [end()]. *)
Fixpoint Kickout_loop (now timeout : Z) (conns : StdMap.t) (iterations iter : nat)
    (to_be_killed_conns : list (Z * Z)) : M (nat * list (Z * Z)) :=
  match iterations with
  | O => mret (iter, to_be_killed_conns)
  | S iterations' =>
      let iter := if bool_decide (iter = length conns) then 0%nat else iter in
      match conns !! iter with
      | None => undefined
      | Some (fd, p) =>
          idle ← GetIdleTime now p;
          if bool_decide (static_cast_int idle >= timeout) then
            id ← GetID p;
            Kickout_loop now timeout conns iterations' (S iter) (to_be_killed_conns ++ [(fd, id)])
          else
            Kickout_loop now timeout conns iterations' (S iter) to_be_killed_conns
      end
  end.

Definition KickoutIdleClients (now timeout : Z) : M unit :=
  conns ← gets conns_;
  if conns is [] then mret tt
  else
    let iterations := Nat.min (length conns) 50 in
    last ← gets last_iter_conn_fd;
    let iter := StdMap.upper_bound conns last in
    '(iter, to_be_killed_conns) ← Kickout_loop now timeout conns iterations iter [];
    let iter := Nat.pred iter in
    match conns !! iter with
    | None => undefined
    | Some (fd, _) =>
        modify (set_last_iter_conn_fd fd);;
        for_each to_be_killed_conns (λ conn, RemoveConnectionByID conn.1 conn.2)
    end.

Definition TimerCB (now : Z) : M unit :=
  t ← gets (λ s, timeout (svr_ s));
  if bool_decide (t = 0) then mret tt
  else KickoutIdleClients now t.

(** [newConnection]: the listener's accept callback for socket [fd].
    [keepalive_ok] tells whether [setsockopt] succeeded, [p] is the address
    [new] returns, [now] the clock reading, [peer] what [Util::GetPeerAddr]
    found ([None] when it fails). *)
Definition newConnection (keepalive_ok : bool) (p : ptr) (fd now : Z)
    (peer : option (string * Z)) : M unit :=
  if negb keepalive_ok then evutil_closesocket fd
  else
    alloc p (new_Connection fd now);;
    bufferevent_enable p EV_READ;;
    status ← AddConnection p;
    (if peer is Some (host, port) then SetAddr p (host +:+ ":" +:+ pretty port)
     else mret tt);;
    if negb (IsOK status) then
      let err_msg := Redis_Error ("ERR " +:+ Msg status) in
      sys_write fd err_msg;;
      fd' ← GetFD p;
      RemoveConnection fd'
    else mret tt.

(** ** Runs of a Worker

    The calls the rest of the server makes on a Worker, and what the
    environment guarantees when it makes them. *)

Inductive Op :=
| OpNewConnection (keepalive_ok : bool) (p : ptr) (fd now : Z) (peer : option (string * Z))
| OpRemoveConnection (fd : Z)
| OpRemoveConnectionByID (fd id : Z)
| OpEnableWriteEvent (fd : Z)
| OpReply (fd : Z) (reply : string)
| OpBecomeMonitorConn (conn : ptr)
| OpFeedMonitorConns (tv_sec tv_usec : Z) (conn : ptr) (tokens : list string)
| OpKillClient (self : ptr) (id : Z) (addr : string) (skipme : bool)
| OpTimerCB (now : Z).

Definition step (o : Op) : M unit :=
  match o with
  | OpNewConnection k p fd now peer => newConnection k p fd now peer
  | OpRemoveConnection fd => RemoveConnection fd
  | OpRemoveConnectionByID fd id => RemoveConnectionByID fd id
  | OpEnableWriteEvent fd => EnableWriteEvent fd;; mret tt
  | OpReply fd reply => Reply fd reply;; mret tt
  | OpBecomeMonitorConn conn => BecomeMonitorConn conn
  | OpFeedMonitorConns tv_sec tv_usec conn tokens => FeedMonitorConns tv_sec tv_usec conn tokens
  | OpKillClient self id addr skipme => KillClient self id addr skipme 0;; mret tt
  | OpTimerCB now => TimerCB now
  end.

(** The entries of both tables. *)
Definition tabled (s : State) : StdMap.t := conns_ s ++ monitor_conns_ s.

(** [newConnection] is called with a descriptor [accept] has just returned,
    which is none that a monitor still holds open, and [new] returns an
    address that is not in use; the dispatcher promotes, and feeds monitors
    on behalf of, a Connection the Worker holds.

    The last part is an assumption on the callers.  The Worker neither
    checks it nor keeps it true by itself: a Connection whose admission was
    rejected stays allocated with its read event enabled, in no table, and
    its peer can still have it promoted.  [callable] and [runs] below do
    without that assumption. *)
Definition enabled (o : Op) (s : State) : Prop :=
  match o with
  | OpNewConnection _ p fd _ _ =>
      heap s !! p = None ∧ fd ∉ StdMap.keys (monitor_conns_ s)
  | OpBecomeMonitorConn conn => conn ∈ StdMap.ptrs (tabled s)
  | OpFeedMonitorConns _ _ conn _ => conn ∈ StdMap.ptrs (tabled s)
  | _ => True
  end.

Inductive steps : State → list Op → State → Prop :=
| steps_nil s : steps s [] s
| steps_cons s o s1 ops s2 :
    enabled o s → step o s = Some (tt, s1) → steps s1 ops s2 →
    steps s (o :: ops) s2.

(** ** Invariants *)

(** The ids handed out so far, oldest first. *)
Definition set_ids (tr : list Event) : list Z :=
  omap (λ e, if e is EvSetID id then Some id else None) tr.

(** The closes and writes seen on descriptor [fd]. *)
Definition closes_of (fd : Z) (tr : list Event) : list Event :=
  filter (λ e, e = EvClose fd) tr.
Definition writes_of (fd : Z) (tr : list Event) : list string :=
  omap (λ e, if e is EvWrite fd' b then (if bool_decide (fd' = fd) then Some b else None)
             else None) tr.

(** What no member function of the Worker changes once a Connection is
    admitted. *)
Definition stable (c c' : Connection) : Prop :=
  fd_ c' = fd_ c ∧ id_ c' = id_ c ∧ id_assigned c' = id_assigned c.

(** Both tables are ordered maps, no descriptor is a key twice, and every
    entry points to an allocated Connection for that descriptor. *)
Record WF (s : State) : Prop := mkWF {
  wf_conns : StdMap.sorted (conns_ s);
  wf_monitor : StdMap.sorted (monitor_conns_ s);
  wf_keys : NoDup (StdMap.keys (tabled s));
  wf_live : ∀ fd p, (fd, p) ∈ tabled s → ∃ c, heap s !! p = Some c ∧ fd_ c = fd
}.

(** What holds between any two calls: the tables are well formed, every
    Connection in a table has its id, and the tables hold no more
    Connections than the client counter says, which is at most the cap. *)
Record Inv (s : State) : Prop := mkInv {
  inv_wf : WF s;
  inv_assigned : ∀ fd p c,
    (fd, p) ∈ tabled s → heap s !! p = Some c → id_assigned c = true;
  inv_cap :
    Z.of_nat (length (tabled s)) ≤ connected_clients_ (svr_ s) ≤ maxclients (svr_ s)
}.

(** What holds of the ids as long as the counter has not wrapped: those
    handed out are increasing and below the counter, those of the
    Connections in the tables are below the counter and pairwise
    distinct. *)
Record InvIds (s : State) : Prop := mkInvIds {
  ids_counter : 0 ≤ client_id_ (svr_ s);
  ids_increasing : StronglySorted Z.lt (set_ids (trace s));
  ids_below : Forall (λ i, i < client_id_ (svr_ s)) (set_ids (trace s));
  ids_tabled_below : ∀ fd p c,
    (fd, p) ∈ tabled s → heap s !! p = Some c → id_ c < client_id_ (svr_ s);
  ids_distinct : ∀ fd1 p1 c1 fd2 p2 c2,
    (fd1, p1) ∈ tabled s → (fd2, p2) ∈ tabled s →
    heap s !! p1 = Some c1 → heap s !! p2 = Some c2 →
    id_ c1 = id_ c2 → p1 = p2
}.

(** A step that admits nobody: the tables only lose entries, the entries
    that stay keep their Connection, the id counter and the cap are
    untouched and no id is handed out. *)
Record evolves (s s' : State) : Prop := mkEvolves {
  ev_client_id : client_id_ (svr_ s') = client_id_ (svr_ s);
  ev_maxclients : maxclients (svr_ s') = maxclients (svr_ s);
  ev_set_ids : set_ids (trace s') = set_ids (trace s);
  ev_tabled : ∀ e, e ∈ tabled s' → e ∈ tabled s;
  ev_stable : ∀ fd p c, (fd, p) ∈ tabled s' → heap s !! p = Some c →
    ∃ c', heap s' !! p = Some c' ∧ stable c c'
}.

(** Where a Connection is: in the normal table, in the monitor table, or
    destroyed. *)
Definition in_normal (s : State) (p : ptr) : Prop := p ∈ StdMap.ptrs (conns_ s).
Definition in_monitor (s : State) (p : ptr) : Prop := p ∈ StdMap.ptrs (monitor_conns_ s).
Definition destroyed (s : State) (p : ptr) : Prop := heap s !! p = None.

Definition exactly_one (s : State) (p : ptr) : Prop :=
  (in_normal s p ∧ ¬ in_monitor s p ∧ ¬ destroyed s p) ∨
  (¬ in_normal s p ∧ in_monitor s p ∧ ¬ destroyed s p) ∨
  (¬ in_normal s p ∧ ¬ in_monitor s p ∧ destroyed s p).

(** ** Specifications of the loops *)

(** [feed_monitors]: who receives the line. *)
Definition feed_receives (conn : ptr) (src : Connection) (m : ptr) (c : Connection) : bool :=
  bool_decide (m ≠ conn) &&
  (bool_decide (ns_ c = ns_ src) || bool_decide (ns_ c = kDefaultNamespace)).

Definition deliver (bytes : string) (c : Connection) : Connection :=
  set_events (Z.lor (events_ c) EV_WRITE) (set_output (output_ c +:+ bytes) c).

(** [kill]: the filter, and what is done to a match. *)
Definition kill_filter (id : Z) (addr : string) (c : Connection) : bool :=
  (bool_decide (addr ≠ "") && bool_decide (addr_ c = addr)) ||
  (bool_decide (id ≠ 0) && bool_decide (id_ c = id)).

(** The Connection [c] at address [p] is hit: it passes the filter and is
    not the caller when the caller is to be skipped. *)
Definition kill_hits (self : ptr) (id : Z) (addr : string) (skipme : bool)
    (p : ptr) (c : Connection) : bool :=
  negb (skipme && bool_decide (self = p)) && kill_filter id addr c.

Definition kill_target (h : gmap ptr Connection) (self : ptr) (id : Z) (addr : string)
    (skipme : bool) (e : Z * ptr) : bool :=
  match h !! e.2 with
  | Some c => kill_hits self id addr skipme e.2 c
  | None => false
  end.

(** How many entries of a table a predicate selects. *)
Definition count_entries (f : Z * ptr → bool) (l : StdMap.t) : nat :=
  length (List.filter f l).

Definition kill_mark (c : Connection) : Connection :=
  set_events (Z.lor (events_ c) EV_WRITE) (set_flags (Z.lor (flags_ c) kCloseAfterReply) c).

(** [kick_idle_clients], following the words of the specification: the
    Connections after the cursor in table order, then (wrapping) those up
    to the cursor; at most 50 of them are visited. *)
Definition visit_order (conns : StdMap.t) (cursor : Z) : StdMap.t :=
  List.filter (λ e, cursor <? e.1) conns ++ List.filter (λ e, e.1 <=? cursor) conns.

Definition visited (conns : StdMap.t) (cursor : Z) : StdMap.t :=
  take 50 (visit_order conns cursor).

Definition idle_pair (now timeout_sec : Z) (h : gmap ptr Connection) (e : Z * ptr)
    : option (Z * Z) :=
  match h !! e.2 with
  | Some c => if bool_decide (timeout_sec ≤ now - last_interaction_ c)
              then Some (e.1, id_ c) else None
  | None => None
  end.

(** What the scan of [KickoutIdleClients] collects for one entry. *)
Definition scan_pair (now timeout : Z) (h : gmap ptr Connection) (e : Z * ptr)
    : option (Z * Z) :=
  match h !! e.2 with
  | Some c => if bool_decide (static_cast_int (now - last_interaction_ c) >= timeout)
              then Some (e.1, id_ c) else None
  | None => None
  end.

Definition kick_idle_clients (now : Z) : M unit :=
  timeout_sec ← gets (λ s, timeout (svr_ s));
  if bool_decide (timeout_sec = 0) then mret tt
  else
    conns ← gets conns_;
    cursor ← gets last_iter_conn_fd;
    h ← gets heap;
    let seen := visited conns cursor in
    (if last seen is Some (fd, _) then modify (set_last_iter_conn_fd fd) else mret tt);;
    for_each (omap (idle_pair now timeout_sec h) seen)
             (λ pair, RemoveConnectionByID pair.1 pair.2).

(** The idle time of every Connection in the normal table is one an [int]
    holds. *)
Definition idle_in_range (now : Z) (s : State) : Prop :=
  ∀ fd p c, (fd, p) ∈ conns_ s → heap s !! p = Some c →
    - 2 ^ 31 ≤ now - last_interaction_ c < 2 ^ 31.

(** A step that touches neither the tables nor the counters and hands out
    no id: Connections are only changed in place. *)
Record mutates (s s' : State) : Prop := mkMutates {
  mu_svr : svr_ s' = svr_ s;
  mu_conns : conns_ s' = conns_ s;
  mu_monitor : monitor_conns_ s' = monitor_conns_ s;
  mu_ids : set_ids (trace s') = set_ids (trace s);
  mu_heap : ∀ p,
    match heap s !! p, heap s' !! p with
    | Some c, Some c' => stable c c'
    | None, None => True
    | _, _ => False
    end
}.

(** A step that allocates nothing and drops no Connection from the tables
    without destroying it. *)
Record keeps (s s' : State) : Prop := mkKeeps {
  keep_tabled : ∀ fd p, (fd, p) ∈ tabled s → (fd, p) ∈ tabled s' ∨ heap s' !! p = None;
  keep_free : ∀ p, heap s !! p = None → heap s' !! p = None
}.

(** What every step that admits nobody guarantees. *)
Definition settles (s s' : State) : Prop := Inv s' ∧ evolves s s' ∧ keeps s s'.

(** What every step guarantees: the invariant, no Connection dropped from
    the tables without being destroyed, and, as long as the 64-bit id
    counter has not wrapped, the id invariant. *)
Record advances (s s' : State) : Prop := mkAdvances {
  adv_inv : Inv s';
  adv_kept : ∀ fd p, (fd, p) ∈ tabled s → (fd, p) ∈ tabled s' ∨ heap s' !! p = None;
  adv_maxclients : maxclients (svr_ s') = maxclients (svr_ s);
  adv_ids : InvIds s → client_id_ (svr_ s) + 1 < 2 ^ 64 →
            InvIds s' ∧ client_id_ (svr_ s') ≤ client_id_ (svr_ s) + 1
}.

(** ** The states the member functions lead to *)

(** After [AddConnection(c)] returned OK; [conn] is [*c] on entry. *)
Definition admitted (c : ptr) (conn : Connection) (s : State) : State :=
  mkState
    (mkServer (maxclients (svr_ s)) (timeout (svr_ s))
       (connected_clients_ (svr_ s) + 1) (monitor_clients_ (svr_ s))
       ((client_id_ (svr_ s) + 1) mod 2 ^ 64))
    (StdMap.insert (fd_ conn) c (conns_ s))
    (monitor_conns_ s)
    (last_iter_conn_fd s)
    (<[c := set_id (client_id_ (svr_ s)) conn]> (heap s))
    (trace s ++ [EvSetID (client_id_ (svr_ s))]).

(** After the entry [fd -> p] left the normal table; [c] is [*p]. *)
Definition erased_normal (fd : Z) (p : ptr) (c : Connection) (s : State) : State :=
  mkState
    (set_connected_clients (connected_clients_ (svr_ s) - 1) (svr_ s))
    (StdMap.erase fd (conns_ s))
    (monitor_conns_ s)
    (last_iter_conn_fd s)
    (delete p (heap s))
    (trace s ++ [EvClose (fd_ c)]).

(** After the entry [fd -> p] left the monitor table; [c] is [*p]. *)
Definition erased_monitor (fd : Z) (p : ptr) (c : Connection) (s : State) : State :=
  mkState
    (set_monitor_clients (monitor_clients_ (svr_ s) - 1)
       (set_connected_clients (connected_clients_ (svr_ s) - 1) (svr_ s)))
    (conns_ s)
    (StdMap.erase fd (monitor_conns_ s))
    (last_iter_conn_fd s)
    (delete p (heap s))
    (trace s ++ [EvClose (fd_ c)]).

(** After [BecomeMonitorConn(conn)]; [c] is [*conn] on entry. *)
Definition promoted (conn : ptr) (c : Connection) (s : State) : State :=
  mkState
    (set_monitor_clients (monitor_clients_ (svr_ s) + 1) (svr_ s))
    (StdMap.erase (fd_ c) (conns_ s))
    (StdMap.assign (fd_ c) conn (monitor_conns_ s))
    (last_iter_conn_fd s)
    (<[conn := set_flags (Z.lor (flags_ c) kMonitor) c]> (heap s))
    (trace s).

(** ** A sample Worker

    Two clients in the normal table and three monitors, on a server that
    allows ten clients and kicks clients idle for 60 seconds. *)

Definition alice : Connection :=
  mkConnection 7 1 true "10.0.0.1:5001" "" "ns1" 0 100 100 "get" "" "" EV_READ.
Definition bob : Connection :=
  mkConnection 9 3 true "10.0.0.3:5003" "" kDefaultNamespace 0 120 190 "ping" "" "" EV_READ.
Definition mona : Connection :=
  mkConnection 5 2 true "10.0.0.2:5002" "" "ns1" kMonitor 110 110 "monitor" "" "" EV_READ.
Definition root : Connection :=
  mkConnection 6 4 true "10.0.0.4:5004" "" kDefaultNamespace kMonitor 130 130 "monitor" "" ""
    EV_READ.
Definition eve : Connection :=
  mkConnection 8 5 true "10.0.0.5:5005" "" "ns2" kMonitor 140 140 "monitor" "" "" EV_READ.

Definition sample : State :=
  mkState (mkServer 10 60 5 3 6)
    [(7, 1%positive); (9, 3%positive)]
    [(5, 2%positive); (6, 4%positive); (8, 5%positive)]
    0
    (<[1%positive := alice]> (<[2%positive := mona]> (<[3%positive := bob]>
       (<[4%positive := root]> (<[5%positive := eve]> ∅)))))
    [EvSetID 1; EvSetID 2; EvSetID 3; EvSetID 4; EvSetID 5].

(** The same Worker on a server whose client cap is reached. *)
Definition sample_full : State :=
  set_svr (mkServer 5 60 5 3 6) sample.

(** The sample Worker once [newConnection] has allocated the Connection for
    a socket accepted on descriptor 11, before it calls [AddConnection]. *)
Definition sample_pending : State :=
  set_heap (<[6%positive := new_Connection 11 200]> (heap sample)) sample.

(** ** The rest of worker.cc *)

(** [Worker::~Worker]: the pointers of the normal table are copied into a
    list, then [RemoveConnection(iter->GetFD())] is called on each; freeing
    the timer and the event base leaves the tables as they are. *)
Definition Worker_destructor : M unit :=
  conns ← gets (λ s, (conns_ s).*2);
  for_each conns (λ iter, fd ← GetFD iter; RemoveConnection fd).

(** Modelled from the spec: the remaining accessors of [Redis::Connection]
    that [GetClientsStr] prints: [name], [age() = now - created_at], the
    last command, and the lengths of the two buffers. *)
Definition GetAge (now : Z) (c : Connection) : Z := now - create_time_ c.
Definition evbuffer_get_length (b : string) : Z := Z.of_nat (String.length b).

Section ClientList.

(** How [operator<<] prints what [GetFlags] returns; the accessor's type is
    declared outside the sources at hand. *)
Variable flags_text : Z → string.

(** The line [GetClientsStr] builds for the entry [fd -> c]. *)
Definition client_line (now : Z) (fd : Z) (c : Connection) : string :=
  "id=" +:+ pretty (id_ c) +:+
  " addr=" +:+ addr_ c +:+
  " fd=" +:+ pretty fd +:+
  " name=" +:+ name_ c +:+
  " age=" +:+ pretty (GetAge now c) +:+
  " idle=" +:+ pretty (now - last_interaction_ c) +:+
  " flags=" +:+ flags_text (flags_ c) +:+
  " namespace=" +:+ ns_ c +:+
  " qbuf=" +:+ pretty (evbuffer_get_length (input_ c)) +:+
  " obuf=" +:+ pretty (evbuffer_get_length (output_ c)) +:+
  " cmd=" +:+ last_cmd_ c +:+
  String (Ascii.ascii_of_nat 10) EmptyString.

Fixpoint GetClientsStr_loop (now : Z) (l : StdMap.t) (clients : string) : M string :=
  match l with
  | [] => mret clients
  | (fd, p) :: l' =>
      c ← deref p;
      GetClientsStr_loop now l' (clients +:+ client_line now fd c)
  end.

Definition GetClientsStr (now : Z) : M string :=
  conns ← gets conns_;
  GetClientsStr_loop now conns "".

(** The listing of a table whose Connections are in [h]. *)
Definition clients_text (now : Z) (h : gmap ptr Connection) (l : StdMap.t) : string :=
  foldr (λ e rest, match h !! e.2 with
                   | Some c => client_line now e.1 c +:+ rest
                   | None => rest
                   end) "" l.

End ClientList.

(** What [newConnection] makes of the Connection it allocates before it
    calls [AddConnection], and the address it records afterwards. *)
Definition accepted (fd now : Z) : Connection :=
  set_events (Z.lor (events_ (new_Connection fd now)) EV_READ) (new_Connection fd now).

Definition with_peer (peer : option (string * Z)) (c : Connection) : Connection :=
  match peer with
  | Some (host, port) => set_addr (host +:+ ":" +:+ pretty port) c
  | None => c
  end.

(** The test of [KickoutIdleClients] on the entry [e]:
    [static_cast<int>(iter->second->GetIdleTime()) >= timeout]. *)
Definition is_idle (now timeout : Z) (h : gmap ptr Connection) (e : Z * ptr) : bool :=
  match h !! e.2 with
  | Some c => bool_decide (static_cast_int (now - last_interaction_ c) >= timeout)
  | None => false
  end.

(** The counters follow the tables: the client counter moves as the number
    of entries of the two tables does, and the lead of the monitor counter
    over the size of the monitor table does not shrink. *)
Definition accounted (s s' : State) : Prop :=
  connected_clients_ (svr_ s') - Z.of_nat (length (tabled s')) =
    connected_clients_ (svr_ s) - Z.of_nat (length (tabled s)) ∧
  monitor_clients_ (svr_ s) - Z.of_nat (length (monitor_conns_ s)) ≤
    monitor_clients_ (svr_ s') - Z.of_nat (length (monitor_conns_ s')).

(** ** Runs as the code permits them

    What the Worker can rely on whatever its peers send: [accept] returns a
    descriptor that no entry of the monitor table holds, [new] returns an
    address that is not in use, and the dispatcher calls
    [BecomeMonitorConn] and [FeedMonitorConns] for a Connection that
    exists, be it in a table or not. *)
Definition callable (o : Op) (s : State) : Prop :=
  match o with
  | OpNewConnection _ p fd _ _ =>
      heap s !! p = None ∧ fd ∉ StdMap.keys (monitor_conns_ s)
  | OpBecomeMonitorConn conn => is_Some (heap s !! conn)
  | OpFeedMonitorConns _ _ conn _ => is_Some (heap s !! conn)
  | _ => True
  end.

Inductive runs : State → list Op → State → Prop :=
| runs_nil s : runs s [] s
| runs_cons s o s1 ops s2 :
    callable o s → step o s = Some (tt, s1) → runs s1 ops s2 →
    runs s (o :: ops) s2.

(** Every entry of the normal table points to a Connection whose id has
    been set. *)
Definition normal_assigned (s : State) : Prop :=
  ∀ fd p c, (fd, p) ∈ conns_ s → heap s !! p = Some c → id_assigned c = true.

(** What every call keeps: the tables stay well formed, the entries of the
    normal table keep their ids, and the counters follow the tables. *)
Definition carries (s s' : State) : Prop :=
  WF s' ∧ (normal_assigned s → normal_assigned s') ∧ accounted s s'.

(** The call [o] in state [s] adds a table entry that the client counter
    does not count: [BecomeMonitorConn] on a Connection whose descriptor is
    a key of neither table. *)
Definition uncounted_entry (o : Op) (s : State) : bool :=
  match o with
  | OpBecomeMonitorConn conn =>
      match heap s !! conn with
      | Some c => bool_decide (fd_ c ∉ StdMap.keys (tabled s))
      | None => false
      end
  | _ => false
  end.

(** The number of such calls in the run of [ops] from [s]. *)
Fixpoint uncounted (s : State) (ops : list Op) : nat :=
  match ops with
  | [] => 0
  | o :: ops' =>
      (if uncounted_entry o s then 1 else 0) +
      match step o s with
      | Some (_, s1) => uncounted s1 ops'
      | None => 0
      end
  end.

(** ** main.cc: the command line *)

Record Options := mkOptions {
  conf_file : string;
  pid_file : string;
  show_usage : bool
}.

Definition kDefaultConfPath : string := "../kvrocks.conf".
Definition kDefaultPidPath : string := "/var/run/kvrocks.pid".

(** How [parseCommandLineOptions] ends: it returns the options, [-v] calls
    [exit(0)], or [usage] prints the help and calls [exit(0)]. *)
Inductive Parsed :=
| Returns (opts : Options)
| ExitVersion
| ExitUsage.

(** The [while] loop over what [getopt(argc, argv, "c:p:hv")] returns, one
    pair (option character, [optarg]) per call, until it returns -1. *)
Fixpoint parse_loop (opts : Options) (got : list (Ascii.ascii * string)) : Parsed :=
  match got with
  | [] => Returns opts
  | (ch, optarg) :: rest =>
      if Ascii.eqb ch "c"%char then parse_loop (mkOptions optarg (pid_file opts) (show_usage opts)) rest
      else if Ascii.eqb ch "p"%char then
        parse_loop (mkOptions (conf_file opts) optarg (show_usage opts)) rest
      else if Ascii.eqb ch "h"%char then
        parse_loop (mkOptions (conf_file opts) (pid_file opts) true) rest
      else if Ascii.eqb ch "v"%char then ExitVersion
      else ExitUsage
  end.

Definition parseCommandLineOptions (got : list (Ascii.ascii * string)) : Parsed :=
  parse_loop (mkOptions kDefaultConfPath kDefaultPidPath false) got.

(** The option characters after which the loop goes on. *)
Definition keeps_parsing (ch : Ascii.ascii) : bool :=
  Ascii.eqb ch "c"%char || Ascii.eqb ch "p"%char || Ascii.eqb ch "h"%char.

(** The argument of the last option [ch] in [got], [dflt] when there is
    none. *)
Definition last_arg (ch : Ascii.ascii) (dflt : string) (got : list (Ascii.ascii * string)) : string :=
  foldl (λ acc o, if Ascii.eqb o.1 ch then o.2 else acc) dflt got.

(** * Facts about the ordered map *)

Section StdMapFacts.
Import StdMap.
Implicit Types (m : StdMap.t) (k : Z) (v p : ptr).

Lemma find_Some_elem m k p : find m k = Some p → (k, p) ∈ m.
Proof.
  induction m as [|[k' v'] m IH]; simpl; [done|].
  destruct (Z.eqb_spec k k') as [->|Hne]; intros H.
  - simplify_eq. left.
  - right. auto.
Qed.

Lemma find_None_keys m k : find m k = None ↔ k ∉ keys m.
Proof.
  unfold keys. induction m as [|[k' v'] m IH]; simpl.
  - split; [intros _; apply not_elem_of_nil | done].
  - rewrite not_elem_of_cons. destruct (Z.eqb_spec k k') as [->|Hne].
    + split; [done | intros [? _]; done].
    + rewrite IH. tauto.
Qed.

Lemma elem_keys m k p : (k, p) ∈ m → k ∈ keys m.
Proof. intros H. unfold keys. apply list_elem_of_fmap. by exists (k, p). Qed.

Lemma elem_ptrs m k p : (k, p) ∈ m → p ∈ ptrs m.
Proof. intros H. unfold ptrs. apply list_elem_of_fmap. by exists (k, p). Qed.

Lemma ptrs_elem m p : p ∈ ptrs m → ∃ k, (k, p) ∈ m.
Proof.
  unfold ptrs. intros ([k p'] & -> & H)%list_elem_of_fmap. by exists k.
Qed.

Lemma keys_elem m k : k ∈ keys m → ∃ p, (k, p) ∈ m.
Proof.
  unfold keys. intros ([k' p] & -> & H)%list_elem_of_fmap. by exists p.
Qed.

Lemma elem_find m k p : NoDup (keys m) → (k, p) ∈ m → find m k = Some p.
Proof.
  unfold keys. induction m as [|[k' v'] m IH]; simpl.
  - intros _ H. by apply elem_of_nil in H.
  - intros [Hnotin Hnd]%NoDup_cons [Heq|Hin]%elem_of_cons.
    + simplify_eq. by rewrite Z.eqb_refl.
    + destruct (Z.eqb_spec k k') as [->|Hne]; [|auto].
      exfalso. apply Hnotin. by apply (elem_keys m k' p).
Qed.

Lemma find_Some_keys m k p : find m k = Some p → k ∈ keys m.
Proof. intros H. eapply elem_keys, find_Some_elem, H. Qed.

Lemma elem_erase k m e : e ∈ erase k m ↔ e ∈ m ∧ e.1 ≠ k.
Proof.
  induction m as [|[k' v'] m IH]; simpl.
  - split; [intros H; by apply elem_of_nil in H | intros [H _]; by apply elem_of_nil in H].
  - destruct (Z.eqb_spec k k') as [->|Hne].
    + rewrite IH, elem_of_cons. split; [tauto|].
      intros [[->|?] ?]; [done | tauto].
    + rewrite !elem_of_cons, IH. split; [|tauto].
      intros [->|[? ?]]; [|tauto]. split; [by left | simpl; congruence].
Qed.

Lemma erase_sublist k m : erase k m `sublist_of` m.
Proof.
  induction m as [|[k' v'] m IH]; simpl; [done|].
  destruct (Z.eqb_spec k k'); by constructor.
Qed.

Lemma erase_absent k m : find m k = None → erase k m = m.
Proof.
  induction m as [|[k' v'] m IH]; simpl; [done|].
  destruct (Z.eqb_spec k k'); [done|]. intros H. f_equal. auto.
Qed.

Lemma find_erase k m : find (erase k m) k = None.
Proof.
  apply find_None_keys. intros [p H]%keys_elem.
  apply elem_erase in H as [_ H]. done.
Qed.

Lemma length_erase k m p :
  NoDup (keys m) → find m k = Some p → length m = S (length (erase k m)).
Proof.
  unfold keys. induction m as [|[k' v'] m IH]; simpl; [done|].
  intros [Hnotin Hnd]%NoDup_cons. destruct (Z.eqb_spec k k') as [->|Hne].
  - intros _. rewrite erase_absent; [done|]. by apply find_None_keys.
  - intros H. simpl. f_equal. auto.
Qed.

Lemma sorted_NoDup m : sorted m → NoDup (keys m).
Proof.
  unfold sorted. induction 1 as [|k l Hs IH Hall]; constructor; [|done].
  intros Hin. rewrite Forall_forall in Hall. specialize (Hall _ Hin). lia.
Qed.

Lemma sorted_sublist m m' : m' `sublist_of` m → sorted m → sorted m'.
Proof.
  unfold sorted, keys. intros Hsub Hs.
  assert (Hk : m'.*1 `sublist_of` m.*1) by by apply fmap_sublist.
  revert Hk Hs. generalize (m'.*1) (m.*1). clear.
  intros l' l Hsub. induction Hsub as [|x l1 l2 Hsub IH|x l1 l2 Hsub IH];
    intros Hs; [done| |].
  - apply StronglySorted_cons in Hs as [Hall Hs]. constructor; [auto|].
    rewrite Forall_forall in Hall |- *. intros y Hy.
    apply Hall. by eapply elem_of_sublist.
  - apply StronglySorted_cons in Hs as [Hall Hs]. auto.
Qed.

Lemma sorted_erase k m : sorted m → sorted (erase k m).
Proof. apply sorted_sublist, erase_sublist. Qed.

Lemma elem_insert k v m e :
  find m k = None → e ∈ insert k v m ↔ e = (k, v) ∨ e ∈ m.
Proof.
  induction m as [|[k' v'] m IH]; simpl.
  - intros _. rewrite list_elem_of_singleton. split; [tauto|].
    intros [?|H]; [done | by apply elem_of_nil in H].
  - destruct (Z.eqb_spec k k') as [->|Hne]; [done|]. intros Hf.
    destruct (Z.ltb_spec k k').
    + by rewrite elem_of_cons.
    + rewrite !elem_of_cons, IH by done. tauto.
Qed.

Lemma length_insert_absent k v m :
  find m k = None → length (insert k v m) = S (length m).
Proof.
  induction m as [|[k' v'] m IH]; simpl; [done|].
  destruct (Z.eqb_spec k k') as [->|Hne]; [done|]. intros Hf.
  destruct (Z.ltb_spec k k'); simpl; [done|]. f_equal. auto.
Qed.

Lemma keys_insert_elem k v m x : x ∈ keys (insert k v m) → x = k ∨ x ∈ keys m.
Proof.
  unfold keys. induction m as [|[k' v'] m IH]; simpl.
  - rewrite list_elem_of_singleton. tauto.
  - destruct (Z.ltb_spec k k'); [|destruct (Z.eqb_spec k k')]; simpl;
      rewrite ?elem_of_cons; [tauto | tauto |].
    intros [?|?]; [tauto|]. destruct IH; tauto.
Qed.

Lemma sorted_insert k v m : sorted m → sorted (insert k v m).
Proof.
  unfold sorted. induction m as [|[k' v'] m IH]; simpl.
  - intros _. repeat constructor.
  - intros Hs. destruct (Z.ltb_spec k k') as [Hlt|Hge].
    + change (StronglySorted Z.lt (k :: keys ((k', v') :: m))).
      constructor; [done|]. simpl.
      apply StronglySorted_cons in Hs as [Hall Hs].
      constructor; [done|]. eapply Forall_impl; [exact Hall|].
      simpl. intros; lia.
    + destruct (Z.eqb_spec k k') as [->|Hne]; [done|].
      apply StronglySorted_cons in Hs as [Hall Hs].
      change (StronglySorted Z.lt (k' :: keys (insert k v m))).
      constructor; [by apply IH|].
      rewrite Forall_forall in Hall |- *. intros x [->|Hx]%keys_insert_elem.
      * lia.
      * by apply Hall.
Qed.

Lemma elem_assign k v m e :
  sorted m → e ∈ assign k v m ↔ e = (k, v) ∨ (e ∈ m ∧ e.1 ≠ k).
Proof.
  unfold sorted. induction m as [|[k' v'] m IH]; simpl.
  - intros _. rewrite list_elem_of_singleton. split; [tauto|].
    intros [?|[H _]]; [done | by apply elem_of_nil in H].
  - intros [Hall Hs]%StronglySorted_cons.
    destruct (Z.ltb_spec k k') as [Hlt|Hge].
    + rewrite !elem_of_cons. split; [|tauto].
      intros [?|[->|Hin]]; [tauto| right; split; [tauto | simpl; lia] |].
      right. split; [tauto|]. rewrite Forall_forall in Hall.
      destruct e as [ke pe]. apply elem_keys in Hin.
      specialize (Hall _ Hin). simpl. lia.
    + destruct (Z.eqb_spec k k') as [->|Hne].
      * rewrite !elem_of_cons. split.
        -- intros [?|Hin]; [tauto|]. right. split; [tauto|].
           rewrite Forall_forall in Hall.
           destruct e as [ke pe]. apply elem_keys in Hin.
           specialize (Hall _ Hin). simpl. lia.
        -- intros [?|[[->|?] ?]]; [tauto | done | tauto].
      * rewrite !elem_of_cons, IH by done. split; [|tauto].
        intros [->|[?|[? ?]]]; [|tauto|tauto].
        right. split; [by left | simpl; congruence].
Qed.

Lemma keys_assign_elem k v m x : x ∈ keys (assign k v m) → x = k ∨ x ∈ keys m.
Proof.
  unfold keys. induction m as [|[k' v'] m IH]; simpl.
  - rewrite list_elem_of_singleton. tauto.
  - destruct (Z.ltb_spec k k'); [|destruct (Z.eqb_spec k k')]; simpl;
      rewrite ?elem_of_cons; [tauto | tauto |].
    intros [?|?]; [tauto|]. destruct IH; tauto.
Qed.

Lemma sorted_assign k v m : sorted m → sorted (assign k v m).
Proof.
  unfold sorted. induction m as [|[k' v'] m IH]; simpl.
  - intros _. repeat constructor.
  - intros Hs. destruct (Z.ltb_spec k k') as [Hlt|Hge].
    + change (StronglySorted Z.lt (k :: keys ((k', v') :: m))).
      constructor; [done|]. simpl.
      apply StronglySorted_cons in Hs as [Hall Hs].
      constructor; [done|]. eapply Forall_impl; [exact Hall|].
      simpl. intros; lia.
    + apply StronglySorted_cons in Hs as [Hall Hs].
      destruct (Z.eqb_spec k k') as [->|Hne].
      * change (StronglySorted Z.lt (k' :: keys m)). by constructor.
      * change (StronglySorted Z.lt (k' :: keys (assign k v m))).
        constructor; [by apply IH|].
        rewrite Forall_forall in Hall |- *. intros x [->|Hx]%keys_assign_elem.
        -- lia.
        -- by apply Hall.
Qed.

Lemma length_assign k v m :
  sorted m →
  length (assign k v m) = (if find m k is Some _ then length m else S (length m)).
Proof.
  unfold sorted. induction m as [|[k' v'] m IH]; simpl; [done|].
  intros [Hall Hs]%StronglySorted_cons.
  destruct (Z.ltb_spec k k') as [Hlt|Hge].
  - destruct (Z.eqb_spec k k'); [lia|]. simpl.
    replace (find m k) with (@None ptr); [done|].
    symmetry. apply find_None_keys. intros Hin.
    rewrite Forall_forall in Hall. specialize (Hall _ Hin). lia.
  - destruct (Z.eqb_spec k k') as [->|Hne]; [done|].
    simpl. rewrite IH by done. by destruct (find m k).
Qed.

End StdMapFacts.

(** * Running the monad *)

Local Arguments Z.pow : simpl never.
Local Arguments Z.modulo : simpl never.
Local Arguments Z.of_nat : simpl never.
Local Arguments Z.lor : simpl never.
Local Arguments static_cast_int : simpl never.
Local Arguments pretty : simpl never.

Ltac mrun :=
  unfold mbind, M_bind, mret, M_ret, gets, modify, undefined; simpl.

Lemma bind_Some {A B} (m : M A) (f : A → M B) s a s1 :
  m s = Some (a, s1) → (m ≫= f) s = f a s1.
Proof. intros H. mrun. by rewrite H. Qed.

Lemma deref_Some p c s : heap s !! p = Some c → deref p s = Some (c, s).
Proof. intros H. unfold deref. by rewrite H. Qed.

Lemma update_Some p f c s :
  heap s !! p = Some c → update p f s = Some (tt, set_heap (<[p := f c]> (heap s)) s).
Proof. intros H. unfold update. by rewrite (bind_Some _ _ _ _ _ (deref_Some _ _ _ H)). Qed.

(** * The invariants and the relations between states *)

Lemma tabled_elem s e : e ∈ tabled s ↔ e ∈ conns_ s ∨ e ∈ monitor_conns_ s.
Proof. unfold tabled. apply elem_of_app. Qed.

Lemma tabled_keys s : StdMap.keys (tabled s) = StdMap.keys (conns_ s) ++ StdMap.keys (monitor_conns_ s).
Proof. unfold tabled, StdMap.keys. apply fmap_app. Qed.

Lemma tabled_ptrs s p :
  p ∈ StdMap.ptrs (tabled s) ↔ p ∈ StdMap.ptrs (conns_ s) ∨ p ∈ StdMap.ptrs (monitor_conns_ s).
Proof. unfold tabled, StdMap.ptrs. rewrite fmap_app. apply elem_of_app. Qed.

Lemma tabled_length s :
  length (tabled s) = (length (conns_ s) + length (monitor_conns_ s))%nat.
Proof. unfold tabled. apply length_app. Qed.

Lemma WF_keys_disjoint s k :
  WF s → k ∈ StdMap.keys (conns_ s) → k ∈ StdMap.keys (monitor_conns_ s) → False.
Proof.
  intros Hwf H1 H2. pose proof (wf_keys _ Hwf) as Hnd.
  rewrite tabled_keys in Hnd. apply NoDup_app in Hnd as (_ & Hd & _).
  by apply (Hd k).
Qed.

Lemma WF_find_live s fd p :
  WF s → StdMap.find (conns_ s) fd = Some p ∨ StdMap.find (monitor_conns_ s) fd = Some p →
  ∃ c, heap s !! p = Some c ∧ fd_ c = fd.
Proof.
  intros Hwf H. apply (wf_live _ Hwf). apply tabled_elem.
  destruct H as [H|H]; [left | right]; by apply find_Some_elem.
Qed.

Lemma WF_ptr_key s fd1 fd2 p :
  WF s → (fd1, p) ∈ tabled s → (fd2, p) ∈ tabled s → fd1 = fd2.
Proof.
  intros Hwf H1 H2.
  destruct (wf_live _ Hwf _ _ H1) as (c1 & Hc1 & <-).
  destruct (wf_live _ Hwf _ _ H2) as (c2 & Hc2 & <-).
  congruence.
Qed.

Lemma exactly_one_tabled s p :
  WF s → p ∈ StdMap.ptrs (tabled s) → exactly_one s p.
Proof.
  intros Hwf Hp. unfold exactly_one, in_normal, in_monitor, destroyed.
  assert (Hlive : heap s !! p ≠ None).
  { apply ptrs_elem in Hp as [fd Hin].
    destruct (wf_live _ Hwf _ _ Hin) as (c & -> & _). done. }
  assert (Hexcl : p ∈ StdMap.ptrs (conns_ s) → p ∈ StdMap.ptrs (monitor_conns_ s) → False).
  { intros [fd1 H1]%ptrs_elem [fd2 H2]%ptrs_elem.
    assert (fd1 = fd2) as <-.
    { eapply (WF_ptr_key s); [done | | ]; apply tabled_elem; [left | right]; done. }
    eapply (WF_keys_disjoint s fd1); [done | |]; by eapply elem_keys. }
  apply tabled_ptrs in Hp as [Hp|Hp]; [left | right; left]; tauto.
Qed.

Lemma exactly_one_destroyed s p :
  WF s → heap s !! p = None → exactly_one s p.
Proof.
  intros Hwf Hp. unfold exactly_one, in_normal, in_monitor, destroyed.
  assert (Hnt : p ∉ StdMap.ptrs (tabled s)).
  { intros [fd Hin]%ptrs_elem.
    destruct (wf_live _ Hwf _ _ Hin) as (c & Hc & _). congruence. }
  rewrite tabled_ptrs in Hnt. right; right. tauto.
Qed.

Lemma stable_refl c : stable c c.
Proof. by unfold stable. Qed.

Lemma stable_trans c1 c2 c3 : stable c1 c2 → stable c2 c3 → stable c1 c3.
Proof. unfold stable. intros (?&?&?) (?&?&?). repeat split; congruence. Qed.

Lemma evolves_refl s : evolves s s.
Proof. split; try done. intros fd p c _ H. exists c. split; [done | apply stable_refl]. Qed.

Lemma evolves_trans s1 s2 s3 : evolves s1 s2 → evolves s2 s3 → evolves s1 s3.
Proof.
  intros [Ha1 Hb1 Hc1 Hd1 He1] [Ha2 Hb2 Hc2 Hd2 He2]. split; try congruence.
  - auto.
  - intros fd p c Hin Hc.
    destruct (He1 fd p c (Hd2 _ Hin) Hc) as (c' & Hc' & Hst1).
    destruct (He2 fd p c' Hin Hc') as (c'' & Hc'' & Hst2).
    exists c''. split; [done|]. by eapply stable_trans.
Qed.

Lemma Inv_evolves s s' :
  Inv s → evolves s s' → WF s' →
  Z.of_nat (length (tabled s')) ≤ connected_clients_ (svr_ s') ≤ maxclients (svr_ s') →
  Inv s'.
Proof.
  intros [Hwf Has Hcap] Hev Hwf' Hcap'. split; [done| |done].
  intros fd p c' Hin Hc'.
  pose proof (ev_tabled _ _ Hev _ Hin) as Hin0.
  destruct (wf_live _ Hwf _ _ Hin0) as (c & Hc & _).
  destruct (ev_stable _ _ Hev fd p c Hin Hc) as (c'' & Hc'' & (_ & _ & Hst)).
  assert (c'' = c') as -> by congruence.
  rewrite Hst. by eapply Has.
Qed.

Lemma InvIds_evolves s s' :
  WF s → InvIds s → evolves s s' → InvIds s'.
Proof.
  intros Hwf [Hc Hinc Hbel Htb Hdis] Hev.
  assert (Hback : ∀ fd p c', (fd, p) ∈ tabled s' → heap s' !! p = Some c' →
            ∃ c, (fd, p) ∈ tabled s ∧ heap s !! p = Some c ∧ id_ c' = id_ c).
  { intros fd p c' Hin Hc'.
    pose proof (ev_tabled _ _ Hev _ Hin) as Hin0.
    destruct (wf_live _ Hwf _ _ Hin0) as (c & Hc0 & _).
    destruct (ev_stable _ _ Hev fd p c Hin Hc0) as (c'' & Hc'' & (_ & Hid & _)).
    exists c. repeat split; [done..|]. congruence. }
  split.
  - by rewrite (ev_client_id _ _ Hev).
  - by rewrite (ev_set_ids _ _ Hev).
  - by rewrite (ev_set_ids _ _ Hev), (ev_client_id _ _ Hev).
  - intros fd p c' Hin Hc'. rewrite (ev_client_id _ _ Hev).
    destruct (Hback _ _ _ Hin Hc') as (c & ? & ? & ->). eauto.
  - intros fd1 p1 c1 fd2 p2 c2 Hin1 Hin2 Hc1 Hc2 Heq.
    destruct (Hback _ _ _ Hin1 Hc1) as (d1 & ? & ? & Hi1).
    destruct (Hback _ _ _ Hin2 Hc2) as (d2 & ? & ? & Hi2).
    eapply (Hdis fd1 p1 d1 fd2 p2 d2); [done..|]. congruence.
Qed.

Lemma set_ids_app tr1 tr2 : set_ids (tr1 ++ tr2) = set_ids tr1 ++ set_ids tr2.
Proof. unfold set_ids. apply omap_app. Qed.

Lemma mutates_refl s : mutates s s.
Proof. split; try done. intros p. destruct (heap s !! p); [apply stable_refl | done]. Qed.

Lemma mutates_trans s1 s2 s3 : mutates s1 s2 → mutates s2 s3 → mutates s1 s3.
Proof.
  intros [Ha1 Hb1 Hc1 Hd1 He1] [Ha2 Hb2 Hc2 Hd2 He2]. split; try congruence.
  intros p. specialize (He1 p). specialize (He2 p).
  destruct (heap s1 !! p), (heap s2 !! p), (heap s3 !! p); try done.
  by eapply stable_trans.
Qed.

Lemma mutates_update s p c c' :
  heap s !! p = Some c → stable c c' →
  mutates s (set_heap (<[p := c']> (heap s)) s).
Proof.
  intros Hc Hst. split; try done. intros q. simpl.
  destruct (decide (p = q)) as [<-|Hne].
  - by rewrite lookup_insert_eq, Hc.
  - rewrite lookup_insert_ne by done.
    destruct (heap s !! q); [apply stable_refl | done].
Qed.

Lemma mutates_trace s tr :
  set_ids tr = set_ids (trace s) → mutates s (set_trace tr s).
Proof.
  intros H. split; try done. intros p. simpl.
  destruct (heap s !! p); [apply stable_refl | done].
Qed.

Lemma mutates_cursor s fd : mutates s (set_last_iter_conn_fd fd s).
Proof.
  split; try done. intros p. simpl.
  destruct (heap s !! p); [apply stable_refl | done].
Qed.

Lemma mutates_tabled s s' : mutates s s' → tabled s' = tabled s.
Proof. intros [_ H1 H2 _ _]. unfold tabled. by rewrite H1, H2. Qed.

Lemma mutates_evolves s s' : mutates s s' → evolves s s'.
Proof.
  intros Hm. pose proof (mutates_tabled _ _ Hm) as Ht.
  destruct Hm as [Ha Hb Hc Hd He]. split; try congruence.
  intros fd p c _ Hc0. specialize (He p). rewrite Hc0 in He.
  destruct (heap s' !! p) as [c'|]; [|done]. by exists c'.
Qed.

Lemma mutates_keeps s s' : mutates s s' → keeps s s'.
Proof.
  intros Hm. pose proof (mutates_tabled _ _ Hm) as Ht.
  destruct Hm as [Ha Hb Hc Hd He]. split.
  - intros fd p Hin. left. by rewrite Ht.
  - intros p Hp. specialize (He p). rewrite Hp in He.
    by destruct (heap s' !! p).
Qed.

Lemma mutates_WF s s' : WF s → mutates s s' → WF s'.
Proof.
  intros [H1 H2 H3 H4] Hm. pose proof (mutates_tabled _ _ Hm) as Ht.
  destruct Hm as [Ha Hb Hc Hd He]. split; try congruence.
  intros fd p Hin. rewrite Ht in Hin.
  destruct (H4 fd p Hin) as (c & Hc0 & Hfd).
  specialize (He p). rewrite Hc0 in He.
  destruct (heap s' !! p) as [c'|]; [|done].
  exists c'. split; [done|]. destruct He as (-> & _). done.
Qed.

Lemma mutates_Inv s s' : Inv s → mutates s s' → Inv s'.
Proof.
  intros HI Hm. eapply Inv_evolves; [done | by apply mutates_evolves | |].
  - eapply mutates_WF; [apply HI | done].
  - rewrite (mutates_tabled _ _ Hm), (mu_svr _ _ Hm). apply HI.
Qed.

Lemma keeps_trans s1 s2 s3 : keeps s1 s2 → keeps s2 s3 → keeps s1 s3.
Proof.
  intros [Ha1 Hb1] [Ha2 Hb2]. split; [|auto].
  intros fd p Hin. destruct (Ha1 fd p Hin) as [H|H]; auto.
Qed.

(** ** Removal of an entry *)

Lemma key_unique s k p q :
  WF s → (k, p) ∈ tabled s → (k, q) ∈ tabled s → p = q.
Proof.
  intros Hwf Hp Hq. pose proof (wf_keys _ Hwf) as Hnd.
  apply (elem_find _ _ _ Hnd) in Hp, Hq. congruence.
Qed.

Lemma sublist_keys_NoDup (m m' : StdMap.t) :
  m' `sublist_of` m → NoDup (StdMap.keys m) → NoDup (StdMap.keys m').
Proof.
  intros Hsub Hnd.
  apply (sublist_NoDup (StdMap.keys m') (StdMap.keys m)); [done|].
  unfold StdMap.keys. by apply fmap_sublist.
Qed.

Lemma erased_normal_ok s fd p c :
  Inv s → StdMap.find (conns_ s) fd = Some p → heap s !! p = Some c →
  Inv (erased_normal fd p c s) ∧ evolves s (erased_normal fd p c s) ∧
  keeps s (erased_normal fd p c s).
Proof.
  intros HI Hf Hc. pose proof (inv_wf _ HI) as Hwf.
  pose proof (find_Some_elem _ _ _ Hf) as Hin.
  assert (Hsub : tabled (erased_normal fd p c s) `sublist_of` tabled s).
  { unfold tabled. simpl. apply sublist_app; [apply erase_sublist | done]. }
  assert (Hgone : ∀ fd' q, (fd', q) ∈ tabled (erased_normal fd p c s) → q ≠ p).
  { intros fd' q Hq ->.
    assert (fd' = fd) as ->.
    { eapply (WF_ptr_key s); [done | by eapply elem_of_sublist |].
      apply tabled_elem. by left. }
    apply tabled_elem in Hq as [Hq|Hq]; simpl in Hq.
    - apply elem_erase in Hq as [_ Hq]. done.
    - eapply (WF_keys_disjoint s fd); [done | by eapply elem_keys..]. }
  assert (Hev : evolves s (erased_normal fd p c s)).
  { split; simpl; try done.
    - rewrite set_ids_app. simpl. by rewrite app_nil_r.
    - intros e He. by eapply elem_of_sublist.
    - intros fd' q c' Hq Hc'. exists c'. split; [|apply stable_refl].
      rewrite lookup_delete_ne; [done|]. intros <-. by eapply Hgone. }
  assert (Hwf' : WF (erased_normal fd p c s)).
  { split; simpl.
    - apply sorted_erase, Hwf.
    - apply Hwf.
    - eapply sublist_keys_NoDup; [exact Hsub | apply Hwf].
    - intros fd' q Hq.
      destruct (wf_live _ Hwf fd' q) as (c' & Hc' & Hfd); [by eapply elem_of_sublist|].
      exists c'. split; [|done]. rewrite lookup_delete_ne; [done|].
      intros <-. by eapply Hgone. }
  split; [|split; [done|]].
  - eapply Inv_evolves; [done..|].
    pose proof (inv_cap _ HI) as Hcap. rewrite tabled_length in Hcap |- *. simpl.
    rewrite (length_erase fd (conns_ s) p) in Hcap;
      [lia | apply sorted_NoDup, Hwf | done].
  - split; simpl.
    + intros fd' q Hq. destruct (decide (q = p)) as [->|Hne].
      * right. apply lookup_delete_eq.
      * left. apply tabled_elem in Hq as [Hq|Hq]; apply tabled_elem; simpl; [left | by right].
        apply elem_erase. split; [done|]. simpl. intros ->.
        apply Hne. eapply (key_unique s fd); [done | |]; apply tabled_elem; by left.
    + intros q Hq. by rewrite lookup_delete_None; right.
Qed.

Lemma erased_monitor_ok s fd p c :
  Inv s → StdMap.find (monitor_conns_ s) fd = Some p → heap s !! p = Some c →
  Inv (erased_monitor fd p c s) ∧ evolves s (erased_monitor fd p c s) ∧
  keeps s (erased_monitor fd p c s).
Proof.
  intros HI Hf Hc. pose proof (inv_wf _ HI) as Hwf.
  pose proof (find_Some_elem _ _ _ Hf) as Hin.
  assert (Hsub : tabled (erased_monitor fd p c s) `sublist_of` tabled s).
  { unfold tabled. simpl. apply sublist_app; [done | apply erase_sublist]. }
  assert (Hgone : ∀ fd' q, (fd', q) ∈ tabled (erased_monitor fd p c s) → q ≠ p).
  { intros fd' q Hq ->.
    assert (fd' = fd) as ->.
    { eapply (WF_ptr_key s); [done | by eapply elem_of_sublist |].
      apply tabled_elem. by right. }
    apply tabled_elem in Hq as [Hq|Hq]; simpl in Hq.
    - eapply (WF_keys_disjoint s fd); [done | by eapply elem_keys..].
    - apply elem_erase in Hq as [_ Hq]. done. }
  assert (Hev : evolves s (erased_monitor fd p c s)).
  { split; simpl; try done.
    - rewrite set_ids_app. simpl. by rewrite app_nil_r.
    - intros e He. by eapply elem_of_sublist.
    - intros fd' q c' Hq Hc'. exists c'. split; [|apply stable_refl].
      rewrite lookup_delete_ne; [done|]. intros <-. by eapply Hgone. }
  assert (Hwf' : WF (erased_monitor fd p c s)).
  { split; simpl.
    - apply Hwf.
    - apply sorted_erase, Hwf.
    - eapply sublist_keys_NoDup; [exact Hsub | apply Hwf].
    - intros fd' q Hq.
      destruct (wf_live _ Hwf fd' q) as (c' & Hc' & Hfd); [by eapply elem_of_sublist|].
      exists c'. split; [|done]. rewrite lookup_delete_ne; [done|].
      intros <-. by eapply Hgone. }
  split; [|split; [done|]].
  - eapply Inv_evolves; [done..|].
    pose proof (inv_cap _ HI) as Hcap. rewrite tabled_length in Hcap |- *. simpl.
    rewrite (length_erase fd (monitor_conns_ s) p) in Hcap;
      [lia | apply sorted_NoDup, Hwf | done].
  - split; simpl.
    + intros fd' q Hq. destruct (decide (q = p)) as [->|Hne].
      * right. apply lookup_delete_eq.
      * left. apply tabled_elem in Hq as [Hq|Hq]; apply tabled_elem; simpl; [by left | right].
        apply elem_erase. split; [done|]. simpl. intros ->.
        apply Hne. eapply (key_unique s fd); [done | |]; apply tabled_elem; by right.
    + intros q Hq. by rewrite lookup_delete_None; right.
Qed.

Lemma WF_find_exclusive s fd p :
  WF s →
  (StdMap.find (conns_ s) fd = Some p → StdMap.find (monitor_conns_ s) fd = None) ∧
  (StdMap.find (monitor_conns_ s) fd = Some p → StdMap.find (conns_ s) fd = None).
Proof.
  intros Hwf. split; intros H; apply find_None_keys; intros Hk;
    eapply (WF_keys_disjoint s fd); eauto using find_Some_keys.
Qed.

Lemma RemoveConnection_normal s fd p c :
  StdMap.find (conns_ s) fd = Some p → heap s !! p = Some c →
  StdMap.find (monitor_conns_ s) fd = None →
  RemoveConnection fd s = Some (tt, erased_normal fd p c s).
Proof.
  intros Hf Hc Hm. unfold RemoveConnection, delete_conn, DecrClientNum, deref.
  mrun. rewrite Hf. simpl. rewrite Hc. simpl. by rewrite Hm.
Qed.

Lemma RemoveConnection_monitor s fd p c :
  StdMap.find (conns_ s) fd = None → StdMap.find (monitor_conns_ s) fd = Some p →
  heap s !! p = Some c →
  RemoveConnection fd s = Some (tt, erased_monitor fd p c s).
Proof.
  intros Hf Hm Hc.
  unfold RemoveConnection, delete_conn, DecrClientNum, DecrMonitorClientNum, deref.
  mrun. rewrite Hf. simpl. rewrite Hm. simpl. by rewrite Hc.
Qed.

Lemma RemoveConnection_absent s fd :
  StdMap.find (conns_ s) fd = None → StdMap.find (monitor_conns_ s) fd = None →
  RemoveConnection fd s = Some (tt, s).
Proof.
  intros Hf Hm. unfold RemoveConnection. mrun. rewrite Hf. simpl. by rewrite Hm.
Qed.

Lemma RemoveConnectionByID_normal s fd id p c :
  StdMap.find (conns_ s) fd = Some p → heap s !! p = Some c →
  StdMap.find (monitor_conns_ s) fd = None →
  RemoveConnectionByID fd id s =
    Some (tt, if bool_decide (id_ c = id) then erased_normal fd p c s else s).
Proof.
  intros Hf Hc Hm.
  unfold RemoveConnectionByID, GetID, delete_conn, DecrClientNum, deref.
  mrun. rewrite Hf. simpl. rewrite Hc. simpl.
  case_bool_decide; simpl; [rewrite Hc; simpl|]; by rewrite Hm.
Qed.

Lemma RemoveConnectionByID_monitor s fd id p c :
  StdMap.find (conns_ s) fd = None → StdMap.find (monitor_conns_ s) fd = Some p →
  heap s !! p = Some c →
  RemoveConnectionByID fd id s =
    Some (tt, if bool_decide (id_ c = id) then erased_monitor fd p c s else s).
Proof.
  intros Hf Hm Hc.
  unfold RemoveConnectionByID, GetID, delete_conn, DecrClientNum,
    DecrMonitorClientNum, deref.
  mrun. rewrite Hf. simpl. rewrite Hm. simpl. rewrite Hc. simpl.
  case_bool_decide; simpl; [by rewrite Hc|done].
Qed.

Lemma RemoveConnectionByID_absent s fd id :
  StdMap.find (conns_ s) fd = None → StdMap.find (monitor_conns_ s) fd = None →
  RemoveConnectionByID fd id s = Some (tt, s).
Proof.
  intros Hf Hm. unfold RemoveConnectionByID. mrun. rewrite Hf. simpl. by rewrite Hm.
Qed.

Lemma settles_refl s : Inv s → settles s s.
Proof.
  intros HI. split; [done|]. split; [apply evolves_refl|].
  apply mutates_keeps, mutates_refl.
Qed.

Lemma settles_trans s1 s2 s3 : settles s1 s2 → settles s2 s3 → settles s1 s3.
Proof.
  intros (_ & He1 & Hk1) (HI & He2 & Hk2). split; [done|].
  split; [by eapply evolves_trans | by eapply keeps_trans].
Qed.

Lemma settles_mutates s s' : Inv s → mutates s s' → settles s s'.
Proof.
  intros HI Hm. split; [by eapply mutates_Inv|].
  split; [by apply mutates_evolves | by apply mutates_keeps].
Qed.

Lemma RemoveConnection_ok s fd :
  Inv s → ∃ s', RemoveConnection fd s = Some (tt, s') ∧ settles s s'.
Proof.
  intros HI. pose proof (inv_wf _ HI) as Hwf.
  destruct (StdMap.find (conns_ s) fd) as [p|] eqn:Hf.
  - destruct (WF_find_live s fd p Hwf) as (c & Hc & _); [by left|].
    exists (erased_normal fd p c s). split.
    + apply RemoveConnection_normal; [done..|]. by eapply WF_find_exclusive.
    + by apply erased_normal_ok.
  - destruct (StdMap.find (monitor_conns_ s) fd) as [p|] eqn:Hm.
    + destruct (WF_find_live s fd p Hwf) as (c & Hc & _); [by right|].
      exists (erased_monitor fd p c s). split.
      * by apply RemoveConnection_monitor.
      * by apply erased_monitor_ok.
    + exists s. split; [by apply RemoveConnection_absent | by apply settles_refl].
Qed.

Lemma RemoveConnectionByID_ok s fd id :
  Inv s → ∃ s', RemoveConnectionByID fd id s = Some (tt, s') ∧ settles s s'.
Proof.
  intros HI. pose proof (inv_wf _ HI) as Hwf.
  destruct (StdMap.find (conns_ s) fd) as [p|] eqn:Hf.
  - destruct (WF_find_live s fd p Hwf) as (c & Hc & _); [by left|].
    eexists. split.
    + apply RemoveConnectionByID_normal; [done..|]. by eapply WF_find_exclusive.
    + case_bool_decide; [by apply erased_normal_ok | by apply settles_refl].
  - destruct (StdMap.find (monitor_conns_ s) fd) as [p|] eqn:Hm.
    + destruct (WF_find_live s fd p Hwf) as (c & Hc & _); [by right|].
      eexists. split.
      * by apply RemoveConnectionByID_monitor.
      * case_bool_decide; [by apply erased_monitor_ok | by apply settles_refl].
    + exists s. split; [by apply RemoveConnectionByID_absent | by apply settles_refl].
Qed.

(** ** Replies and write events *)

Lemma Reply_found s fd reply p c :
  StdMap.find (conns_ s) fd = Some p → heap s !! p = Some c →
  Reply fd reply s =
    Some (Status_OK, set_heap (<[p := set_output (output_ c +:+ reply) c]> (heap s)) s).
Proof.
  intros Hf Hc. unfold Reply, Redis_Reply, update, deref. mrun.
  rewrite Hf. simpl. by rewrite Hc.
Qed.

Lemma Reply_absent s fd reply :
  StdMap.find (conns_ s) fd = None →
  Reply fd reply s = Some (mkStatus NotOK "connection doesn't exist", s).
Proof. intros Hf. unfold Reply. mrun. by rewrite Hf. Qed.

Lemma EnableWriteEvent_found s fd p c :
  StdMap.find (conns_ s) fd = Some p → heap s !! p = Some c →
  EnableWriteEvent fd s =
    Some (Status_OK, set_heap (<[p := set_events (Z.lor (events_ c) EV_WRITE) c]> (heap s)) s).
Proof.
  intros Hf Hc. unfold EnableWriteEvent, bufferevent_enable, update, deref. mrun.
  rewrite Hf. simpl. by rewrite Hc.
Qed.

Lemma EnableWriteEvent_absent s fd :
  StdMap.find (conns_ s) fd = None →
  EnableWriteEvent fd s = Some (mkStatus NotOK "", s).
Proof. intros Hf. unfold EnableWriteEvent. mrun. by rewrite Hf. Qed.

Lemma Reply_ok s fd reply :
  Inv s → ∃ st s', Reply fd reply s = Some (st, s') ∧ mutates s s'.
Proof.
  intros HI. destruct (StdMap.find (conns_ s) fd) as [p|] eqn:Hf.
  - destruct (WF_find_live s fd p (inv_wf _ HI)) as (c & Hc & _); [by left|].
    do 2 eexists. split; [by apply Reply_found|].
    by apply (mutates_update s p c).
  - do 2 eexists. split; [by apply Reply_absent | apply mutates_refl].
Qed.

Lemma EnableWriteEvent_ok s fd :
  Inv s → ∃ st s', EnableWriteEvent fd s = Some (st, s') ∧ mutates s s'.
Proof.
  intros HI. destruct (StdMap.find (conns_ s) fd) as [p|] eqn:Hf.
  - destruct (WF_find_live s fd p (inv_wf _ HI)) as (c & Hc & _); [by left|].
    do 2 eexists. split; [by apply EnableWriteEvent_found|].
    by apply (mutates_update s p c).
  - do 2 eexists. split; [by apply EnableWriteEvent_absent | apply mutates_refl].
Qed.

(** ** Promotion *)

Lemma BecomeMonitorConn_promoted s conn c :
  heap s !! conn = Some c →
  BecomeMonitorConn conn s = Some (tt, promoted conn c s).
Proof.
  intros Hc. unfold BecomeMonitorConn, GetFD, IncrMonitorClientNum, EnableFlag,
    update, deref. mrun. repeat (rewrite Hc; simpl). done.
Qed.

Lemma promoted_tabled s conn c e :
  WF s → (fd_ c, conn) ∈ tabled s →
  e ∈ tabled (promoted conn c s) ↔ e ∈ tabled s.
Proof.
  intros Hwf Hin. rewrite !tabled_elem. simpl.
  rewrite elem_erase, elem_assign by apply Hwf.
  split.
  - intros [[? _]|[->|[? _]]]; [tauto | by apply tabled_elem | tauto].
  - intros He. destruct (decide (e.1 = fd_ c)) as [Heq|Hne]; [|tauto].
    right. left. destruct e as [k q]. simpl in Heq. subst k. f_equal.
    eapply (key_unique s (fd_ c)); [done | by apply tabled_elem | done].
Qed.

Lemma promoted_ok s conn c :
  Inv s → conn ∈ StdMap.ptrs (tabled s) → heap s !! conn = Some c →
  settles s (promoted conn c s).
Proof.
  intros HI [fd Hin]%ptrs_elem Hc. pose proof (inv_wf _ HI) as Hwf.
  assert (fd = fd_ c) as ->.
  { destruct (wf_live _ Hwf _ _ Hin) as (c' & Hc' & <-). congruence. }
  pose proof (promoted_tabled s conn c) as Htab.
  assert (Hev : evolves s (promoted conn c s)).
  { split; simpl; try done.
    - intros e He. by apply (Htab e).
    - intros fd' q c' Hq Hc'. destruct (decide (conn = q)) as [<-|Hne].
      + rewrite lookup_insert_eq. eexists. split; [done|].
        assert (c' = c) as -> by congruence. done.
      + rewrite lookup_insert_ne by done. exists c'.
        split; [done | apply stable_refl]. }
  assert (Hwf' : WF (promoted conn c s)).
  { split; simpl.
    - apply sorted_erase, Hwf.
    - apply sorted_assign, Hwf.
    - rewrite tabled_keys. simpl. apply NoDup_app. split; [|split].
      + eapply sublist_keys_NoDup; [apply erase_sublist|]. apply sorted_NoDup, Hwf.
      + intros k [p Hk]%keys_elem Hk2. apply elem_erase in Hk as [Hk Hne].
        simpl in Hne. apply keys_assign_elem in Hk2 as [->|Hk2]; [done|].
        eapply (WF_keys_disjoint s k); [done | by eapply elem_keys | done].
      + apply sorted_NoDup, sorted_assign, Hwf.
    - intros fd' q Hq. apply Htab in Hq; [|done..].
      destruct (wf_live _ Hwf _ _ Hq) as (c' & Hc' & Hfd).
      destruct (decide (conn = q)) as [<-|Hne].
      + rewrite lookup_insert_eq. eexists. split; [done|]. simpl. congruence.
      + rewrite lookup_insert_ne by done. by exists c'. }
  split; [|split; [done|]].
  - eapply Inv_evolves; [done..|].
    pose proof (inv_cap _ HI) as Hcap. rewrite tabled_length in Hcap |- *. simpl.
    rewrite length_assign by apply Hwf.
    apply tabled_elem in Hin as [Hin|Hin].
    + pose proof (elem_find _ _ _ (sorted_NoDup _ (wf_conns _ Hwf)) Hin) as Hf.
      rewrite (length_erase _ _ _ (sorted_NoDup _ (wf_conns _ Hwf)) Hf) in Hcap.
      rewrite (proj1 (WF_find_exclusive s (fd_ c) conn Hwf) Hf). lia.
    + pose proof (elem_find _ _ _ (sorted_NoDup _ (wf_monitor _ Hwf)) Hin) as Hf.
      rewrite Hf. destruct (WF_find_exclusive s (fd_ c) conn Hwf) as [_ Hn].
      rewrite erase_absent by auto. lia.
  - split; simpl.
    + intros fd' q Hq. left. by apply Htab.
    + intros q Hq. rewrite lookup_insert_ne; [done|]. congruence.
Qed.

Lemma BecomeMonitorConn_ok s conn :
  Inv s → conn ∈ StdMap.ptrs (tabled s) →
  ∃ s', BecomeMonitorConn conn s = Some (tt, s') ∧ settles s s'.
Proof.
  intros HI Hin. destruct (ptrs_elem _ _ Hin) as [fd Hfd].
  destruct (wf_live _ (inv_wf _ HI) _ _ Hfd) as (c & Hc & _).
  exists (promoted conn c s). split; [by apply BecomeMonitorConn_promoted|].
  by apply promoted_ok.
Qed.

(** ** Admission *)

Lemma AddConnection_duplicate s c conn q :
  heap s !! c = Some conn → StdMap.find (conns_ s) (fd_ conn) = Some q →
  AddConnection c s = Some (mkStatus NotOK "connection was exists", s).
Proof.
  intros Hc Hf. unfold AddConnection, GetFD, deref. mrun.
  rewrite Hc. simpl. by rewrite Hf.
Qed.

Lemma AddConnection_full s c conn :
  heap s !! c = Some conn → StdMap.find (conns_ s) (fd_ conn) = None →
  connected_clients_ (svr_ s) + 1 > maxclients (svr_ s) →
  AddConnection c s = Some (mkStatus NotOK "max number of clients reached", s).
Proof.
  intros Hc Hf Hcap. unfold AddConnection, GetFD, deref, IncrClientNum, DecrClientNum.
  mrun. rewrite Hc. simpl. rewrite Hf. simpl.
  rewrite bool_decide_true by lia. do 2 f_equal.
  destruct s as [[]]; simpl. unfold set_svr, set_connected_clients; simpl.
  do 2 f_equal. lia.
Qed.

Lemma AddConnection_admitted s c conn :
  heap s !! c = Some conn → StdMap.find (conns_ s) (fd_ conn) = None →
  connected_clients_ (svr_ s) + 1 ≤ maxclients (svr_ s) →
  AddConnection c s = Some (Status_OK, admitted c conn s).
Proof.
  intros Hc Hf Hcap.
  unfold AddConnection, GetFD, SetID, update, deref, IncrClientNum, fetch_add_client_id.
  mrun. rewrite Hc. simpl. rewrite Hf. simpl.
  rewrite bool_decide_false by lia. simpl. by rewrite Hc.
Qed.

Lemma admitted_tabled s c conn e :
  StdMap.find (conns_ s) (fd_ conn) = None →
  e ∈ tabled (admitted c conn s) ↔ e = (fd_ conn, c) ∨ e ∈ tabled s.
Proof.
  intros Hf. rewrite !tabled_elem. simpl. rewrite elem_insert by done. tauto.
Qed.

Lemma fresh_not_tabled s c conn fd :
  WF s → heap s !! c = Some conn →
  fd_ conn ∉ StdMap.keys (tabled s) → (fd, c) ∉ tabled s.
Proof.
  intros Hwf Hc Hfresh Hin.
  destruct (wf_live _ Hwf _ _ Hin) as (c' & Hc' & <-).
  apply Hfresh. assert (c' = conn) as -> by congruence. by eapply elem_keys.
Qed.

Lemma fresh_fd s fd :
  StdMap.find (conns_ s) fd = None → fd ∉ StdMap.keys (monitor_conns_ s) →
  fd ∉ StdMap.keys (tabled s).
Proof.
  intros Hf Hm. rewrite tabled_keys, not_elem_of_app. split; [|done].
  by apply find_None_keys.
Qed.

Lemma admitted_Inv s c conn :
  Inv s → heap s !! c = Some conn →
  StdMap.find (conns_ s) (fd_ conn) = None →
  fd_ conn ∉ StdMap.keys (monitor_conns_ s) →
  connected_clients_ (svr_ s) + 1 ≤ maxclients (svr_ s) →
  Inv (admitted c conn s).
Proof.
  intros HI Hc Hf Hm Hcap. pose proof (inv_wf _ HI) as Hwf.
  pose proof (fresh_fd _ _ Hf Hm) as Hfresh.
  pose proof (λ e, admitted_tabled s c conn e Hf) as Htab.
  assert (Hother : ∀ fd q, (fd, q) ∈ tabled s →
            <[c := set_id (client_id_ (svr_ s)) conn]> (heap s) !! q = heap s !! q).
  { intros fd q Hq. rewrite lookup_insert_ne; [done|].
    intros <-. by eapply (fresh_not_tabled s c conn fd). }
  split; [split|..]; simpl.
  - apply sorted_insert, Hwf.
  - apply Hwf.
  - rewrite tabled_keys. simpl. apply NoDup_app. split; [|split].
    + apply sorted_NoDup, sorted_insert, Hwf.
    + intros k [->|Hk]%keys_insert_elem Hk2; [done|].
      by eapply (WF_keys_disjoint s k).
    + apply sorted_NoDup, Hwf.
  - intros fd q [Heq|Hq]%Htab.
    + simplify_eq. rewrite lookup_insert_eq. by eexists.
    + rewrite (Hother fd q Hq). by apply (wf_live _ Hwf).
  - intros fd q c' [Heq|Hq]%Htab.
    + simplify_eq. rewrite lookup_insert_eq. by intros [= <-].
    + rewrite (Hother fd q Hq). intros Hc'. by eapply (inv_assigned _ HI).
  - pose proof (inv_cap _ HI) as Hc0. rewrite tabled_length in Hc0 |- *. simpl.
    rewrite length_insert_absent by done. lia.
Qed.

Lemma admitted_InvIds s c conn :
  WF s → InvIds s → heap s !! c = Some conn →
  StdMap.find (conns_ s) (fd_ conn) = None →
  fd_ conn ∉ StdMap.keys (monitor_conns_ s) →
  client_id_ (svr_ s) + 1 < 2 ^ 64 →
  InvIds (admitted c conn s) ∧
  client_id_ (svr_ (admitted c conn s)) = client_id_ (svr_ s) + 1.
Proof.
  intros Hwf [Hcnt Hinc Hbel Htb Hdis] Hc Hf Hm Hwrap.
  pose proof (fresh_fd _ _ Hf Hm) as Hfresh.
  pose proof (λ e, admitted_tabled s c conn e Hf) as Htab.
  assert (Hnext : (client_id_ (svr_ s) + 1) mod 2 ^ 64 = client_id_ (svr_ s) + 1).
  { apply Z.mod_small. lia. }
  assert (Hother : ∀ fd q, (fd, q) ∈ tabled s →
            <[c := set_id (client_id_ (svr_ s)) conn]> (heap s) !! q = heap s !! q).
  { intros fd q Hq. rewrite lookup_insert_ne; [done|].
    intros <-. by eapply (fresh_not_tabled s c conn fd). }
  assert (Hcases : ∀ fd q c', (fd, q) ∈ tabled (admitted c conn s) →
            heap (admitted c conn s) !! q = Some c' →
            (q = c ∧ id_ c' = client_id_ (svr_ s)) ∨
            ((fd, q) ∈ tabled s ∧ heap s !! q = Some c' ∧ id_ c' < client_id_ (svr_ s))).
  { intros fd q c' [Heq|Hq]%Htab Hc'.
    - simplify_eq. left. split; [done|].
      simpl in Hc'. rewrite lookup_insert_eq in Hc'. by simplify_eq.
    - right. simpl in Hc'. rewrite (Hother fd q Hq) in Hc'. eauto. }
  split; [|by simpl].
  split; simpl; rewrite ?Hnext.
  - lia.
  - rewrite set_ids_app. simpl. apply StronglySorted_app. split; [|split].
    + intros x1 x2 Hx1 ->%list_elem_of_singleton.
      rewrite Forall_forall in Hbel. by apply Hbel.
    + done.
    + repeat constructor.
  - rewrite set_ids_app. simpl. apply Forall_app. split.
    + eapply Forall_impl; [exact Hbel|]. simpl. intros; lia.
    + constructor; [lia | constructor].
  - intros fd q c' Hq Hc'.
    destruct (Hcases fd q c' Hq Hc') as [[_ ->]|(_ & _ & ?)]; lia.
  - intros fd1 p1 c1 fd2 p2 c2 Hq1 Hq2 Hc1 Hc2 Heq.
    destruct (Hcases _ _ _ Hq1 Hc1) as [[-> Hi1]|(Hin1 & Hh1 & Hi1)],
             (Hcases _ _ _ Hq2 Hc2) as [[-> Hi2]|(Hin2 & Hh2 & Hi2)];
      [done | lia | lia |].
    by eapply (Hdis fd1 p1 c1 fd2 p2 c2).
Qed.

Lemma settles_advances s s' : WF s → settles s s' → advances s s'.
Proof.
  intros Hwf (HI & Hev & Hk). split; [done | apply Hk | apply Hev |].
  intros Hids _. split; [by eapply InvIds_evolves|].
  rewrite (ev_client_id _ _ Hev). lia.
Qed.

(** ** The accept callback *)

Lemma alloc_Some p c s :
  heap s !! p = None → alloc p c s = Some (tt, set_heap (<[p := c]> (heap s)) s).
Proof. intros H. unfold alloc. by rewrite H. Qed.

Lemma alloc_Inv s p c :
  Inv s → heap s !! p = None →
  Inv (set_heap (<[p := c]> (heap s)) s) ∧ evolves s (set_heap (<[p := c]> (heap s)) s).
Proof.
  intros HI Hp. pose proof (inv_wf _ HI) as Hwf.
  assert (Hother : ∀ fd q, (fd, q) ∈ tabled s → <[p := c]> (heap s) !! q = heap s !! q).
  { intros fd q Hq. rewrite lookup_insert_ne; [done|]. intros <-.
    destruct (wf_live _ Hwf _ _ Hq) as (c' & Hc' & _). congruence. }
  assert (Hev : evolves s (set_heap (<[p := c]> (heap s)) s)).
  { split; try done. simpl. intros fd q c' Hq Hc'. exists c'.
    split; [|apply stable_refl]. by rewrite (Hother fd q Hq). }
  split; [|done]. eapply Inv_evolves; [done..| |apply HI].
  split; simpl; try apply Hwf.
  intros fd q Hq. rewrite (Hother fd q Hq). by apply (wf_live _ Hwf).
Qed.

Lemma SetAddr_peer s p c (peer : option (string * Z)) :
  heap s !! p = Some c →
  ∃ s', (if peer is Some (host, port) then SetAddr p (host +:+ ":" +:+ pretty port)
         else mret tt) s = Some (tt, s') ∧
        mutates s s' ∧ trace s' = trace s ∧
        ∃ c', heap s' !! p = Some c' ∧ fd_ c' = fd_ c.
Proof.
  intros Hc. destruct peer as [[host port]|].
  - unfold SetAddr. rewrite (update_Some _ _ _ _ Hc). eexists. split; [done|].
    split; [by apply (mutates_update s p c)|]. split; [done|].
    simpl. rewrite lookup_insert_eq. by eexists.
  - exists s. split; [done|]. split; [apply mutates_refl|]. split; [done|]. by exists c.
Qed.

Lemma newConnection_ok s k p fd now peer :
  Inv s → heap s !! p = None → fd ∉ StdMap.keys (monitor_conns_ s) →
  ∃ s', newConnection k p fd now peer s = Some (tt, s') ∧ advances s s'.
Proof.
  intros HI Hp Hfd. pose proof (inv_wf _ HI) as Hwf.
  unfold newConnection. destruct k; simpl.
  2:{ eexists. split; [done|]. apply settles_advances; [done|].
      apply settles_mutates; [done|]. apply mutates_trace.
      rewrite set_ids_app. simpl. by rewrite app_nil_r. }
  rewrite (bind_Some _ _ _ _ _ (alloc_Some p _ s Hp)).
  destruct (alloc_Inv s p (new_Connection fd now) HI Hp) as [HIa Heva].
  set (sa := set_heap (<[p := new_Connection fd now]> (heap s)) s) in *.
  assert (Hca : heap sa !! p = Some (new_Connection fd now)) by apply lookup_insert_eq.
  unfold bufferevent_enable at 1.
  rewrite (bind_Some _ _ _ _ _ (update_Some p _ _ sa Hca)).
  set (c0 := set_events (Z.lor (events_ (new_Connection fd now)) EV_READ)
               (new_Connection fd now)).
  assert (Hmb : mutates sa (set_heap (<[p := c0]> (heap sa)) sa))
    by by apply (mutates_update sa p (new_Connection fd now)).
  set (sb := set_heap (<[p := c0]> (heap sa)) sa) in *.
  pose proof (mutates_Inv _ _ HIa Hmb) as HIb.
  assert (Hcb : heap sb !! p = Some c0) by apply lookup_insert_eq.
  assert (Hevb : evolves s sb) by (eapply evolves_trans; [done | by apply mutates_evolves]).
  assert (Htb : tabled sb = tabled s) by done.
  assert (Hreject : ∀ st, IsOK st = false →
            AddConnection p sb = Some (st, sb) →
            ∃ s', (AddConnection p ≫= λ status,
                     (if peer is Some (host, port)
                      then SetAddr p (host +:+ ":" +:+ pretty port) else mret tt);;
                     if negb (IsOK status)
                     then sys_write fd (Redis_Error ("ERR " +:+ Msg status));;
                          fd' ← GetFD p; RemoveConnection fd'
                     else mret tt) sb = Some (tt, s') ∧ advances s s').
  { intros st Hst Hadd. rewrite (bind_Some _ _ _ _ _ Hadd).
    destruct (SetAddr_peer sb p c0 peer Hcb) as (sc & Hrun & Hmc & _ & c1 & Hc1 & Hfd1).
    rewrite (bind_Some _ _ _ _ _ Hrun). rewrite Hst. simpl.
    pose proof (mutates_Inv _ _ HIb Hmc) as HIc.
    unfold sys_write at 1.
    set (sd := set_trace (trace sc ++ [EvWrite fd (Redis_Error ("ERR " +:+ Msg st))]) sc).
    assert (Hmd : mutates sc sd).
    { apply mutates_trace. rewrite set_ids_app. simpl. by rewrite app_nil_r. }
    pose proof (mutates_Inv _ _ HIc Hmd) as HId.
    destruct (RemoveConnection_ok sd fd HId) as (s' & Hrm & Hset).
    exists s'. split.
    - unfold mbind at 1, M_bind at 1, modify at 1. fold sd.
      assert (Hgd : GetFD p sd = Some (fd, sd)).
      { unfold GetFD. rewrite (bind_Some _ _ _ _ _ (deref_Some p c1 sd Hc1)).
        unfold mret, M_ret. by rewrite Hfd1. }
      by rewrite (bind_Some _ _ _ _ _ Hgd).
    - assert (Htd : tabled sd = tabled s).
      { rewrite (mutates_tabled _ _ Hmd), (mutates_tabled _ _ Hmc). done. }
      destruct Hset as (HI' & Hev' & Hk'). split; [done | | |].
      + intros fd' q Hq. rewrite <- Htd in Hq. by apply Hk'.
      + rewrite (ev_maxclients _ _ Hev'), (mu_svr _ _ Hmd), (mu_svr _ _ Hmc). done.
      + assert (Hev : evolves s s').
        { eapply evolves_trans; [exact Hevb|].
          eapply evolves_trans; [by apply mutates_evolves|].
          eapply evolves_trans; [by apply mutates_evolves | done]. }
        intros Hids _. split; [by eapply InvIds_evolves|].
        rewrite (ev_client_id _ _ Hev). lia. }
  destruct (StdMap.find (conns_ sb) (fd_ c0)) as [q|] eqn:Hf.
  { eapply Hreject; [|by eapply AddConnection_duplicate]. done. }
  destruct (decide (connected_clients_ (svr_ sb) + 1 ≤ maxclients (svr_ sb))) as [Hle|Hgt].
  2:{ eapply Hreject; [|apply (AddConnection_full sb p c0); [done..|lia]]. done. }
  rewrite (bind_Some _ _ _ _ _ (AddConnection_admitted sb p c0 Hcb Hf Hle)).
  assert (Hcc : heap (admitted p c0 sb) !! p = Some (set_id (client_id_ (svr_ sb)) c0))
    by apply lookup_insert_eq.
  destruct (SetAddr_peer _ p _ peer Hcc) as (sc & Hrun & Hmc & _ & _).
  rewrite (bind_Some _ _ _ _ _ Hrun). simpl.
  pose proof (admitted_Inv sb p c0 HIb Hcb Hf Hfd Hle) as HIad.
  exists sc. split; [done|]. split.
  - by eapply mutates_Inv.
  - intros fd' q Hq. left. rewrite (mutates_tabled _ _ Hmc).
    apply admitted_tabled; [done|]. right. by rewrite Htb.
  - by rewrite (mu_svr _ _ Hmc).
  - intros Hids Hwrap.
    pose proof (InvIds_evolves _ _ Hwf Hids Hevb) as Hidsb.
    destruct (admitted_InvIds sb p c0 (inv_wf _ HIb) Hidsb Hcb Hf Hfd) as [Hidsad Hnext];
      [done|].
    split.
    + eapply InvIds_evolves; [apply HIad | done | by apply mutates_evolves].
    + rewrite (mu_svr _ _ Hmc), Hnext. simpl. lia.
Qed.

(** ** The kill loop *)

Lemma count_entries_cons f e l :
  count_entries f (e :: l) = ((if f e then 1 else 0) + count_entries f l)%nat.
Proof.
  unfold count_entries. simpl. by destruct (f e).
Qed.

Lemma count_entries_ext f g l :
  (∀ e, e ∈ l → f e = g e) → count_entries f l = count_entries g l.
Proof.
  induction l as [|e l IH]; intros H; [done|].
  rewrite !count_entries_cons, (H e), IH; [done | | by left].
  intros e' He'. apply H. by right.
Qed.

Lemma kill_matches_live s conn id addr c :
  heap s !! conn = Some c →
  kill_matches conn id addr s = Some (kill_filter id addr c, s).
Proof.
  intros Hc. unfold kill_matches, kill_filter, GetAddr, GetID, deref. mrun.
  repeat (case_bool_decide; simpl; rewrite ?Hc; simpl); try done; congruence.
Qed.

Lemma kill_matches_no_filter s conn :
  kill_matches conn 0 "" s = Some (false, s).
Proof. unfold kill_matches. mrun. done. Qed.

Lemma kill_mark_stable c : stable c (kill_mark c).
Proof. done. Qed.

Lemma KillClient_loop_spec self id addr skipme l :
  ∀ s killed,
    NoDup (StdMap.ptrs l) →
    (∀ p, p ∈ StdMap.ptrs l → is_Some (heap s !! p)) →
    ∃ s', KillClient_loop l self id addr skipme killed s =
            Some (killed + Z.of_nat (count_entries (kill_target (heap s) self id addr skipme) l), s') ∧
          svr_ s' = svr_ s ∧ conns_ s' = conns_ s ∧ monitor_conns_ s' = monitor_conns_ s ∧
          last_iter_conn_fd s' = last_iter_conn_fd s ∧ trace s' = trace s ∧
          ∀ p, heap s' !! p =
               (λ c, if bool_decide (p ∈ StdMap.ptrs l) && kill_hits self id addr skipme p c
                     then kill_mark c else c) <$> heap s !! p.
Proof.
  induction l as [|[fd q] l IH]; intros s killed Hnd Hlive.
  - exists s. simpl. unfold mret, M_ret. split; [do 2 f_equal; unfold count_entries; simpl; lia|].
    repeat split; try done. intros p. by destruct (heap s !! p).
  - unfold StdMap.ptrs in Hnd. simpl in Hnd. apply NoDup_cons in Hnd as [Hq Hnd].
    destruct (Hlive q) as [c Hc]; [unfold StdMap.ptrs; simpl; by left|].
    assert (Hlive' : ∀ p, p ∈ StdMap.ptrs l → is_Some (heap s !! p)).
    { intros p Hp. apply Hlive. unfold StdMap.ptrs. simpl. by right. }
    assert (Htq : kill_target (heap s) self id addr skipme (fd, q) =
                  kill_hits self id addr skipme q c).
    { unfold kill_target. simpl. by rewrite Hc. }
    assert (Hmem : ∀ p, p ≠ q →
              bool_decide (p ∈ StdMap.ptrs ((fd, q) :: l)) = bool_decide (p ∈ StdMap.ptrs l)).
    { intros p Hne. apply bool_decide_ext. unfold StdMap.ptrs. simpl.
      rewrite elem_of_cons. tauto. }
    rewrite count_entries_cons, Htq. simpl.
    destruct (skipme && bool_decide (self = q)) eqn:Hskip.
    + destruct (IH s killed Hnd Hlive') as (s' & Hrun & H1 & H2 & H3 & H4 & H5 & H6).
      exists s'. unfold kill_hits at 1. rewrite Hskip. simpl.
      split; [by rewrite Hrun|]. repeat split; try done.
      intros p. rewrite H6. destruct (heap s !! p) as [c'|] eqn:Hp; simpl; [|done].
      destruct (decide (p = q)) as [->|Hne].
      * rewrite (bool_decide_false (q ∈ StdMap.ptrs l)) by done.
        unfold kill_hits. rewrite Hskip. simpl. by rewrite andb_false_r.
      * by rewrite Hmem.
    + rewrite (bind_Some _ _ _ _ _ (kill_matches_live s q id addr c Hc)).
      unfold kill_hits at 1. rewrite Hskip. simpl.
      destruct (kill_filter id addr c) eqn:Hfil.
      * unfold EnableFlag at 1. rewrite (bind_Some _ _ _ _ _ (update_Some q _ c s Hc)).
        unfold bufferevent_enable at 1.
        set (s1 := set_heap (<[q := set_flags (Z.lor (flags_ c) kCloseAfterReply) c]> (heap s)) s).
        assert (Hc1 : heap s1 !! q = Some (set_flags (Z.lor (flags_ c) kCloseAfterReply) c))
          by apply lookup_insert_eq.
        rewrite (bind_Some _ _ _ _ _ (update_Some q _ _ s1 Hc1)).
        set (s2 := set_heap _ s1).
        assert (Hh2 : heap s2 = <[q := kill_mark c]> (heap s)).
        { unfold s2, s1. simpl. by rewrite insert_insert_eq. }
        assert (Hlive2 : ∀ p, p ∈ StdMap.ptrs l → is_Some (heap s2 !! p)).
        { intros p Hp. rewrite Hh2. rewrite lookup_insert_ne; [auto|].
          intros <-. done. }
        destruct (IH s2 (killed + 1) Hnd Hlive2) as (s' & Hrun & H1 & H2 & H3 & H4 & H5 & H6).
        exists s'. split.
        { rewrite Hrun. do 2 f_equal.
          rewrite (count_entries_ext (kill_target (heap s2) self id addr skipme)
                     (kill_target (heap s) self id addr skipme)); [lia|].
          intros [k p] Hin. unfold kill_target. rewrite Hh2. simpl.
          rewrite lookup_insert_ne; [done|]. intros <-.
          apply Hq. by apply (elem_ptrs l k q). }
        repeat split; try done.
        intros p. rewrite H6, Hh2. destruct (decide (p = q)) as [->|Hne].
        -- rewrite lookup_insert_eq, Hc. simpl.
           rewrite (bool_decide_false (q ∈ StdMap.ptrs l)) by done. simpl.
           rewrite bool_decide_true by (unfold StdMap.ptrs; simpl; by left).
           unfold kill_hits. by rewrite Hskip, Hfil.
        -- rewrite lookup_insert_ne by done. by rewrite Hmem.
      * destruct (IH s killed Hnd Hlive') as (s' & Hrun & H1 & H2 & H3 & H4 & H5 & H6).
        exists s'. split; [rewrite Hrun; do 2 f_equal; lia|]. repeat split; try done.
        intros p. rewrite H6. destruct (heap s !! p) as [c'|] eqn:Hp; simpl; [|done].
        destruct (decide (p = q)) as [->|Hne].
        -- rewrite (bool_decide_false (q ∈ StdMap.ptrs l)) by done.
           assert (c' = c) as -> by congruence.
           unfold kill_hits. rewrite Hskip, Hfil. simpl. by rewrite andb_false_r.
        -- by rewrite Hmem.
Qed.

Lemma WF_ptrs_NoDup s :
  WF s → NoDup (StdMap.ptrs (conns_ s)) ∧ NoDup (StdMap.ptrs (monitor_conns_ s)).
Proof.
  intros Hwf.
  assert (Hnd : NoDup (StdMap.ptrs (tabled s))).
  { unfold StdMap.ptrs. apply NoDup_fmap_2_strong.
    - intros [k1 p1] [k2 p2] H1 H2. simpl. intros <-. f_equal.
      by eapply (WF_ptr_key s).
    - eapply NoDup_fmap_1, (wf_keys _ Hwf). }
  unfold tabled, StdMap.ptrs in Hnd. rewrite fmap_app in Hnd.
  apply NoDup_app in Hnd as (? & _ & ?). done.
Qed.

Lemma WF_conns_live s p :
  WF s → p ∈ StdMap.ptrs (conns_ s) → is_Some (heap s !! p).
Proof.
  intros Hwf [fd Hin]%ptrs_elem.
  destruct (wf_live _ Hwf fd p) as (c & -> & _); [|done].
  apply tabled_elem. by left.
Qed.

Lemma WF_monitor_live s p :
  WF s → p ∈ StdMap.ptrs (monitor_conns_ s) → is_Some (heap s !! p).
Proof.
  intros Hwf [fd Hin]%ptrs_elem.
  destruct (wf_live _ Hwf fd p) as (c & -> & _); [|done].
  apply tabled_elem. by right.
Qed.

Lemma KillClient_spec s self id addr skipme killed :
  WF s →
  ∃ s', KillClient self id addr skipme killed s =
          Some (killed + Z.of_nat (count_entries (kill_target (heap s) self id addr skipme)
                                     (conns_ s)), s') ∧
        svr_ s' = svr_ s ∧ conns_ s' = conns_ s ∧ monitor_conns_ s' = monitor_conns_ s ∧
        last_iter_conn_fd s' = last_iter_conn_fd s ∧ trace s' = trace s ∧
        ∀ p, heap s' !! p =
             (λ c, if bool_decide (p ∈ StdMap.ptrs (conns_ s)) &&
                      kill_hits self id addr skipme p c
                   then kill_mark c else c) <$> heap s !! p.
Proof.
  intros Hwf. unfold KillClient.
  assert (Hg : gets conns_ s = Some (conns_ s, s)) by done.
  rewrite (bind_Some _ _ _ _ _ Hg).
  apply KillClient_loop_spec; [apply (WF_ptrs_NoDup s Hwf)|].
  intros p. by apply WF_conns_live.
Qed.

Lemma KillClient_ok s self id addr skipme killed :
  WF s → ∃ n s', KillClient self id addr skipme killed s = Some (n, s') ∧ mutates s s'.
Proof.
  intros Hwf.
  destruct (KillClient_spec s self id addr skipme killed Hwf)
    as (s' & Hrun & H1 & H2 & H3 & H4 & H5 & H6).
  do 2 eexists. split; [done|]. split; try done; [by rewrite H5|].
  intros p. rewrite H6. destruct (heap s !! p) as [c|]; simpl; [|done].
  destruct (_ && _); [apply kill_mark_stable | apply stable_refl].
Qed.

(** ** The monitor feed *)

Lemma for_each_cons {A} (x : A) l (body : A → M unit) s s1 :
  body x s = Some (tt, s1) → for_each (x :: l) body s = for_each l body s1.
Proof. intros H. simpl. by rewrite (bind_Some _ _ _ _ _ H). Qed.

Lemma Connection_Reply_Some s p c bytes :
  heap s !! p = Some c →
  Connection_Reply p bytes s = Some (tt, set_heap (<[p := deliver bytes c]> (heap s)) s).
Proof.
  intros Hc. unfold Connection_Reply, Redis_Reply.
  rewrite (bind_Some _ _ _ _ _ (update_Some p _ c s Hc)).
  unfold bufferevent_enable. erewrite update_Some; [|apply lookup_insert_eq].
  simpl. by rewrite insert_insert_eq.
Qed.

Lemma feed_body s conn src bytes (e : Z * ptr) c :
  heap s !! conn = Some src → heap s !! e.2 = Some c →
  (if bool_decide (conn = e.2) then mret tt
   else
     ns_c ← GetNamespace conn;
     ns_m ← GetNamespace e.2;
     if bool_decide (ns_c = ns_m) then Connection_Reply e.2 bytes
     else
       ns_m ← GetNamespace e.2;
       if bool_decide (ns_m = kDefaultNamespace) then Connection_Reply e.2 bytes
       else mret tt) s =
  Some (tt, if feed_receives conn src e.2 c
            then set_heap (<[e.2 := deliver bytes c]> (heap s)) s else s).
Proof.
  intros Hsrc Hc. unfold feed_receives.
  case_bool_decide as Heq.
  - rewrite bool_decide_false by (intros H; by apply H). done.
  - rewrite bool_decide_true by congruence. simpl.
    unfold GetNamespace.
    rewrite (bind_Some _ _ _ (ns_ src) s);
      [|by rewrite (bind_Some _ _ _ _ _ (deref_Some conn src s Hsrc))].
    rewrite (bind_Some _ _ _ (ns_ c) s);
      [|by rewrite (bind_Some _ _ _ _ _ (deref_Some e.2 c s Hc))].
    case_bool_decide as Hns.
    + rewrite bool_decide_true by done. simpl. by apply Connection_Reply_Some.
    + rewrite bool_decide_false by congruence. simpl.
      rewrite (bind_Some _ _ _ (ns_ c) s);
        [|by rewrite (bind_Some _ _ _ _ _ (deref_Some e.2 c s Hc))].
      case_bool_decide; [by apply Connection_Reply_Some | done].
Qed.

Lemma feed_loop_spec conn src bytes body l :
  (∀ s e c, heap s !! conn = Some src → heap s !! e.2 = Some c →
     body e s = Some (tt, if feed_receives conn src e.2 c
                          then set_heap (<[e.2 := deliver bytes c]> (heap s)) s else s)) →
  ∀ s,
    NoDup (StdMap.ptrs l) →
    (∀ p, p ∈ StdMap.ptrs l → is_Some (heap s !! p)) →
    heap s !! conn = Some src →
    ∃ s', for_each l body s = Some (tt, s') ∧
          svr_ s' = svr_ s ∧ conns_ s' = conns_ s ∧ monitor_conns_ s' = monitor_conns_ s ∧
          last_iter_conn_fd s' = last_iter_conn_fd s ∧ trace s' = trace s ∧
          ∀ p, heap s' !! p =
               (λ c, if bool_decide (p ∈ StdMap.ptrs l) && feed_receives conn src p c
                     then deliver bytes c else c) <$> heap s !! p.
Proof.
  intros Hbody. induction l as [|[fd q] l IH]; intros s Hnd Hlive Hsrc.
  - exists s. split; [done|]. repeat split; try done.
    intros p. by destruct (heap s !! p).
  - unfold StdMap.ptrs in Hnd. simpl in Hnd. apply NoDup_cons in Hnd as [Hq Hnd].
    destruct (Hlive q) as [c Hc]; [unfold StdMap.ptrs; simpl; by left|].
    assert (Hmem : ∀ p, p ≠ q →
              bool_decide (p ∈ StdMap.ptrs ((fd, q) :: l)) = bool_decide (p ∈ StdMap.ptrs l)).
    { intros p Hne. apply bool_decide_ext. unfold StdMap.ptrs. simpl.
      rewrite elem_of_cons. tauto. }
    rewrite (for_each_cons _ _ _ _ _ (Hbody s (fd, q) c Hsrc Hc)). simpl.
    destruct (feed_receives conn src q c) eqn:Hrec.
    + set (s1 := set_heap (<[q := deliver bytes c]> (heap s)) s).
      assert (Hne : q ≠ conn).
      { unfold feed_receives in Hrec. apply andb_true_iff in Hrec as [Hrec _].
        by apply bool_decide_eq_true in Hrec. }
      destruct (IH s1) as (s' & Hrun & H1 & H2 & H3 & H4 & H5 & H6); [done | | |].
      { intros p Hp. simpl. rewrite lookup_insert_ne; [|by intros <-].
        apply Hlive. unfold StdMap.ptrs. simpl. by right. }
      { simpl. by rewrite lookup_insert_ne. }
      exists s'. split; [done|]. repeat split; try done.
      intros p. rewrite H6. simpl. destruct (decide (p = q)) as [->|Hpq].
      * rewrite lookup_insert_eq, Hc. simpl.
        rewrite (bool_decide_false (q ∈ StdMap.ptrs l)) by done. simpl.
        rewrite bool_decide_true by (unfold StdMap.ptrs; simpl; by left).
        by rewrite Hrec.
      * rewrite lookup_insert_ne by done. by rewrite Hmem.
    + destruct (IH s) as (s' & Hrun & H1 & H2 & H3 & H4 & H5 & H6); [done | | done |].
      { intros p Hp. apply Hlive. unfold StdMap.ptrs. simpl. by right. }
      exists s'. split; [done|]. repeat split; try done.
      intros p. rewrite H6. destruct (heap s !! p) as [c'|] eqn:Hp; simpl; [|done].
      destruct (decide (p = q)) as [->|Hpq].
      * rewrite (bool_decide_false (q ∈ StdMap.ptrs l)) by done.
        assert (c' = c) as -> by congruence. rewrite Hrec. by rewrite ?andb_false_r.
      * by rewrite Hmem.
Qed.

Lemma FeedMonitorConns_spec s tv_sec tv_usec conn tokens src :
  WF s → heap s !! conn = Some src →
  ∃ s', FeedMonitorConns tv_sec tv_usec conn tokens s = Some (tt, s') ∧
        svr_ s' = svr_ s ∧ conns_ s' = conns_ s ∧ monitor_conns_ s' = monitor_conns_ s ∧
        last_iter_conn_fd s' = last_iter_conn_fd s ∧ trace s' = trace s ∧
        ∀ p, heap s' !! p =
             (λ c, if bool_decide (p ∈ StdMap.ptrs (monitor_conns_ s)) &&
                      feed_receives conn src p c
                   then deliver (Redis_SimpleString
                                   (feed_line tv_sec tv_usec (addr_ src) tokens)) c
                   else c) <$> heap s !! p.
Proof.
  intros Hwf Hsrc. unfold FeedMonitorConns.
  assert (Ha : GetAddr conn s = Some (addr_ src, s)).
  { unfold GetAddr. by rewrite (bind_Some _ _ _ _ _ (deref_Some conn src s Hsrc)). }
  rewrite (bind_Some _ _ _ _ _ Ha).
  assert (Hg : gets monitor_conns_ s = Some (monitor_conns_ s, s)) by done.
  rewrite (bind_Some _ _ _ _ _ Hg).
  apply (feed_loop_spec conn src); [| apply (WF_ptrs_NoDup s Hwf) | | done].
  - intros s0 e c Hs0 Hc. by apply feed_body.
  - intros p. by apply WF_monitor_live.
Qed.

Lemma deliver_stable bytes c : stable c (deliver bytes c).
Proof. done. Qed.

Lemma FeedMonitorConns_ok s tv_sec tv_usec conn tokens :
  WF s → is_Some (heap s !! conn) →
  ∃ s', FeedMonitorConns tv_sec tv_usec conn tokens s = Some (tt, s') ∧ mutates s s'.
Proof.
  intros Hwf [src Hsrc].
  destruct (FeedMonitorConns_spec s tv_sec tv_usec conn tokens src Hwf Hsrc)
    as (s' & Hrun & H1 & H2 & H3 & H4 & H5 & H6).
  eexists. split; [done|]. split; try done; [by rewrite H5|].
  intros p. rewrite H6. destruct (heap s !! p) as [c|]; simpl; [|done].
  destruct (_ && _); [apply deliver_stable | apply stable_refl].
Qed.

(** ** The idle scan *)

Lemma static_cast_int_id x : - 2 ^ 31 ≤ x < 2 ^ 31 → static_cast_int x = x.
Proof. intros H. unfold static_cast_int. rewrite Z.mod_small; lia. Qed.

Lemma GetIdleTime_Some now p c s :
  heap s !! p = Some c → GetIdleTime now p s = Some (now - last_interaction_ c, s).
Proof.
  intros Hc. unfold GetIdleTime. by rewrite (bind_Some _ _ _ _ _ (deref_Some p c s Hc)).
Qed.

Lemma GetID_Some p c s : heap s !! p = Some c → GetID p s = Some (id_ c, s).
Proof.
  intros Hc. unfold GetID. by rewrite (bind_Some _ _ _ _ _ (deref_Some p c s Hc)).
Qed.

Lemma Kickout_loop_spec now timeout (conns : StdMap.t) s :
  (∀ p, p ∈ StdMap.ptrs conns → is_Some (heap s !! p)) →
  ∀ k i tbk,
    (i ≤ length conns)%nat → (k ≤ length conns)%nat →
    ∃ iter',
      Kickout_loop now timeout conns k i tbk s =
        Some ((iter', tbk ++ omap (scan_pair now timeout (heap s))
                               (take k (drop i (conns ++ conns)))), s) ∧
      (k = 0%nat → iter' = i) ∧
      ((0 < k)%nat → conns !! Nat.pred iter' = last (take k (drop i (conns ++ conns)))).
Proof.
  intros Hlive. induction k as [|k IH]; intros i tbk Hi Hk.
  - exists i. simpl. rewrite app_nil_r. split; [done|]. split; [done | lia].
  - set (j := if bool_decide (i = length conns) then 0%nat else i).
    assert (Hj : (j < length conns)%nat).
    { unfold j. case_bool_decide; lia. }
    destruct (lookup_lt_is_Some_2 conns j Hj) as [[fd p] Hjp].
    destruct (Hlive p) as [c Hc]; [by eapply elem_ptrs, list_elem_of_lookup_2|].
    assert (Hcc : (conns ++ conns) !! i = Some (fd, p)).
    { unfold j in Hjp. case_bool_decide as Hin.
      - subst i. rewrite lookup_app_r by done. by rewrite Nat.sub_diag.
      - rewrite lookup_app_l; [done | lia]. }
    assert (Hrest : take k (drop (S i) (conns ++ conns)) =
                    take k (drop (S j) (conns ++ conns))).
    { unfold j. case_bool_decide as Hin; [|done]. subst i.
      rewrite (drop_app_le conns conns 1) by lia.
      rewrite take_app_le by (rewrite length_drop; lia).
      rewrite drop_app_ge by lia.
      by replace (S (length conns) - length conns)%nat with 1%nat by lia. }
    rewrite (drop_S _ _ _ Hcc). simpl take. simpl omap.
    assert (Hsp : scan_pair now timeout (heap s) (fd, p) =
                  if bool_decide (static_cast_int (now - last_interaction_ c) >= timeout)
                  then Some (fd, id_ c) else None).
    { unfold scan_pair. simpl. by rewrite Hc. }
    rewrite Hsp, Hrest.
    assert (Hlast : ∀ iter', (k = 0%nat → iter' = S j) →
              ((0 < k)%nat → conns !! Nat.pred iter' = last (take k (drop (S j) (conns ++ conns)))) →
              conns !! Nat.pred iter' = last ((fd, p) :: take k (drop (S j) (conns ++ conns)))).
    { intros iter' H0 H1. destruct k as [|k].
      - rewrite H0 by done. simpl. done.
      - rewrite H1 by lia. rewrite last_cons.
        assert (Hne : take (S k) (drop (S j) (conns ++ conns)) ≠ []).
        { intros Hl. apply (f_equal length) in Hl.
          rewrite length_take, length_drop, length_app in Hl.
          change (length (@nil (Z * ptr))) with 0%nat in Hl. lia. }
        destruct (last (take (S k) (drop (S j) (conns ++ conns)))) eqn:Hl; [done|].
        by apply last_None in Hl. }
    assert (Hstep : Kickout_loop now timeout conns (S k) i tbk s =
              Kickout_loop now timeout conns k (S j)
                (tbk ++ if bool_decide (static_cast_int (now - last_interaction_ c) >= timeout)
                        then [(fd, id_ c)] else []) s).
    { cbn [Kickout_loop]. fold j. rewrite Hjp.
      rewrite (bind_Some _ _ _ _ _ (GetIdleTime_Some now p c s Hc)).
      case_bool_decide; [|by rewrite app_nil_r].
      by rewrite (bind_Some _ _ _ _ _ (GetID_Some p c s Hc)). }
    destruct (IH (S j)
                (tbk ++ if bool_decide (static_cast_int (now - last_interaction_ c) >= timeout)
                        then [(fd, id_ c)] else [])) as (iter' & Hrun & H0 & H1); [lia..|].
    exists iter'. rewrite Hstep, Hrun. split; [|split; [lia | intros _; by apply Hlast]].
    case_bool_decide; simpl; by rewrite <- ?app_assoc, ?app_nil_r.
Qed.

Lemma filter_all {A} (f : A → bool) l :
  Forall (λ x, f x = true) l → List.filter f l = l.
Proof. induction 1 as [|x l Hx _ IH]; simpl; [done|]. by rewrite Hx, IH. Qed.

Lemma filter_none {A} (f : A → bool) l :
  Forall (λ x, f x = false) l → List.filter f l = [].
Proof. induction 1 as [|x l Hx _ IH]; simpl; [done|]. by rewrite Hx. Qed.

Lemma upper_bound_split (conns : StdMap.t) cursor :
  StdMap.sorted conns →
  (StdMap.upper_bound conns cursor ≤ length conns)%nat ∧
  drop (StdMap.upper_bound conns cursor) conns = List.filter (λ e, cursor <? e.1) conns ∧
  take (StdMap.upper_bound conns cursor) conns = List.filter (λ e, e.1 <=? cursor) conns.
Proof.
  unfold StdMap.sorted. induction conns as [|[k v] m IH]; simpl; [done|].
  intros [Hall Hs]%StronglySorted_cons.
  destruct (Z.ltb_spec cursor k) as [Hlt|Hge].
  - simpl. split; [lia|]. rewrite Forall_forall in Hall.
    rewrite (proj2 (Z.leb_gt k cursor)) by lia. split.
    + f_equal. symmetry. apply filter_all. apply Forall_forall.
      intros [k' v'] Hin. simpl. apply Z.ltb_lt.
      specialize (Hall k' (elem_keys _ _ _ Hin)). lia.
    + symmetry. apply filter_none. apply Forall_forall.
      intros [k' v'] Hin. simpl. apply Z.leb_gt.
      specialize (Hall k' (elem_keys _ _ _ Hin)). lia.
  - destruct (IH Hs) as (Hle & Hd & Ht). simpl.
    rewrite (proj2 (Z.leb_le k cursor)) by lia.
    split; [lia|]. split; [done | by f_equal].
Qed.

Lemma scan_window (conns : StdMap.t) cursor :
  StdMap.sorted conns →
  take (Nat.min (length conns) 50)
       (drop (StdMap.upper_bound conns cursor) (conns ++ conns)) =
  visited conns cursor.
Proof.
  intros Hs. destruct (upper_bound_split conns cursor Hs) as (Hle & Hd & Ht).
  unfold visited, visit_order. rewrite <- Hd, <- Ht.
  set (i := StdMap.upper_bound conns cursor) in *.
  rewrite drop_app_le by done.
  transitivity (take (Nat.min (length conns) 50)
                  ((drop i conns ++ take i conns) ++ drop i conns)).
  { f_equal. rewrite <- app_assoc. f_equal. by rewrite take_drop. }
  assert (Hlen : length (drop i conns ++ take i conns) = length conns).
  { rewrite length_app, length_drop, length_take. lia. }
  rewrite take_app_le by lia.
  rewrite <- (take_ge (drop i conns ++ take i conns) (length conns)) at 2 by lia.
  rewrite take_take. f_equal. lia.
Qed.

Lemma visited_elem (conns : StdMap.t) cursor e : e ∈ visited conns cursor → e ∈ conns.
Proof.
  unfold visited, visit_order. intros He.
  assert (H : e ∈ List.filter (λ e, cursor <? e.1) conns ++
                  List.filter (λ e, e.1 <=? cursor) conns).
  { eapply elem_of_sublist; [exact He | apply sublist_take]. }
  apply elem_of_app in H as [H|H]; apply list_elem_of_In, filter_In in H as [H _];
    by apply list_elem_of_In.
Qed.

Lemma omap_ext_elem {A B} (f g : A → option B) (l : list A) :
  (∀ x, x ∈ l → f x = g x) → omap f l = omap g l.
Proof.
  induction l as [|x l IH]; intros H; [done|]. simpl.
  rewrite (H x) by by left.
  assert (IH' : omap f l = omap g l).
  { apply IH. intros y Hy. apply H. by right. }
  destruct (g x); [f_equal|]; exact IH'.
Qed.

Lemma KickoutIdleClients_scan s now timeout :
  WF s →
  KickoutIdleClients now timeout s =
    ((if last (visited (conns_ s) (last_iter_conn_fd s)) is Some (fd, _)
      then modify (set_last_iter_conn_fd fd) else mret tt);;
     for_each (omap (scan_pair now timeout (heap s))
                 (visited (conns_ s) (last_iter_conn_fd s)))
              (λ pair, RemoveConnectionByID pair.1 pair.2)) s.
Proof.
  intros Hwf. unfold KickoutIdleClients.
  assert (Hg : gets conns_ s = Some (conns_ s, s)) by done.
  rewrite (bind_Some _ _ _ _ _ Hg).
  destruct (conns_ s) as [|e0 l0] eqn:Hconns; [done|].
  rewrite <- Hconns.
  assert (Hlen : (0 < length (conns_ s))%nat) by (rewrite Hconns; simpl; lia).
  assert (Hgl : gets last_iter_conn_fd s = Some (last_iter_conn_fd s, s)) by done.
  rewrite (bind_Some _ _ _ _ _ Hgl).
  destruct (upper_bound_split (conns_ s) (last_iter_conn_fd s) (wf_conns _ Hwf))
    as (Hub & _ & _).
  destruct (Kickout_loop_spec now timeout (conns_ s) s
              (λ p, WF_conns_live s p Hwf)
              (Nat.min (length (conns_ s)) 50)
              (StdMap.upper_bound (conns_ s) (last_iter_conn_fd s)) [] Hub)
    as (iter' & Hrun & _ & Hlast); [lia|].
  rewrite scan_window in Hrun, Hlast by apply Hwf.
  rewrite (bind_Some _ _ _ _ _ Hrun). simpl.
  rewrite Hlast by lia.
  destruct (last (visited (conns_ s) (last_iter_conn_fd s))) as [[fd p]|] eqn:Hl; [done|].
  exfalso. apply last_None in Hl. apply (f_equal length) in Hl.
  rewrite <- scan_window in Hl by apply Hwf.
  rewrite length_take, length_drop, length_app in Hl.
  change (length (@nil (Z * ptr))) with 0%nat in Hl. lia.
Qed.

Lemma TimerCB_kick_idle_clients s now :
  WF s → idle_in_range now s → TimerCB now s = kick_idle_clients now s.
Proof.
  intros Hwf Hidle. unfold TimerCB, kick_idle_clients.
  assert (Hg : gets (λ s, timeout (svr_ s)) s = Some (timeout (svr_ s), s)) by done.
  rewrite !(bind_Some _ _ _ _ _ Hg).
  case_bool_decide; [done|].
  rewrite KickoutIdleClients_scan by done.
  assert (Hgc : gets conns_ s = Some (conns_ s, s)) by done.
  rewrite (bind_Some _ _ _ _ _ Hgc).
  assert (Hgl : gets last_iter_conn_fd s = Some (last_iter_conn_fd s, s)) by done.
  rewrite (bind_Some _ _ _ _ _ Hgl).
  assert (Hgh : gets heap s = Some (heap s, s)) by done.
  rewrite (bind_Some _ _ _ _ _ Hgh).
  rewrite (omap_ext_elem (scan_pair now (timeout (svr_ s)) (heap s))
             (idle_pair now (timeout (svr_ s)) (heap s))); [done|].
  intros [fd p] Hin%visited_elem. unfold scan_pair, idle_pair. simpl.
  destruct (heap s !! p) as [c|] eqn:Hc; [|done].
  rewrite static_cast_int_id by by eapply Hidle.
  apply (f_equal (λ b : bool, if b then Some (fd, id_ c) else None)).
  apply bool_decide_ext. lia.
Qed.

Lemma for_each_settles {A} (body : A → M unit) l :
  (∀ x s, Inv s → ∃ s', body x s = Some (tt, s') ∧ settles s s') →
  ∀ s, Inv s → ∃ s', for_each l body s = Some (tt, s') ∧ settles s s'.
Proof.
  intros Hbody. induction l as [|x l IH]; intros s HI.
  - exists s. split; [done | by apply settles_refl].
  - destruct (Hbody x s HI) as (s1 & Hrun & Hs1).
    destruct (IH s1) as (s2 & Hrun2 & Hs2); [apply Hs1|].
    exists s2. rewrite (for_each_cons _ _ _ _ _ Hrun).
    split; [done | by eapply settles_trans].
Qed.

Lemma TimerCB_ok s now :
  Inv s → ∃ s', TimerCB now s = Some (tt, s') ∧ settles s s'.
Proof.
  intros HI. unfold TimerCB.
  assert (Hg : gets (λ s, timeout (svr_ s)) s = Some (timeout (svr_ s), s)) by done.
  rewrite (bind_Some _ _ _ _ _ Hg).
  case_bool_decide.
  { exists s. split; [done | by apply settles_refl]. }
  rewrite KickoutIdleClients_scan by apply HI.
  set (l := omap _ _).
  assert (Hcur : ∃ s1, (if last (visited (conns_ s) (last_iter_conn_fd s)) is Some (fd, _)
                        then modify (set_last_iter_conn_fd fd) else mret tt) s = Some (tt, s1) ∧
                       mutates s s1).
  { destruct (last _) as [[fd p]|].
    - eexists. split; [done | apply mutates_cursor].
    - exists s. split; [done | apply mutates_refl]. }
  destruct Hcur as (s1 & Hrun1 & Hm1).
  rewrite (bind_Some _ _ _ _ _ Hrun1).
  pose proof (settles_mutates _ _ HI Hm1) as Hs1.
  destruct (for_each_settles (λ pair : Z * Z, RemoveConnectionByID pair.1 pair.2) l
              (λ x s0, RemoveConnectionByID_ok s0 x.1 x.2) s1) as (s2 & Hrun2 & Hs2);
    [apply Hs1|].
  exists s2. split; [done | by eapply settles_trans].
Qed.

(** ** Every enabled step keeps the invariants *)

Lemma step_ok s o :
  Inv s → enabled o s → ∃ s', step o s = Some (tt, s') ∧ advances s s'.
Proof.
  intros HI Hen. pose proof (inv_wf _ HI) as Hwf.
  destruct o as [k p fd now peer|fd|fd id|fd|fd reply|conn|tv_sec tv_usec conn tokens
                 |self id addr skipme|now]; simpl in *.
  - destruct Hen as [Hp Hfd]. by apply newConnection_ok.
  - destruct (RemoveConnection_ok s fd HI) as (s' & Hrun & Hs).
    exists s'. split; [done | by apply settles_advances].
  - destruct (RemoveConnectionByID_ok s fd id HI) as (s' & Hrun & Hs).
    exists s'. split; [done | by apply settles_advances].
  - destruct (EnableWriteEvent_ok s fd HI) as (st & s' & Hrun & Hm).
    exists s'. rewrite (bind_Some _ _ _ _ _ Hrun).
    split; [done | by apply settles_advances, settles_mutates].
  - destruct (Reply_ok s fd reply HI) as (st & s' & Hrun & Hm).
    exists s'. rewrite (bind_Some _ _ _ _ _ Hrun).
    split; [done | by apply settles_advances, settles_mutates].
  - destruct (BecomeMonitorConn_ok s conn HI Hen) as (s' & Hrun & Hs).
    exists s'. split; [done | by apply settles_advances].
  - destruct (FeedMonitorConns_ok s tv_sec tv_usec conn tokens Hwf) as (s' & Hrun & Hm).
    { apply ptrs_elem in Hen as [fd Hin].
      destruct (wf_live _ Hwf _ _ Hin) as (c & -> & _). done. }
    exists s'. split; [done | by apply settles_advances, settles_mutates].
  - destruct (KillClient_ok s self id addr skipme 0 Hwf) as (n & s' & Hrun & Hm).
    exists s'. rewrite (bind_Some _ _ _ _ _ Hrun).
    split; [done | by apply settles_advances, settles_mutates].
  - destruct (TimerCB_ok s now HI) as (s' & Hrun & Hs).
    exists s'. split; [done | by apply settles_advances].
Qed.

Lemma steps_Inv s ops s' :
  Inv s → steps s ops s' →
  Inv s' ∧ maxclients (svr_ s') = maxclients (svr_ s).
Proof.
  intros HI Hst. induction Hst as [s|s o s1 ops s2 Hen Hstep Hst IH]; [done|].
  destruct (step_ok s o HI Hen) as (s1' & Hrun & Hadv).
  assert (s1' = s1) as -> by congruence.
  destruct (IH (adv_inv _ _ Hadv)) as [HI2 Hmax].
  split; [done|]. by rewrite Hmax, (adv_maxclients _ _ Hadv).
Qed.


Lemma find_insert_absent (m : StdMap.t) k v :
  StdMap.find m k = None → StdMap.find (StdMap.insert k v m) k = Some v.
Proof.
  induction m as [|[k' v'] m IH]; simpl.
  - by rewrite Z.eqb_refl.
  - destruct (Z.eqb_spec k k') as [->|Hne]; [done|]. intros Hf.
    destruct (Z.ltb_spec k k'); simpl.
    + by rewrite Z.eqb_refl.
    + rewrite (proj2 (Z.eqb_neq k k')) by done. auto.
Qed.

Lemma append_same_nil (a b : string) : a +:+ b = a → b = "".
Proof.
  induction a as [|ch a IH]; simpl; [done|]. intros [= H]. auto.
Qed.

Lemma Redis_SimpleString_nonempty m : Redis_SimpleString m ≠ "".
Proof. done. Qed.

(** * The sample Worker satisfies the invariants *)

Lemma sample_lookups :
  heap sample !! 1%positive = Some alice ∧ heap sample !! 2%positive = Some mona ∧
  heap sample !! 3%positive = Some bob ∧ heap sample !! 4%positive = Some root ∧
  heap sample !! 5%positive = Some eve.
Proof. repeat split; reflexivity. Qed.

Lemma sample_tabled e :
  e ∈ tabled sample →
  e = (7, 1%positive) ∨ e = (9, 3%positive) ∨ e = (5, 2%positive) ∨
  e = (6, 4%positive) ∨ e = (8, 5%positive).
Proof.
  unfold tabled, sample. simpl. rewrite !elem_of_cons.
  intros H. repeat (destruct H as [H|H]; [tauto|]). by apply elem_of_nil in H.
Qed.

Lemma sample_WF : WF sample.
Proof.
  split.
  - unfold StdMap.sorted. simpl. repeat constructor; lia.
  - unfold StdMap.sorted. simpl. repeat constructor; lia.
  - unfold tabled, StdMap.keys. simpl.
    repeat (apply NoDup_cons; split; [rewrite ?elem_of_cons, elem_of_nil; lia|]).
    apply NoDup_nil_2.
  - intros fd p Hin. apply sample_tabled in Hin.
    destruct Hin as [H|[H|[H|[H|H]]]]; simplify_eq; eexists; (split; [reflexivity|done]).
Qed.

Lemma sample_Inv : Inv sample.
Proof.
  split; [apply sample_WF | | simpl; lia].
  intros fd p c Hin Hc. apply sample_tabled in Hin.
  destruct Hin as [H|[H|[H|[H|H]]]]; simplify_eq;
    vm_compute in Hc; by simplify_eq.
Qed.

Lemma sample_InvIds : InvIds sample.
Proof.
  assert (Hids : ∀ fd p c, (fd, p) ∈ tabled sample → heap sample !! p = Some c →
            id_ c = Z.pos p).
  { intros fd p c Hin Hc. apply sample_tabled in Hin.
    destruct Hin as [H|[H|[H|[H|H]]]]; simplify_eq;
      vm_compute in Hc; by simplify_eq. }
  split.
  - simpl. lia.
  - simpl. repeat constructor; lia.
  - simpl. repeat constructor; lia.
  - intros fd p c Hin Hc. rewrite (Hids fd p c Hin Hc). simpl.
    apply sample_tabled in Hin. destruct Hin as [H|[H|[H|[H|H]]]]; simplify_eq; lia.
  - intros fd1 p1 c1 fd2 p2 c2 H1 H2 Hc1 Hc2 Heq.
    rewrite (Hids _ _ _ H1 Hc1), (Hids _ _ _ H2 Hc2) in Heq. by simplify_eq.
Qed.

Lemma sample_full_Inv : Inv sample_full.
Proof.
  pose proof sample_Inv as [[H1 H2 H3 H4] H5 H6].
  split; [by split | done | simpl; lia].
Qed.

Lemma sample_monitor_keys k :
  k ∈ StdMap.keys (monitor_conns_ sample) → k = 5 ∨ k = 6 ∨ k = 8.
Proof.
  unfold StdMap.keys. simpl. rewrite !elem_of_cons.
  intros H. repeat (destruct H as [H|H]; [tauto|]). by apply elem_of_nil in H.
Qed.

(** * The claims *)

(** C1, on the input where its last clause fails.  The client cap of
    [sample_full] is 5 and five clients are connected.  Two more sockets
    are accepted: [AddConnection] rejects both with "max number of clients
    reached" and takes its increment back, as the claim says, but neither
    Connection is destroyed and neither socket is closed, so seven
    Connections are alive under a cap of five, each with its read event
    enabled.  When the peer of one of them has it promoted, the tables
    themselves hold six entries.  The run is one the code permits. *)
Theorem rejected_connections_exceed_cap :
  ∃ s' s'',
    runs sample_full
      [OpNewConnection true 6%positive 11 200 (Some ("10.0.0.6", 5006));
       OpNewConnection true 7%positive 12 201 (Some ("10.0.0.7", 5007))] s' ∧
    maxclients (svr_ s') = 5 ∧
    connected_clients_ (svr_ s') = 5 ∧
    size (heap s') = 7%nat ∧
    (∀ p, p ∈ [6%positive; 7%positive] →
       ∃ c, heap s' !! p = Some c ∧ Z.land (events_ c) EV_READ = EV_READ) ∧
    trace s' = trace sample_full ++
      [EvWrite 11 (Redis_Error "ERR max number of clients reached");
       EvWrite 12 (Redis_Error "ERR max number of clients reached")] ∧
    runs s' [OpBecomeMonitorConn 6%positive] s'' ∧
    length (tabled s'') = 6%nat.
Proof.
  do 2 eexists. split.
  { eapply runs_cons; [|vm_compute; reflexivity|].
    { split; [reflexivity|]. intros H. apply sample_monitor_keys in H. lia. }
    eapply runs_cons; [|vm_compute; reflexivity|apply runs_nil].
    split; [reflexivity|]. intros H. apply sample_monitor_keys in H. lia. }
  split; [reflexivity|]. split; [reflexivity|]. split; [vm_compute; reflexivity|].
  split.
  { intros p Hp. rewrite !elem_of_cons in Hp.
    destruct Hp as [->|[->|Hp]]; [| |by apply elem_of_nil in Hp];
      eexists; (split; [vm_compute; reflexivity|reflexivity]). }
  split; [vm_compute; reflexivity|].
  split.
  { eapply runs_cons; [|vm_compute; reflexivity|apply runs_nil].
    vm_compute. by eexists. }
  vm_compute; reflexivity.
Qed.

(** Whenever the cap is reached and the descriptor is in neither table, the
    accept callback writes the error and closes nothing: the trace grows by
    the one write, the tables are as they were, and the Connection it
    allocated is still allocated. *)
Lemma newConnection_cap_reached s p fd now peer :
  heap s !! p = None →
  StdMap.find (conns_ s) fd = None → StdMap.find (monitor_conns_ s) fd = None →
  connected_clients_ (svr_ s) + 1 > maxclients (svr_ s) →
  ∃ s', newConnection true p fd now peer s = Some (tt, s') ∧
    trace s' = trace s ++ [EvWrite fd (Redis_Error "ERR max number of clients reached")] ∧
    is_Some (heap s' !! p) ∧
    conns_ s' = conns_ s ∧ monitor_conns_ s' = monitor_conns_ s.
Proof.
  intros Hp Hf Hm Hcap. unfold newConnection. simpl.
  rewrite (bind_Some _ _ _ _ _ (alloc_Some p _ s Hp)).
  set (sa := set_heap (<[p := new_Connection fd now]> (heap s)) s).
  assert (Hca : heap sa !! p = Some (new_Connection fd now)) by apply lookup_insert_eq.
  unfold bufferevent_enable at 1.
  rewrite (bind_Some _ _ _ _ _ (update_Some p _ _ sa Hca)).
  set (c0 := set_events (Z.lor (events_ (new_Connection fd now)) EV_READ)
               (new_Connection fd now)).
  set (sb := set_heap (<[p := c0]> (heap sa)) sa).
  assert (Hcb : heap sb !! p = Some c0) by apply lookup_insert_eq.
  rewrite (bind_Some _ _ _ _ _ (AddConnection_full sb p c0 Hcb Hf Hcap)).
  destruct (SetAddr_peer sb p c0 peer Hcb) as (sc & Hrun & Hmc & Htr & c1 & Hc1 & Hfd1).
  rewrite (bind_Some _ _ _ _ _ Hrun). simpl.
  unfold sys_write at 1.
  set (sd := set_trace
               (trace sc ++ [EvWrite fd (Redis_Error "ERR max number of clients reached")]) sc).
  exists sd. split.
  - unfold mbind at 1, M_bind at 1, modify at 1. fold sd.
    assert (Hgd : GetFD p sd = Some (fd, sd)).
    { unfold GetFD. rewrite (bind_Some _ _ _ _ _ (deref_Some p c1 sd Hc1)).
      unfold mret, M_ret. by rewrite Hfd1. }
    rewrite (bind_Some _ _ _ _ _ Hgd).
    apply RemoveConnection_absent; simpl.
    + by rewrite (mu_conns _ _ Hmc).
    + by rewrite (mu_monitor _ _ Hmc).
  - simpl. rewrite Htr. split; [done|]. split; [by exists c1|].
    by rewrite (mu_conns _ _ Hmc), (mu_monitor _ _ Hmc).
Qed.

(** On a descriptor that is already a key of the normal table, the accept
    callback writes the error and its [RemoveConnection] destroys the
    Connection that holds the entry, not the one it has just rejected. *)
Example newConnection_duplicate_fd :
  ∃ s',
    newConnection true 6%positive 7 200 None sample = Some (tt, s') ∧
    trace s' = trace sample ++ [EvWrite 7 (Redis_Error "ERR connection was exists"); EvClose 7] ∧
    heap s' !! 1%positive = None ∧
    is_Some (heap s' !! 6%positive) ∧
    tabled s' = [(9, 3%positive); (5, 2%positive); (6, 4%positive); (8, 5%positive)].
Proof.
  eexists. split; [vm_compute; reflexivity|].
  repeat split; try (vm_compute; reflexivity). by eexists.
Qed.

(** C2, on the input where it fails.  The client cap of [sample_full] is
    reached.  [newConnection] for a socket accepted on descriptor 11 writes
    the one RESP error and calls [RemoveConnection(11)], which finds no
    entry: nothing closes descriptor 11, and the Connection allocated for
    it stays allocated. *)
Theorem newConnection_cap_reached_socket_left_open :
  ∃ s',
    newConnection true 6%positive 11 200 (Some ("10.0.0.6", 5006)) sample_full =
      Some (tt, s') ∧
    writes_of 11 (trace s') = [Redis_Error "ERR max number of clients reached"] ∧
    closes_of 11 (trace s') = [] ∧
    is_Some (heap s' !! 6%positive) ∧
    tabled s' = tabled sample_full.
Proof.
  eexists. split; [vm_compute; reflexivity|].
  repeat split; try (vm_compute; reflexivity). by eexists.
Qed.





(** C8, on the input where it fails.  With the cap of [sample_full]
    reached, the Connection allocated for the socket accepted on
    descriptor 11 is rejected and the callback returns: the Connection is
    alive, its read event enabled, and it is in neither table, so it is in
    none of the three places the claim allows. *)
Theorem rejected_connection_in_no_table :
  ∃ s' c,
    runs sample_full
      [OpNewConnection true 6%positive 11 200 (Some ("10.0.0.6", 5006))] s' ∧
    heap s' !! 6%positive = Some c ∧ fd_ c = 11 ∧
    Z.land (events_ c) EV_READ = EV_READ ∧
    ¬ in_normal s' 6%positive ∧ ¬ in_monitor s' 6%positive ∧
    ¬ destroyed s' 6%positive ∧
    ¬ exactly_one s' 6%positive.
Proof.
  do 2 eexists. split.
  { eapply runs_cons; [|vm_compute; reflexivity|apply runs_nil].
    split; [reflexivity|]. intros H. apply sample_monitor_keys in H. lia. }
  split; [vm_compute; reflexivity|]. split; [reflexivity|]. split; [reflexivity|].
  assert (H1 : ∀ l : list ptr, l = [1%positive; 3%positive] → 6%positive ∉ l).
  { intros l ->. rewrite !not_elem_of_cons. repeat split; try done.
    apply not_elem_of_nil. }
  assert (H2 : ∀ l : list ptr, l = [2%positive; 4%positive; 5%positive] → 6%positive ∉ l).
  { intros l ->. rewrite !not_elem_of_cons. repeat split; try done.
    apply not_elem_of_nil. }
  unfold exactly_one, in_normal, in_monitor, destroyed.
  split; [by apply H1|]. split; [by apply H2|].
  split; [vm_compute; discriminate|].
  intros [(Ha & _)|[(_ & Hb & _)|(_ & _ & Hc)]].
  - by eapply H1.
  - by eapply H2.
  - vm_compute in Hc. discriminate.
Qed.

(** C9. [Reply] and [EnableWriteEvent] look the descriptor up in the normal
    table only.  Once [BecomeMonitorConn] has moved a Connection to the
    monitor table, and for as long as it is there, both return a not-OK
    status and change nothing: not the Connection's output buffer, not its
    event mask, nor anything else. *)
Theorem reply_skips_monitors s fd p :
  Inv s → (fd, p) ∈ conns_ s →
  ∃ s', BecomeMonitorConn p s = Some (tt, s') ∧
    (fd, p) ∈ monitor_conns_ s' ∧
    ∀ ops s'' bytes,
      steps s' ops s'' → (fd, p) ∈ monitor_conns_ s'' →
      Reply fd bytes s'' = Some (mkStatus NotOK "connection doesn't exist", s'') ∧
      EnableWriteEvent fd s'' = Some (mkStatus NotOK "", s'').
Proof.
  intros HI Hin. pose proof (inv_wf _ HI) as Hwf.
  assert (Htab : (fd, p) ∈ tabled s) by (apply tabled_elem; by left).
  destruct (wf_live _ Hwf _ _ Htab) as (c & Hc & Hfd). subst fd.
  exists (promoted p c s). split; [by apply BecomeMonitorConn_promoted|].
  destruct (promoted_ok s p c HI) as (HI' & _ & _); [by eapply elem_ptrs | done |].
  split.
  - simpl. apply elem_assign; [apply Hwf | by left].
  - intros ops s'' bytes Hst Hmon.
    destruct (steps_Inv _ _ _ HI' Hst) as [HI'' _].
    assert (Hf : StdMap.find (conns_ s'') (fd_ c) = None).
    { apply find_None_keys. intros Hk.
      eapply (WF_keys_disjoint s'' (fd_ c)); [apply HI'' | done | by eapply elem_keys]. }
    split; [by apply Reply_absent | by apply EnableWriteEvent_absent].
Qed.

Lemma reply_skips_monitors_witness :
  Inv sample ∧ (7, 1%positive) ∈ conns_ sample ∧
  ∃ s', BecomeMonitorConn 1%positive sample = Some (tt, s') ∧
    (7, 1%positive) ∈ monitor_conns_ s' ∧
    ∀ ops s'' bytes,
      steps s' ops s'' → (7, 1%positive) ∈ monitor_conns_ s'' →
      Reply 7 bytes s'' = Some (mkStatus NotOK "connection doesn't exist", s'') ∧
      EnableWriteEvent 7 s'' = Some (mkStatus NotOK "", s'').
Proof.
  assert (Hin : (7, 1%positive) ∈ conns_ sample) by (simpl; by left).
  split; [apply sample_Inv|]. split; [exact Hin|].
  exact (reply_skips_monitors sample 7 1%positive sample_Inv Hin).
Defined.

(** C4. [FeedMonitorConns(conn, tokens)] appends the composed line, as a
    RESP simple string, to the output buffer of a Connection [m] of the
    monitor table if and only if [m] is not [conn] itself and [m]'s
    namespace is [conn]'s or the default one; every other monitor is left
    as it was, and so is [conn]. *)
Theorem feed_monitors_filter s tv_sec tv_usec conn tokens src :
  WF s → heap s !! conn = Some src →
  ∃ s', FeedMonitorConns tv_sec tv_usec conn tokens s = Some (tt, s') ∧
    (∀ fd m c, (fd, m) ∈ monitor_conns_ s → heap s !! m = Some c →
       ∃ c', heap s' !! m = Some c' ∧
         (output_ c' =
            output_ c +:+ Redis_SimpleString (feed_line tv_sec tv_usec (addr_ src) tokens) ↔
          m ≠ conn ∧ (ns_ c = ns_ src ∨ ns_ c = kDefaultNamespace)) ∧
         (¬ (m ≠ conn ∧ (ns_ c = ns_ src ∨ ns_ c = kDefaultNamespace)) → c' = c)) ∧
    heap s' !! conn = Some src.
Proof.
  intros Hwf Hsrc.
  destruct (FeedMonitorConns_spec s tv_sec tv_usec conn tokens src Hwf Hsrc)
    as (s' & Hrun & _ & _ & _ & _ & _ & Hheap).
  exists s'. split; [done|]. split.
  - intros fd m c Hin Hc. rewrite Hheap, Hc. simpl.
    rewrite bool_decide_true by by eapply elem_ptrs.
    assert (Hiff : feed_receives conn src m c = true ↔
              m ≠ conn ∧ (ns_ c = ns_ src ∨ ns_ c = kDefaultNamespace)).
    { unfold feed_receives.
      rewrite andb_true_iff, orb_true_iff, !bool_decide_eq_true. done. }
    simpl. eexists. split; [done|].
    destruct (feed_receives conn src m c).
    + split; [|tauto]. split; [by intros _; apply Hiff | done].
    + split; [|done]. split; [|intros H; apply Hiff in H; done].
      intros H. symmetry in H. apply append_same_nil in H. done.
  - rewrite Hheap, Hsrc. simpl. unfold feed_receives.
    rewrite (bool_decide_false (conn ≠ conn)) by (intros H; by apply H).
    by rewrite andb_false_r.
Qed.

Lemma feed_monitors_filter_witness :
  WF sample ∧ heap sample !! 1%positive = Some alice ∧
  ∃ s', FeedMonitorConns 1700000000 250 1%positive ["SET"; "k"; "v"] sample = Some (tt, s') ∧
    (∀ fd m c, (fd, m) ∈ monitor_conns_ sample → heap sample !! m = Some c →
       ∃ c', heap s' !! m = Some c' ∧
         (output_ c' =
            output_ c +:+
              Redis_SimpleString (feed_line 1700000000 250 (addr_ alice) ["SET"; "k"; "v"]) ↔
          m ≠ 1%positive ∧ (ns_ c = ns_ alice ∨ ns_ c = kDefaultNamespace)) ∧
         (¬ (m ≠ 1%positive ∧ (ns_ c = ns_ alice ∨ ns_ c = kDefaultNamespace)) → c' = c)) ∧
    heap s' !! 1%positive = Some alice.
Proof.
  split; [apply sample_WF|]. split; [reflexivity|].
  exact (feed_monitors_filter sample 1700000000 250 1%positive ["SET"; "k"; "v"] alice
           sample_WF eq_refl).
Defined.

Lemma sample_idle_in_range : idle_in_range 200 sample.
Proof.
  intros fd p c Hin Hc. simpl in Hin. rewrite !elem_of_cons in Hin.
  destruct Hin as [H|[H|H]]; [| |by apply elem_of_nil in H]; simplify_eq;
    vm_compute in Hc; simplify_eq; simpl; lia.
Qed.

Lemma land_lor_absorb a b : Z.land (Z.lor a b) b = b.
Proof.
  apply Z.bits_inj'. intros n Hn. rewrite Z.land_spec, Z.lor_spec.
  by destruct (Z.testbit a n), (Z.testbit b n).
Qed.

(** C6. [KillClient] sets [kCloseAfterReply] and enables the write event
    on exactly the Connections of the normal table that pass the filter (by
    addr or by id) and are not the caller when [skipme] is set; every
    other Connection is left as it was, the caller in particular when
    [skipme] is set; and [*killed] grows by the number of Connections
    hit. *)
Theorem kill_flags_exactly_the_matches s self id addr skipme killed :
  WF s →
  ∃ s', KillClient self id addr skipme killed s =
          Some (killed + Z.of_nat (count_entries (kill_target (heap s) self id addr skipme)
                                     (conns_ s)), s') ∧
    (∀ fd p c, (fd, p) ∈ conns_ s → heap s !! p = Some c →
       heap s' !! p = Some (if kill_hits self id addr skipme p c then kill_mark c else c)) ∧
    (∀ p, p ∉ StdMap.ptrs (conns_ s) → heap s' !! p = heap s !! p) ∧
    (skipme = true → heap s' !! self = heap s !! self) ∧
    (∀ c, Z.land (flags_ (kill_mark c)) kCloseAfterReply = kCloseAfterReply ∧
          Z.land (events_ (kill_mark c)) EV_WRITE = EV_WRITE) ∧
    conns_ s' = conns_ s ∧ monitor_conns_ s' = monitor_conns_ s.
Proof.
  intros Hwf.
  destruct (KillClient_spec s self id addr skipme killed Hwf)
    as (s' & Hrun & _ & Hconns & Hmon & _ & _ & Hheap).
  exists s'. split; [done|]. repeat split; try done.
  - intros fd p c Hin Hc. rewrite Hheap, Hc. simpl.
    by rewrite bool_decide_true by by eapply elem_ptrs.
  - intros p Hp. rewrite Hheap. rewrite bool_decide_false by done.
    by destruct (heap s !! p).
  - intros ->. rewrite Hheap. destruct (heap s !! self) as [c|]; [|done]. simpl.
    unfold kill_hits. rewrite (bool_decide_true (self = self)) by done. simpl.
    by rewrite andb_false_r.
  - apply land_lor_absorb.
  - apply land_lor_absorb.
Qed.

Lemma kill_flags_exactly_the_matches_witness :
  WF sample ∧
  ∃ s', KillClient 3%positive 0 "10.0.0.1:5001" true 0 sample =
          Some (0 + Z.of_nat (count_entries
                                (kill_target (heap sample) 3%positive 0 "10.0.0.1:5001" true)
                                (conns_ sample)), s') ∧
    (∀ fd p c, (fd, p) ∈ conns_ sample → heap sample !! p = Some c →
       heap s' !! p =
         Some (if kill_hits 3%positive 0 "10.0.0.1:5001" true p c then kill_mark c else c)) ∧
    (∀ p, p ∉ StdMap.ptrs (conns_ sample) → heap s' !! p = heap sample !! p) ∧
    (true = true → heap s' !! 3%positive = heap sample !! 3%positive) ∧
    (∀ c, Z.land (flags_ (kill_mark c)) kCloseAfterReply = kCloseAfterReply ∧
          Z.land (events_ (kill_mark c)) EV_WRITE = EV_WRITE) ∧
    conns_ s' = conns_ sample ∧ monitor_conns_ s' = monitor_conns_ sample.
Proof.
  split; [apply sample_WF|].
  exact (kill_flags_exactly_the_matches sample 3%positive 0 "10.0.0.1:5001" true 0
           sample_WF).
Defined.

Lemma KillClient_loop_no_filter l self skipme killed s :
  KillClient_loop l self 0 "" skipme killed s = Some (killed, s).
Proof.
  induction l as [|[fd q] l IH]; simpl; [done|].
  destruct (skipme && bool_decide (self = q)); [done|].
  by rewrite (bind_Some _ _ _ _ _ (kill_matches_no_filter s q)).
Qed.

(** C10. The test of [KillClient] compares ids only when the requested id
    is not 0 and addresses only when the requested address is not empty;
    with id 0 and an empty address [KillClient] flags nobody and leaves
    [*killed] as it was. *)
Theorem kill_needs_a_filter :
  (∀ s conn c id addr,
     heap s !! conn = Some c →
     kill_matches conn id addr s =
       Some ((bool_decide (addr ≠ "") && bool_decide (addr_ c = addr)) ||
             (bool_decide (id ≠ 0) && bool_decide (id_ c = id)), s)) ∧
  (∀ s self skipme killed,
     KillClient self 0 "" skipme killed s = Some (killed, s)).
Proof.
  split.
  - intros s conn c id addr Hc. by apply kill_matches_live.
  - intros s self skipme killed. unfold KillClient.
    assert (Hg : gets conns_ s = Some (conns_ s, s)) by done.
    rewrite (bind_Some _ _ _ _ _ Hg). apply KillClient_loop_no_filter.
Qed.

(** * Further properties of the Worker *)

(** ** Removal *)

Lemma erase_insert_absent (m : StdMap.t) k v :
  StdMap.find m k = None → StdMap.erase k (StdMap.insert k v m) = m.
Proof.
  induction m as [|[k' v'] m IH]; simpl.
  - by rewrite Z.eqb_refl.
  - destruct (Z.eqb_spec k k') as [->|Hne]; [done|]. intros Hf.
    destruct (Z.ltb_spec k k'); simpl.
    + rewrite Z.eqb_refl, (proj2 (Z.eqb_neq k k')) by done.
      f_equal. by apply erase_absent.
    + rewrite (proj2 (Z.eqb_neq k k')) by done. f_equal. auto.
Qed.

Lemma WF_tabled_key s fd :
  WF s → fd ∈ StdMap.keys (tabled s) →
  ∃ p c, (fd, p) ∈ tabled s ∧ heap s !! p = Some c ∧ fd_ c = fd ∧
    (StdMap.find (conns_ s) fd = Some p ∧ StdMap.find (monitor_conns_ s) fd = None ∨
     StdMap.find (conns_ s) fd = None ∧ StdMap.find (monitor_conns_ s) fd = Some p).
Proof.
  intros Hwf [p Hin]%keys_elem.
  destruct (wf_live _ Hwf _ _ Hin) as (c & Hc & Hfd).
  exists p, c. repeat split; try done.
  apply tabled_elem in Hin as [Hin|Hin].
  - left. apply (elem_find _ _ _ (sorted_NoDup _ (wf_conns _ Hwf))) in Hin.
    split; [done | by eapply WF_find_exclusive].
  - right. apply (elem_find _ _ _ (sorted_NoDup _ (wf_monitor _ Hwf))) in Hin.
    split; [by eapply WF_find_exclusive | done].
Qed.

Lemma not_tabled_key s fd :
  fd ∉ StdMap.keys (tabled s) →
  StdMap.find (conns_ s) fd = None ∧ StdMap.find (monitor_conns_ s) fd = None.
Proof.
  rewrite tabled_keys, not_elem_of_app. intros [H1 H2].
  split; by apply find_None_keys.
Qed.

(** X1. [RemoveConnection(fd)] leaves [fd] in neither table and every other
    entry where it was; it closes the socket and takes one off the client
    count exactly when [fd] was a key; called again, it changes nothing. *)
Theorem RemoveConnection_removes s fd :
  Inv s →
  ∃ s', RemoveConnection fd s = Some (tt, s') ∧
    StdMap.find (conns_ s') fd = None ∧ StdMap.find (monitor_conns_ s') fd = None ∧
    (∀ e, e ∈ tabled s' ↔ e ∈ tabled s ∧ e.1 ≠ fd) ∧
    connected_clients_ (svr_ s') =
      connected_clients_ (svr_ s) -
      (if bool_decide (fd ∈ StdMap.keys (tabled s)) then 1 else 0) ∧
    trace s' =
      trace s ++ (if bool_decide (fd ∈ StdMap.keys (tabled s)) then [EvClose fd] else []) ∧
    RemoveConnection fd s' = Some (tt, s').
Proof.
  intros HI. pose proof (inv_wf _ HI) as Hwf.
  destruct (decide (fd ∈ StdMap.keys (tabled s))) as [Hk|Hk].
  - rewrite bool_decide_true by done.
    destruct (WF_tabled_key s fd Hwf Hk) as (p & c & Hin & Hc & Hfd & [[Hf Hm]|[Hf Hm]]).
    + exists (erased_normal fd p c s).
      split; [by apply RemoveConnection_normal|]. simpl.
      split; [apply find_erase|]. split; [done|]. split; [|split; [done|]].
      * intros e. rewrite !tabled_elem. simpl. rewrite elem_erase.
        split; [intros [[? ?]|?]; [tauto|] | tauto].
        split; [tauto|]. intros Heq. destruct e as [k q]. simpl in Heq. subst k.
        apply find_None_keys in Hm. apply Hm. by eapply elem_keys.
      * rewrite Hfd. split; [done|].
        apply RemoveConnection_absent; simpl; [apply find_erase | done].
    + exists (erased_monitor fd p c s).
      split; [by apply RemoveConnection_monitor|]. simpl.
      split; [done|]. split; [apply find_erase|]. split; [|split; [done|]].
      * intros e. rewrite !tabled_elem. simpl. rewrite elem_erase.
        split; [intros [?|[? ?]]; [|tauto] | tauto].
        split; [tauto|]. intros Heq. destruct e as [k q]. simpl in Heq. subst k.
        apply find_None_keys in Hf. apply Hf. by eapply elem_keys.
      * rewrite Hfd. split; [done|].
        apply RemoveConnection_absent; simpl; [done | apply find_erase].
  - rewrite bool_decide_false by done.
    destruct (not_tabled_key s fd Hk) as [Hf Hm].
    exists s. split; [by apply RemoveConnection_absent|].
    split; [done|]. split; [done|]. split; [|split; [lia|]].
    + intros e. split; [|tauto]. intros He. split; [done|].
      intros Heq. apply Hk. destruct e as [k q]. simpl in Heq. subst k.
      by eapply elem_keys.
    + rewrite app_nil_r. split; [done | by apply RemoveConnection_absent].
Qed.

Lemma RemoveConnection_removes_witness :
  Inv sample ∧
  ∃ s', RemoveConnection 5 sample = Some (tt, s') ∧
    StdMap.find (conns_ s') 5 = None ∧ StdMap.find (monitor_conns_ s') 5 = None ∧
    (∀ e, e ∈ tabled s' ↔ e ∈ tabled sample ∧ e.1 ≠ 5) ∧
    connected_clients_ (svr_ s') =
      connected_clients_ (svr_ sample) -
      (if bool_decide (5 ∈ StdMap.keys (tabled sample)) then 1 else 0) ∧
    trace s' =
      trace sample ++
      (if bool_decide (5 ∈ StdMap.keys (tabled sample)) then [EvClose 5] else []) ∧
    RemoveConnection 5 s' = Some (tt, s').
Proof.
  split; [apply sample_Inv|]. exact (RemoveConnection_removes sample 5 sample_Inv).
Defined.

(** X2. [RemoveConnectionByID(fd, id)] guards against a reused descriptor:
    when the Connection found at [fd] carries [id] it does what
    [RemoveConnection(fd)] does, when it carries another id nothing
    changes, and nothing changes either when [fd] is in neither table. *)
Theorem RemoveConnectionByID_guards_reuse s fd id :
  WF s →
  (∀ p c, (fd, p) ∈ tabled s → heap s !! p = Some c →
     RemoveConnectionByID fd id s =
       if bool_decide (id_ c = id) then RemoveConnection fd s else Some (tt, s)) ∧
  (fd ∉ StdMap.keys (tabled s) → RemoveConnectionByID fd id s = Some (tt, s)).
Proof.
  intros Hwf. split.
  - intros p c Hin Hc.
    destruct (WF_tabled_key s fd Hwf) as (p' & c' & Hin' & Hc' & Hfd & Hcase);
      [by eapply elem_keys|].
    assert (p' = p) as -> by by eapply (key_unique s fd).
    assert (c' = c) as -> by congruence.
    destruct Hcase as [[Hf Hm]|[Hf Hm]].
    + rewrite (RemoveConnectionByID_normal s fd id p c Hf Hc Hm).
      case_bool_decide; [|done]. symmetry. by apply RemoveConnection_normal.
    + rewrite (RemoveConnectionByID_monitor s fd id p c Hf Hm Hc).
      case_bool_decide; [|done]. symmetry. by apply RemoveConnection_monitor.
  - intros Hk. destruct (not_tabled_key s fd Hk) as [Hf Hm].
    by apply RemoveConnectionByID_absent.
Qed.

Lemma RemoveConnectionByID_guards_reuse_witness :
  WF sample ∧
  (∀ p c, (7, p) ∈ tabled sample → heap sample !! p = Some c →
     RemoveConnectionByID 7 4 sample =
       if bool_decide (id_ c = 4) then RemoveConnection 7 sample else Some (tt, sample)) ∧
  (7 ∉ StdMap.keys (tabled sample) → RemoveConnectionByID 7 4 sample = Some (tt, sample)).
Proof.
  split; [apply sample_WF|]. exact (RemoveConnectionByID_guards_reuse sample 7 4 sample_WF).
Defined.

(** X3. Admission followed by removal is a round trip on the tables and the
    client count: after [AddConnection(c)] has admitted [c],
    [RemoveConnection] on its descriptor gives back both tables and the
    count as they were; the Connection is destroyed, its socket closed, and
    the id it was given is not given back. *)
Theorem admit_then_remove s c conn :
  heap s !! c = Some conn →
  StdMap.find (conns_ s) (fd_ conn) = None →
  StdMap.find (monitor_conns_ s) (fd_ conn) = None →
  connected_clients_ (svr_ s) + 1 ≤ maxclients (svr_ s) →
  ∃ s', (AddConnection c;; RemoveConnection (fd_ conn)) s = Some (tt, s') ∧
    conns_ s' = conns_ s ∧ monitor_conns_ s' = monitor_conns_ s ∧
    connected_clients_ (svr_ s') = connected_clients_ (svr_ s) ∧
    heap s' = delete c (heap s) ∧
    trace s' = trace s ++ [EvSetID (client_id_ (svr_ s)); EvClose (fd_ conn)] ∧
    client_id_ (svr_ s') = (client_id_ (svr_ s) + 1) mod 2 ^ 64.
Proof.
  intros Hc Hf Hm Hcap.
  rewrite (bind_Some _ _ _ _ _ (AddConnection_admitted s c conn Hc Hf Hcap)).
  eexists. split.
  - apply (RemoveConnection_normal _ _ c (set_id (client_id_ (svr_ s)) conn)); simpl.
    + by apply find_insert_absent.
    + apply lookup_insert_eq.
    + done.
  - simpl. rewrite erase_insert_absent by done. rewrite delete_insert_eq.
    rewrite <- app_assoc. repeat split; try done. lia.
Qed.

Lemma admit_then_remove_witness :
  heap sample_pending !! 6%positive = Some (new_Connection 11 200) ∧
  StdMap.find (conns_ sample_pending) (fd_ (new_Connection 11 200)) = None ∧
  StdMap.find (monitor_conns_ sample_pending) (fd_ (new_Connection 11 200)) = None ∧
  connected_clients_ (svr_ sample_pending) + 1 ≤ maxclients (svr_ sample_pending) ∧
  ∃ s', (AddConnection 6%positive;; RemoveConnection (fd_ (new_Connection 11 200)))
          sample_pending = Some (tt, s') ∧
    conns_ s' = conns_ sample_pending ∧ monitor_conns_ s' = monitor_conns_ sample_pending ∧
    connected_clients_ (svr_ s') = connected_clients_ (svr_ sample_pending) ∧
    heap s' = delete 6%positive (heap sample_pending) ∧
    trace s' = trace sample_pending ++
               [EvSetID (client_id_ (svr_ sample_pending));
                EvClose (fd_ (new_Connection 11 200))] ∧
    client_id_ (svr_ s') = (client_id_ (svr_ sample_pending) + 1) mod 2 ^ 64.
Proof.
  assert (H4 : connected_clients_ (svr_ sample_pending) + 1 ≤
               maxclients (svr_ sample_pending)) by (vm_compute; discriminate).
  split; [reflexivity|]. split; [reflexivity|]. split; [reflexivity|]. split; [exact H4|].
  exact (admit_then_remove sample_pending 6%positive (new_Connection 11 200)
           eq_refl eq_refl eq_refl H4).
Defined.

(** ** The destructor *)

Lemma GetFD_Some p c s : heap s !! p = Some c → GetFD p s = Some (fd_ c, s).
Proof.
  intros Hc. unfold GetFD. by rewrite (bind_Some _ _ _ _ _ (deref_Some p c s Hc)).
Qed.

Lemma destructor_loop (l : StdMap.t) :
  ∀ s, Inv s → conns_ s = l →
  ∃ s', for_each l.*2 (λ iter, fd ← GetFD iter; RemoveConnection fd) s = Some (tt, s') ∧
    Inv s' ∧ conns_ s' = [] ∧ monitor_conns_ s' = monitor_conns_ s ∧
    connected_clients_ (svr_ s') = connected_clients_ (svr_ s) - Z.of_nat (length l) ∧
    monitor_clients_ (svr_ s') = monitor_clients_ (svr_ s) ∧
    (∀ p, p ∈ l.*2 → heap s' !! p = None) ∧
    (∀ p, p ∉ l.*2 → heap s' !! p = heap s !! p) ∧
    trace s' = trace s ++ (EvClose <$> l.*1).
Proof.
  induction l as [|[fd p] l IH]; intros s HI Hl.
  - exists s. simpl. rewrite app_nil_r.
    split; [done|]. split; [done|]. split; [done|]. split; [done|].
    split; [lia|]. split; [done|]. split; [|done].
    intros p Hp. by apply elem_of_nil in Hp.
  - pose proof (inv_wf _ HI) as Hwf.
    assert (Hin : (fd, p) ∈ conns_ s) by (rewrite Hl; by left).
    assert (Hf : StdMap.find (conns_ s) fd = Some p).
    { by apply elem_find; [apply sorted_NoDup, Hwf|]. }
    destruct (WF_find_live s fd p Hwf) as (c & Hc & Hfd); [by left|].
    assert (Hm : StdMap.find (monitor_conns_ s) fd = None) by by eapply WF_find_exclusive.
    destruct (erased_normal_ok s fd p c HI Hf Hc) as (HI1 & _ & _).
    assert (Hrun : (fd ← GetFD p; RemoveConnection fd) s = Some (tt, erased_normal fd p c s)).
    { rewrite (bind_Some _ _ _ _ _ (GetFD_Some p c s Hc)), Hfd.
      by apply RemoveConnection_normal. }
    assert (Hl1 : conns_ (erased_normal fd p c s) = l).
    { simpl. rewrite Hl. simpl. rewrite Z.eqb_refl. apply erase_absent.
      apply find_None_keys. pose proof (sorted_NoDup _ (wf_conns _ Hwf)) as Hnd.
      rewrite Hl in Hnd. unfold StdMap.keys in Hnd. simpl in Hnd.
      by apply NoDup_cons in Hnd as [? _]. }
    destruct (IH _ HI1 Hl1) as (s' & Hrun' & HI' & H1 & H2 & H3 & H4 & H5 & H6 & H7).
    assert (Hp : p ∉ l.*2).
    { destruct (WF_ptrs_NoDup s Hwf) as [Hnd _]. unfold StdMap.ptrs in Hnd.
      rewrite Hl in Hnd. simpl in Hnd. by apply NoDup_cons in Hnd as [? _]. }
    exists s'. split.
    { change (((fd, p) :: l).*2) with (p :: l.*2).
      by rewrite (for_each_cons p (l.*2) (λ iter, fd ← GetFD iter; RemoveConnection fd)
                    s (erased_normal fd p c s) Hrun). }
    split; [done|]. split; [done|]. split; [done|].
    split; [rewrite H3; simpl; lia|]. split; [done|]. split; [|split].
    + intros q [->|Hq]%elem_of_cons; [|auto].
      rewrite H6 by done. simpl. apply lookup_delete_eq.
    + intros q Hq. simpl in Hq. apply not_elem_of_cons in Hq as [Hne Hq].
      rewrite H6 by done. simpl. by apply lookup_delete_ne.
    + rewrite H7. simpl. rewrite Hfd, <- app_assoc. done.
Qed.

(** X4. The destructor of a Worker destroys every Connection of the normal
    table, closing their sockets in descriptor order and taking them off
    the client count, and empties that table.  It does not look at the
    monitor table: the monitors stay allocated, in their table and in the
    counts. *)
Theorem Worker_destructor_purges s :
  Inv s →
  ∃ s', Worker_destructor s = Some (tt, s') ∧
    conns_ s' = [] ∧ monitor_conns_ s' = monitor_conns_ s ∧
    (∀ fd p, (fd, p) ∈ conns_ s → heap s' !! p = None) ∧
    (∀ fd p, (fd, p) ∈ monitor_conns_ s → heap s' !! p = heap s !! p) ∧
    connected_clients_ (svr_ s') =
      connected_clients_ (svr_ s) - Z.of_nat (length (conns_ s)) ∧
    monitor_clients_ (svr_ s') = monitor_clients_ (svr_ s) ∧
    trace s' = trace s ++ (EvClose <$> StdMap.keys (conns_ s)).
Proof.
  intros HI. unfold Worker_destructor.
  assert (Hg : gets (λ s, (conns_ s).*2) s = Some ((conns_ s).*2, s)) by done.
  rewrite (bind_Some _ _ _ _ _ Hg).
  destruct (destructor_loop (conns_ s) s HI eq_refl)
    as (s' & Hrun & _ & H1 & H2 & H3 & H4 & H5 & H6 & H7).
  exists s'. repeat split; try done.
  - intros fd p Hin. apply H5. by apply (elem_ptrs (conns_ s) fd).
  - intros fd p Hin. apply H6. intros Hp.
    destruct (exactly_one_tabled s p (inv_wf _ HI)) as [(_ & Hn & _)|[(Hn & _)|(_ & Hn & _)]].
    + apply tabled_ptrs. right. by eapply elem_ptrs.
    + apply Hn. by eapply elem_ptrs.
    + by apply Hn.
    + apply Hn. by eapply elem_ptrs.
Qed.

Lemma Worker_destructor_purges_witness :
  Inv sample ∧
  ∃ s', Worker_destructor sample = Some (tt, s') ∧
    conns_ s' = [] ∧ monitor_conns_ s' = monitor_conns_ sample ∧
    (∀ fd p, (fd, p) ∈ conns_ sample → heap s' !! p = None) ∧
    (∀ fd p, (fd, p) ∈ monitor_conns_ sample → heap s' !! p = heap sample !! p) ∧
    connected_clients_ (svr_ s') =
      connected_clients_ (svr_ sample) - Z.of_nat (length (conns_ sample)) ∧
    monitor_clients_ (svr_ s') = monitor_clients_ (svr_ sample) ∧
    trace s' = trace sample ++ (EvClose <$> StdMap.keys (conns_ sample)).
Proof.
  split; [apply sample_Inv|]. exact (Worker_destructor_purges sample sample_Inv).
Defined.

(** ** Replies from another thread *)

Lemma append_assoc (a b c : string) : (a +:+ b) +:+ c = a +:+ b +:+ c.
Proof.
  induction a as [|ch a IH]; [done|].
  change (String ch ((a +:+ b) +:+ c) = String ch (a +:+ b +:+ c)). by f_equal.
Qed.

(** X5. Two calls of [Reply] on a descriptor of the normal table queue
    their bytes in call order: they leave the Worker as one call with the
    concatenation does, with the bytes at the end of what the output buffer
    held. *)
Theorem Reply_appends_in_order s fd p c a b :
  StdMap.find (conns_ s) fd = Some p → heap s !! p = Some c →
  (Reply fd a;; Reply fd b) s = Reply fd (a +:+ b) s ∧
  ∃ s' c', Reply fd (a +:+ b) s = Some (Status_OK, s') ∧
    heap s' !! p = Some c' ∧ output_ c' = output_ c +:+ a +:+ b ∧
    (∀ q, q ≠ p → heap s' !! q = heap s !! q) ∧
    conns_ s' = conns_ s ∧ monitor_conns_ s' = monitor_conns_ s ∧ trace s' = trace s.
Proof.
  intros Hf Hc. split.
  - rewrite (bind_Some _ _ _ _ _ (Reply_found s fd a p c Hf Hc)).
    rewrite (Reply_found _ fd b p (set_output (output_ c +:+ a) c));
      [|done|apply lookup_insert_eq].
    rewrite (Reply_found s fd (a +:+ b) p c Hf Hc). simpl.
    by rewrite insert_insert_eq, append_assoc.
  - do 2 eexists. split; [by apply Reply_found|]. simpl.
    split; [apply lookup_insert_eq|]. split; [done|]. split; [|done].
    intros q Hq. by apply lookup_insert_ne.
Qed.

Lemma Reply_appends_in_order_witness :
  StdMap.find (conns_ sample) 7 = Some 1%positive ∧ heap sample !! 1%positive = Some alice ∧
  (Reply 7 "+OK" ;; Reply 7 "+PONG") sample = Reply 7 ("+OK" +:+ "+PONG") sample ∧
  ∃ s' c', Reply 7 ("+OK" +:+ "+PONG") sample = Some (Status_OK, s') ∧
    heap s' !! 1%positive = Some c' ∧ output_ c' = output_ alice +:+ "+OK" +:+ "+PONG" ∧
    (∀ q, q ≠ 1%positive → heap s' !! q = heap sample !! q) ∧
    conns_ s' = conns_ sample ∧ monitor_conns_ s' = monitor_conns_ sample ∧
    trace s' = trace sample.
Proof.
  split; [reflexivity|]. split; [reflexivity|].
  exact (Reply_appends_in_order sample 7 1%positive alice "+OK" "+PONG" eq_refl eq_refl).
Defined.

Lemma lor_twice a b : Z.lor (Z.lor a b) b = Z.lor a b.
Proof. by rewrite <- Z.lor_assoc, Z.lor_diag. Qed.

(** X6. [Reply] and [EnableWriteEvent] on a descriptor of the normal table
    can be called in either order: both orders queue the bytes and enable
    the write event; and enabling the write event twice is enabling it
    once. *)
Theorem Reply_EnableWriteEvent_commute s fd p c bytes :
  StdMap.find (conns_ s) fd = Some p → heap s !! p = Some c →
  (Reply fd bytes;; EnableWriteEvent fd) s = (EnableWriteEvent fd;; Reply fd bytes) s ∧
  (Reply fd bytes;; EnableWriteEvent fd) s =
    Some (Status_OK,
          set_heap (<[p := set_events (Z.lor (events_ c) EV_WRITE)
                             (set_output (output_ c +:+ bytes) c)]> (heap s)) s) ∧
  (EnableWriteEvent fd;; EnableWriteEvent fd) s = EnableWriteEvent fd s.
Proof.
  intros Hf Hc.
  assert (H1 : (Reply fd bytes;; EnableWriteEvent fd) s =
    Some (Status_OK,
          set_heap (<[p := set_events (Z.lor (events_ c) EV_WRITE)
                             (set_output (output_ c +:+ bytes) c)]> (heap s)) s)).
  { rewrite (bind_Some _ _ _ _ _ (Reply_found s fd bytes p c Hf Hc)).
    rewrite (EnableWriteEvent_found _ fd p (set_output (output_ c +:+ bytes) c));
      [|done|apply lookup_insert_eq].
    simpl. by rewrite insert_insert_eq. }
  split; [|split; [done|]].
  - rewrite H1. rewrite (bind_Some _ _ _ _ _ (EnableWriteEvent_found s fd p c Hf Hc)).
    rewrite (Reply_found _ fd bytes p (set_events (Z.lor (events_ c) EV_WRITE) c));
      [|done|apply lookup_insert_eq].
    simpl. by rewrite insert_insert_eq.
  - rewrite (bind_Some _ _ _ _ _ (EnableWriteEvent_found s fd p c Hf Hc)).
    rewrite (EnableWriteEvent_found _ fd p (set_events (Z.lor (events_ c) EV_WRITE) c));
      [|done|apply lookup_insert_eq].
    rewrite (EnableWriteEvent_found s fd p c Hf Hc). simpl.
    rewrite insert_insert_eq. unfold set_events at 1. simpl. by rewrite lor_twice.
Qed.

Lemma Reply_EnableWriteEvent_commute_witness :
  StdMap.find (conns_ sample) 9 = Some 3%positive ∧ heap sample !! 3%positive = Some bob ∧
  (Reply 9 "+PONG";; EnableWriteEvent 9) sample =
    (EnableWriteEvent 9;; Reply 9 "+PONG") sample ∧
  (Reply 9 "+PONG";; EnableWriteEvent 9) sample =
    Some (Status_OK,
          set_heap (<[3%positive := set_events (Z.lor (events_ bob) EV_WRITE)
                                      (set_output (output_ bob +:+ "+PONG") bob)]>
                      (heap sample)) sample) ∧
  (EnableWriteEvent 9;; EnableWriteEvent 9) sample = EnableWriteEvent 9 sample.
Proof.
  split; [reflexivity|]. split; [reflexivity|].
  exact (Reply_EnableWriteEvent_commute sample 9 3%positive bob "+PONG" eq_refl eq_refl).
Defined.

(** ** Kill *)

Lemma count_entries_le f (l : StdMap.t) : (count_entries f l ≤ length l)%nat.
Proof.
  induction l as [|e l IH]; [done|]. rewrite count_entries_cons. simpl.
  destruct (f e); lia.
Qed.

Lemma count_entries_zero f (l : StdMap.t) :
  (∀ e, e ∈ l → f e = false) → count_entries f l = 0%nat.
Proof.
  induction l as [|e l IH]; intros H; [done|].
  rewrite count_entries_cons, (H e), IH; [done | | by left].
  intros e' He'. apply H. by right.
Qed.

Lemma count_entries_pos f (l : StdMap.t) :
  (0 < count_entries f l)%nat ↔ ∃ e, e ∈ l ∧ f e = true.
Proof.
  induction l as [|e l IH].
  - split; [unfold count_entries; simpl; lia|]. intros (e & He & _).
    by apply elem_of_nil in He.
  - rewrite count_entries_cons. destruct (f e) eqn:Hfe.
    + split; [|lia]. intros _. exists e. split; [by left | done].
    + simpl. rewrite IH. split.
      * intros (e' & He' & Hf'). exists e'. split; [by right | done].
      * intros (e' & [->|He']%elem_of_cons & Hf'); [congruence|]. by exists e'.
Qed.

Lemma count_entries_at_most_one f (l : StdMap.t) :
  NoDup l → (∀ e1 e2, e1 ∈ l → e2 ∈ l → f e1 = true → f e2 = true → e1 = e2) →
  (count_entries f l ≤ 1)%nat.
Proof.
  induction l as [|e l IH]; intros Hnd Hone; [unfold count_entries; simpl; lia|].
  apply NoDup_cons in Hnd as [He Hnd]. rewrite count_entries_cons.
  destruct (f e) eqn:Hfe.
  - rewrite count_entries_zero; [lia|]. intros e' He'.
    destruct (f e') eqn:Hfe'; [|done]. exfalso. apply He.
    rewrite (Hone e e'); [done | by left | by right | done..].
  - simpl. apply IH; [done|]. intros e1 e2 H1 H2. apply Hone; by right.
Qed.

(** X7. [KillClient] is cooperative and sees the normal table only: it
    closes no socket, destroys and allocates no Connection, and changes
    neither the tables nor the counters; whatever the filter, a Connection
    of the monitor table is left as it was; and [*killed] grows by at most
    the size of the normal table. *)
Theorem KillClient_is_cooperative s self id addr skipme killed :
  WF s →
  ∃ n s', KillClient self id addr skipme killed s = Some (n, s') ∧
    svr_ s' = svr_ s ∧ conns_ s' = conns_ s ∧ monitor_conns_ s' = monitor_conns_ s ∧
    trace s' = trace s ∧
    (∀ p, heap s' !! p = None ↔ heap s !! p = None) ∧
    (∀ fd p, (fd, p) ∈ monitor_conns_ s → heap s' !! p = heap s !! p) ∧
    killed ≤ n ≤ killed + Z.of_nat (length (conns_ s)).
Proof.
  intros Hwf.
  destruct (KillClient_spec s self id addr skipme killed Hwf)
    as (s' & Hrun & H1 & H2 & H3 & _ & H5 & H6).
  do 2 eexists. split; [exact Hrun|]. repeat split; try done.
  - rewrite H6. by destruct (heap s !! p).
  - rewrite H6. intros ->. done.
  - intros fd p Hin. rewrite H6. rewrite bool_decide_false.
    + by destruct (heap s !! p).
    + intros Hp.
      destruct (exactly_one_tabled s p Hwf) as [(_ & Hn & _)|[(Hn & _)|(_ & Hn & _)]].
      * apply tabled_ptrs. right. by eapply elem_ptrs.
      * apply Hn. by eapply elem_ptrs.
      * by apply Hn.
      * apply Hn. by eapply elem_ptrs.
  - lia.
  - pose proof (count_entries_le (kill_target (heap s) self id addr skipme) (conns_ s)).
    lia.
Qed.

Lemma KillClient_is_cooperative_witness :
  WF sample ∧
  ∃ n s', KillClient 1%positive 2 "10.0.0.4:5004" false 0 sample = Some (n, s') ∧
    svr_ s' = svr_ sample ∧ conns_ s' = conns_ sample ∧
    monitor_conns_ s' = monitor_conns_ sample ∧
    trace s' = trace sample ∧
    (∀ p, heap s' !! p = None ↔ heap sample !! p = None) ∧
    (∀ fd p, (fd, p) ∈ monitor_conns_ sample → heap s' !! p = heap sample !! p) ∧
    0 ≤ n ≤ 0 + Z.of_nat (length (conns_ sample)).
Proof.
  split; [apply sample_WF|].
  exact (KillClient_is_cooperative sample 1%positive 2 "10.0.0.4:5004" false 0 sample_WF).
Defined.

(** X8. With no address given, [KillClient] kills by id alone, and as ids
    are pairwise distinct it hits at most one Connection: [*killed] grows
    by one when a Connection of the normal table other than a skipped
    caller carries the non-zero id asked for, and stays as it was
    otherwise. *)
Theorem KillClient_by_id_hits_at_most_one s self id skipme killed :
  WF s → InvIds s →
  ∃ n s', KillClient self id "" skipme killed s = Some (n, s') ∧
    (n = killed ∨ n = killed + 1) ∧
    (n = killed + 1 ↔
     ∃ fd p c, (fd, p) ∈ conns_ s ∧ heap s !! p = Some c ∧
       id ≠ 0 ∧ id_ c = id ∧ ¬ (skipme = true ∧ self = p)).
Proof.
  intros Hwf Hids.
  destruct (KillClient_spec s self id "" skipme killed Hwf) as (s' & Hrun & _).
  set (f := kill_target (heap s) self id "" skipme) in *.
  assert (Hf : ∀ fd p, f (fd, p) = true ↔
            ∃ c, heap s !! p = Some c ∧ id ≠ 0 ∧ id_ c = id ∧ ¬ (skipme = true ∧ self = p)).
  { intros fd p. unfold f, kill_target, kill_hits, kill_filter. simpl.
    destruct (heap s !! p) as [c|]; [|split; [done | by intros (? & ? & _)]].
    rewrite !andb_true_iff, negb_true_iff, andb_false_iff, !bool_decide_eq_true,
      bool_decide_eq_false.
    split.
    - intros [Hs [? ?]]. exists c. repeat split; try done.
      intros [-> ->]. by destruct Hs.
    - intros (c' & [= <-] & ? & ? & Hs). split; [|done].
      destruct skipme; [|by left]. right. intros ->. by apply Hs. }
  assert (Hle : (count_entries f (conns_ s) ≤ 1)%nat).
  { apply count_entries_at_most_one.
    - eapply NoDup_fmap_1, (sorted_NoDup _ (wf_conns _ Hwf)).
    - intros [fd1 p1] [fd2 p2] H1 H2 (c1 & Hc1 & _ & Hi1 & _)%Hf (c2 & Hc2 & _ & Hi2 & _)%Hf.
      assert (p1 = p2) as ->.
      { eapply (ids_distinct _ Hids fd1 p1 c1 fd2 p2 c2); try done;
          [apply tabled_elem; by left..|congruence]. }
      f_equal. eapply (WF_ptr_key s); [done|apply tabled_elem; by left..]. }
  do 2 eexists. split; [exact Hrun|]. split; [lia|].
  assert (Hpos := count_entries_pos f (conns_ s)).
  split.
  - intros Hn. destruct Hpos as [Hpos _].
    destruct Hpos as ([fd p] & Hin & Hfe); [lia|].
    apply Hf in Hfe as (c & ?). by exists fd, p, c.
  - intros (fd & p & c & Hin & Hc & Hrest). destruct Hpos as [_ Hpos].
    assert (0 < count_entries f (conns_ s))%nat; [|lia].
    apply Hpos. exists (fd, p). split; [done|]. apply Hf. by exists c.
Qed.

Lemma KillClient_by_id_hits_at_most_one_witness :
  WF sample ∧ InvIds sample ∧
  ∃ n s', KillClient 3%positive 1 "" true 0 sample = Some (n, s') ∧
    (n = 0 ∨ n = 0 + 1) ∧
    (n = 0 + 1 ↔
     ∃ fd p c, (fd, p) ∈ conns_ sample ∧ heap sample !! p = Some c ∧
       1 ≠ 0 ∧ id_ c = 1 ∧ ¬ (true = true ∧ 3%positive = p)).
Proof.
  split; [apply sample_WF|]. split; [apply sample_InvIds|].
  exact (KillClient_by_id_hits_at_most_one sample 3%positive 1 true 0
           sample_WF sample_InvIds).
Defined.

(** ** Monitors *)

(** X9. [BecomeMonitorConn] on a Connection of the normal table moves its
    entry: the descriptor leaves the normal table, which shrinks by one, and
    maps to the same Connection in the monitor table, which grows by one as
    the monitor counter does; the client counter is untouched, nothing is
    written or closed, and the Connection now carries [kMonitor]. *)
Theorem BecomeMonitorConn_moves_entry s fd conn :
  WF s → (fd, conn) ∈ conns_ s →
  ∃ c c' s', heap s !! conn = Some c ∧
    BecomeMonitorConn conn s = Some (tt, s') ∧
    StdMap.find (conns_ s') fd = None ∧
    StdMap.find (monitor_conns_ s') fd = Some conn ∧
    length (conns_ s) = S (length (conns_ s')) ∧
    length (monitor_conns_ s') = S (length (monitor_conns_ s)) ∧
    monitor_clients_ (svr_ s') = monitor_clients_ (svr_ s) + 1 ∧
    connected_clients_ (svr_ s') = connected_clients_ (svr_ s) ∧
    trace s' = trace s ∧
    heap s' !! conn = Some c' ∧ Z.land (flags_ c') kMonitor = kMonitor ∧
    output_ c' = output_ c ∧ stable c c'.
Proof.
  intros Hwf Hin.
  destruct (wf_live _ Hwf fd conn) as (c & Hc & Hfd); [apply tabled_elem; by left|].
  assert (Hf : StdMap.find (conns_ s) fd = Some conn).
  { apply elem_find; [apply sorted_NoDup, Hwf | done]. }
  exists c, (set_flags (Z.lor (flags_ c) kMonitor) c), (promoted conn c s).
  split; [done|]. split; [by apply BecomeMonitorConn_promoted|].
  unfold promoted. cbn [conns_ monitor_conns_ svr_ trace heap]. rewrite Hfd.
  split; [apply find_erase|].
  split.
  { apply elem_find; [apply sorted_NoDup, sorted_assign, Hwf|].
    apply elem_assign; [apply Hwf | by left]. }
  split; [by eapply length_erase; [apply sorted_NoDup, Hwf|]|].
  split.
  { rewrite length_assign by apply Hwf.
    by rewrite (proj1 (WF_find_exclusive s fd conn Hwf) Hf). }
  split; [by destruct (svr_ s)|]. split; [by destruct (svr_ s)|]. split; [done|].
  split; [apply lookup_insert_eq|]. split; [apply land_lor_absorb|].
  by destruct c.
Qed.

Lemma BecomeMonitorConn_moves_entry_witness :
  WF sample ∧ (7, 1%positive) ∈ conns_ sample ∧
  ∃ c c' s', heap sample !! 1%positive = Some c ∧
    BecomeMonitorConn 1%positive sample = Some (tt, s') ∧
    StdMap.find (conns_ s') 7 = None ∧
    StdMap.find (monitor_conns_ s') 7 = Some 1%positive ∧
    length (conns_ sample) = S (length (conns_ s')) ∧
    length (monitor_conns_ s') = S (length (monitor_conns_ sample)) ∧
    monitor_clients_ (svr_ s') = monitor_clients_ (svr_ sample) + 1 ∧
    connected_clients_ (svr_ s') = connected_clients_ (svr_ sample) ∧
    trace s' = trace sample ∧
    heap s' !! 1%positive = Some c' ∧ Z.land (flags_ c') kMonitor = kMonitor ∧
    output_ c' = output_ c ∧ stable c c'.
Proof.
  assert (Hin : (7, 1%positive) ∈ conns_ sample) by (simpl; by left).
  split; [apply sample_WF|]. split; [exact Hin|].
  exact (BecomeMonitorConn_moves_entry sample 7 1%positive sample_WF Hin).
Defined.

(** X10. [BecomeMonitorConn] on a Connection that is in the monitor table
    already leaves both tables with the entries they had, and yet counts
    one more monitor: the monitor counter is incremented whether or not the
    monitor table grew, so its lead over the size of the monitor table
    grows by one. *)
Theorem BecomeMonitorConn_again_counts_twice s fd conn :
  WF s → (fd, conn) ∈ monitor_conns_ s →
  ∃ s', BecomeMonitorConn conn s = Some (tt, s') ∧
    conns_ s' = conns_ s ∧
    (∀ e, e ∈ monitor_conns_ s' ↔ e ∈ monitor_conns_ s) ∧
    length (monitor_conns_ s') = length (monitor_conns_ s) ∧
    monitor_clients_ (svr_ s') = monitor_clients_ (svr_ s) + 1 ∧
    monitor_clients_ (svr_ s') - Z.of_nat (length (monitor_conns_ s')) =
      monitor_clients_ (svr_ s) - Z.of_nat (length (monitor_conns_ s)) + 1.
Proof.
  intros Hwf Hin.
  destruct (wf_live _ Hwf fd conn) as (c & Hc & Hfd); [apply tabled_elem; by right|].
  assert (Hf : StdMap.find (monitor_conns_ s) fd = Some conn).
  { apply elem_find; [apply sorted_NoDup, Hwf | done]. }
  exists (promoted conn c s). split; [by apply BecomeMonitorConn_promoted|].
  unfold promoted. cbn [conns_ monitor_conns_ svr_]. rewrite Hfd.
  split; [apply erase_absent, (proj2 (WF_find_exclusive s fd conn Hwf) Hf)|].
  split.
  { intros e. rewrite elem_assign by apply Hwf. split.
    - intros [->|[? _]]; done.
    - intros He. destruct (decide (e.1 = fd)) as [Heq|Hne]; [|by right].
      left. destruct e as [k q]. simpl in Heq. subst k. f_equal.
      pose proof (elem_find _ _ _ (sorted_NoDup _ (wf_monitor _ Hwf)) He). congruence. }
  split; [by rewrite length_assign, Hf by apply Hwf|].
  split; [by destruct (svr_ s)|].
  rewrite length_assign, Hf by apply Hwf. destruct (svr_ s); simpl. lia.
Qed.

Lemma BecomeMonitorConn_again_counts_twice_witness :
  WF sample ∧ (5, 2%positive) ∈ monitor_conns_ sample ∧
  ∃ s', BecomeMonitorConn 2%positive sample = Some (tt, s') ∧
    conns_ s' = conns_ sample ∧
    (∀ e, e ∈ monitor_conns_ s' ↔ e ∈ monitor_conns_ sample) ∧
    length (monitor_conns_ s') = length (monitor_conns_ sample) ∧
    monitor_clients_ (svr_ s') = monitor_clients_ (svr_ sample) + 1 ∧
    monitor_clients_ (svr_ s') - Z.of_nat (length (monitor_conns_ s')) =
      monitor_clients_ (svr_ sample) - Z.of_nat (length (monitor_conns_ sample)) + 1.
Proof.
  assert (Hin : (5, 2%positive) ∈ monitor_conns_ sample) by (simpl; by left).
  split; [apply sample_WF|]. split; [exact Hin|].
  exact (BecomeMonitorConn_again_counts_twice sample 5 2%positive sample_WF Hin).
Defined.

(** X11. [FeedMonitorConns] touches the monitors only: the tables, the
    counters, the cursor and the trace are as before, a Connection outside
    the monitor table (so every normal client, whatever its namespace) is
    left as it was, and a monitor keeps its descriptor, id, address,
    namespace and flags. *)
Theorem FeedMonitorConns_frame s tv_sec tv_usec conn tokens src :
  WF s → heap s !! conn = Some src →
  ∃ s', FeedMonitorConns tv_sec tv_usec conn tokens s = Some (tt, s') ∧
    svr_ s' = svr_ s ∧ conns_ s' = conns_ s ∧ monitor_conns_ s' = monitor_conns_ s ∧
    last_iter_conn_fd s' = last_iter_conn_fd s ∧ trace s' = trace s ∧
    (∀ p, p ∉ StdMap.ptrs (monitor_conns_ s) → heap s' !! p = heap s !! p) ∧
    (∀ p c, heap s !! p = Some c →
       ∃ c', heap s' !! p = Some c' ∧ fd_ c' = fd_ c ∧ id_ c' = id_ c ∧
             addr_ c' = addr_ c ∧ ns_ c' = ns_ c ∧ flags_ c' = flags_ c).
Proof.
  intros Hwf Hsrc.
  destruct (FeedMonitorConns_spec s tv_sec tv_usec conn tokens src Hwf Hsrc)
    as (s' & Hrun & H1 & H2 & H3 & H4 & H5 & Hheap).
  exists s'. repeat (split; [done|]). split.
  - intros p Hp. rewrite Hheap, bool_decide_false by done. simpl.
    by destruct (heap s !! p).
  - intros p c Hc. rewrite Hheap, Hc. simpl. eexists. split; [done|].
    by destruct (_ && _), c.
Qed.

Lemma FeedMonitorConns_frame_witness :
  WF sample ∧ heap sample !! 1%positive = Some alice ∧
  ∃ s', FeedMonitorConns 1700000000 42 1%positive ["GET"; "k"] sample = Some (tt, s') ∧
    svr_ s' = svr_ sample ∧ conns_ s' = conns_ sample ∧
    monitor_conns_ s' = monitor_conns_ sample ∧
    last_iter_conn_fd s' = last_iter_conn_fd sample ∧ trace s' = trace sample ∧
    (∀ p, p ∉ StdMap.ptrs (monitor_conns_ sample) → heap s' !! p = heap sample !! p) ∧
    (∀ p c, heap sample !! p = Some c →
       ∃ c', heap s' !! p = Some c' ∧ fd_ c' = fd_ c ∧ id_ c' = id_ c ∧
             addr_ c' = addr_ c ∧ ns_ c' = ns_ c ∧ flags_ c' = flags_ c).
Proof.
  split; [apply sample_WF|]. split; [reflexivity|].
  exact (FeedMonitorConns_frame sample 1700000000 42 1%positive ["GET"; "k"] alice
           sample_WF eq_refl).
Defined.

(** ** Accepting a socket *)

(** X12. When the keep-alive option is set, the descriptor is not in the
    normal table and the cap is not reached, [newConnection] admits the
    socket: the new Connection is entered under its descriptor with the
    read event enabled, the id the counter held and the peer's address when
    there is one; the client counter grows by one, nothing is written to
    the socket and nothing is closed. When the keep-alive option cannot be
    set, the socket is closed and nothing else happens. *)
Theorem newConnection_accepts s p fd now peer :
  heap s !! p = None → StdMap.find (conns_ s) fd = None →
  connected_clients_ (svr_ s) + 1 ≤ maxclients (svr_ s) →
  (∃ s', newConnection true p fd now peer s = Some (tt, s') ∧
     conns_ s' = StdMap.insert fd p (conns_ s) ∧
     monitor_conns_ s' = monitor_conns_ s ∧
     connected_clients_ (svr_ s') = connected_clients_ (svr_ s) + 1 ∧
     trace s' = trace s ++ [EvSetID (client_id_ (svr_ s))] ∧
     heap s' !! p = Some (with_peer peer (set_id (client_id_ (svr_ s)) (accepted fd now))) ∧
     (∀ q, q ≠ p → heap s' !! q = heap s !! q)) ∧
  newConnection false p fd now peer s = Some (tt, set_trace (trace s ++ [EvClose fd]) s).
Proof.
  intros Hp Hf Hle. split; [|done].
  unfold newConnection. simpl.
  rewrite (bind_Some _ _ _ _ _ (alloc_Some p _ s Hp)).
  set (sa := set_heap (<[p := new_Connection fd now]> (heap s)) s).
  assert (Hca : heap sa !! p = Some (new_Connection fd now)) by apply lookup_insert_eq.
  unfold bufferevent_enable at 1.
  rewrite (bind_Some _ _ _ _ _ (update_Some p _ _ sa Hca)).
  fold (accepted fd now).
  set (sb := set_heap (<[p := accepted fd now]> (heap sa)) sa).
  assert (Hcb : heap sb !! p = Some (accepted fd now)) by apply lookup_insert_eq.
  rewrite (bind_Some _ _ _ _ _ (AddConnection_admitted sb p (accepted fd now) Hcb Hf Hle)).
  assert (Hother : ∀ q, q ≠ p → heap (admitted p (accepted fd now) sb) !! q = heap s !! q).
  { intros q Hq. simpl. by rewrite !lookup_insert_ne. }
  assert (Hcc : heap (admitted p (accepted fd now) sb) !! p =
                Some (set_id (client_id_ (svr_ s)) (accepted fd now)))
    by apply lookup_insert_eq.
  destruct peer as [[host port]|].
  - unfold SetAddr. rewrite (bind_Some _ _ _ _ _ (update_Some p _ _ _ Hcc)). simpl.
    eexists. split; [done|]. simpl. repeat (split; [done|]).
    split; [apply lookup_insert_eq|].
    intros q Hq. rewrite lookup_insert_ne by done. by apply Hother.
  - simpl. exists (admitted p (accepted fd now) sb). split; [done|].
    do 4 (split; [done|]). split; [apply lookup_insert_eq | exact Hother].
Qed.

Lemma newConnection_accepts_witness :
  heap sample !! 6%positive = None ∧ StdMap.find (conns_ sample) 11 = None ∧
  connected_clients_ (svr_ sample) + 1 ≤ maxclients (svr_ sample) ∧
  (∃ s', newConnection true 6%positive 11 100 (Some ("10.0.0.9", 4711)) sample = Some (tt, s') ∧
     conns_ s' = StdMap.insert 11 6%positive (conns_ sample) ∧
     monitor_conns_ s' = monitor_conns_ sample ∧
     connected_clients_ (svr_ s') = connected_clients_ (svr_ sample) + 1 ∧
     trace s' = trace sample ++ [EvSetID (client_id_ (svr_ sample))] ∧
     heap s' !! 6%positive =
       Some (with_peer (Some ("10.0.0.9", 4711))
               (set_id (client_id_ (svr_ sample)) (accepted 11 100))) ∧
     (∀ q, q ≠ 6%positive → heap s' !! q = heap sample !! q)) ∧
  newConnection false 6%positive 11 100 (Some ("10.0.0.9", 4711)) sample =
    Some (tt, set_trace (trace sample ++ [EvClose 11]) sample).
Proof.
  assert (H3 : connected_clients_ (svr_ sample) + 1 ≤ maxclients (svr_ sample))
    by (vm_compute; discriminate).
  split; [reflexivity|]. split; [reflexivity|]. split; [exact H3|].
  exact (newConnection_accepts sample 6%positive 11 100 (Some ("10.0.0.9", 4711))
           eq_refl eq_refl H3).
Defined.

(** ** The client list *)

Lemma GetClientsStr_loop_spec flags_text now s l :
  (∀ p, p ∈ StdMap.ptrs l → is_Some (heap s !! p)) →
  ∀ clients,
    GetClientsStr_loop flags_text now l clients s =
      Some (clients +:+ clients_text flags_text now (heap s) l, s).
Proof.
  induction l as [|[fd p] l IH]; intros Hlive clients.
  - simpl. unfold mret, M_ret. f_equal. f_equal.
    induction clients as [|ch clients IHc]; [done|].
    change (String ch clients = String ch (clients +:+ "")). by f_equal.
  - destruct (Hlive p) as [c Hc]; [by left|].
    cbn [GetClientsStr_loop clients_text foldr].
    rewrite (bind_Some _ _ _ _ _ (deref_Some p c s Hc)).
    rewrite IH by (intros q Hq; apply Hlive; by right).
    cbn [snd fst]. rewrite Hc. by rewrite append_assoc.
Qed.

Lemma clients_text_ext flags_text now (h h' : gmap ptr Connection) l :
  (∀ e, e ∈ l → h' !! e.2 = h !! e.2) →
  clients_text flags_text now h' l = clients_text flags_text now h l.
Proof.
  induction l as [|e l IH]; intros Hext; [done|].
  cbn [clients_text foldr]. rewrite (Hext e) by by left.
  fold (clients_text flags_text now h' l). fold (clients_text flags_text now h l).
  rewrite IH; [done|]. intros e' He'. apply Hext. by right.
Qed.

(** X13. [GetClientsStr] only reads: it returns one line for each entry of
    the normal table, in ascending order of the descriptors, and leaves the
    Worker as it was. Monitors are not listed: once a client has become a
    monitor, the list is the one of the other clients. *)
Theorem GetClientsStr_lists_normal_table flags_text s now :
  WF s →
  GetClientsStr flags_text now s =
    Some (clients_text flags_text now (heap s) (conns_ s), s) ∧
  ∀ fd p s', (fd, p) ∈ conns_ s → BecomeMonitorConn p s = Some (tt, s') →
    GetClientsStr flags_text now s' =
      Some (clients_text flags_text now (heap s) (StdMap.erase fd (conns_ s)), s').
Proof.
  intros Hwf.
  assert (Hlist : ∀ s1, (∀ p, p ∈ StdMap.ptrs (conns_ s1) → is_Some (heap s1 !! p)) →
            GetClientsStr flags_text now s1 =
              Some (clients_text flags_text now (heap s1) (conns_ s1), s1)).
  { intros s1 Hlive. unfold GetClientsStr. mrun.
    by rewrite GetClientsStr_loop_spec. }
  split.
  { apply Hlist. intros p [fd Hin]%ptrs_elem.
    destruct (wf_live _ Hwf fd p) as (c & Hc & _); [apply tabled_elem; by left|].
    by exists c. }
  intros fd p s' Hin Hrun.
  destruct (wf_live _ Hwf fd p) as (c & Hc & Hfd); [apply tabled_elem; by left|].
  rewrite (BecomeMonitorConn_promoted s p c Hc) in Hrun.
  injection Hrun as <-.
  assert (Hsame : ∀ e, e ∈ StdMap.erase fd (conns_ s) →
            heap (promoted p c s) !! e.2 = heap s !! e.2).
  { intros [k q] [He Hk]%elem_erase. simpl in *. apply lookup_insert_ne. intros <-.
    apply Hk. eapply (WF_ptr_key s); [done|apply tabled_elem; by left..]. }
  rewrite Hlist.
  - simpl. rewrite Hfd. f_equal. f_equal. apply clients_text_ext.
    intros e He. by apply Hsame.
  - intros q [k Hq]%ptrs_elem.
    change (conns_ (promoted p c s)) with (StdMap.erase (fd_ c) (conns_ s)) in Hq.
    rewrite Hfd in Hq. pose proof (Hsame (k, q) Hq) as Hs. cbn [snd] in Hs. rewrite Hs.
    destruct (proj1 (elem_erase _ _ _) Hq) as [Hq' _].
    destruct (wf_live _ Hwf k q) as (c' & Hc' & _); [apply tabled_elem; by left|].
    by exists c'.
Qed.

Lemma GetClientsStr_lists_normal_table_witness :
  WF sample ∧
  GetClientsStr pretty 100 sample =
    Some (clients_text pretty 100 (heap sample) (conns_ sample), sample) ∧
  ∀ fd p s', (fd, p) ∈ conns_ sample → BecomeMonitorConn p sample = Some (tt, s') →
    GetClientsStr pretty 100 s' =
      Some (clients_text pretty 100 (heap sample) (StdMap.erase fd (conns_ sample)), s').
Proof.
  split; [apply sample_WF|].
  exact (GetClientsStr_lists_normal_table pretty sample 100 sample_WF).
Defined.

(** ** The command line *)

Lemma parse_loop_returns opts got :
  forallb (λ o, keeps_parsing o.1) got = true →
  parse_loop opts got =
    Returns (mkOptions (last_arg "c" (conf_file opts) got)
                       (last_arg "p" (pid_file opts) got)
                       (show_usage opts || existsb (λ o, Ascii.eqb o.1 "h") got)).
Proof.
  revert opts. induction got as [|[ch optarg] got IH]; intros opts Hall.
  - simpl. rewrite orb_false_r. by destruct opts.
  - simpl in Hall. apply andb_true_iff in Hall as [Hch Hall].
    unfold keeps_parsing in Hch. unfold last_arg. cbn [parse_loop foldl existsb fst snd].
    fold (last_arg "c" (if Ascii.eqb ch "c" then optarg else conf_file opts) got).
    fold (last_arg "p" (if Ascii.eqb ch "p" then optarg else pid_file opts) got).
    destruct (Ascii.eqb ch "c") eqn:Hc.
    { apply Ascii.eqb_eq in Hc as ->. rewrite IH by done. done. }
    destruct (Ascii.eqb ch "p") eqn:Hp.
    { apply Ascii.eqb_eq in Hp as ->. rewrite IH by done. done. }
    destruct (Ascii.eqb ch "h") eqn:Hh; [|done].
    rewrite IH by done. cbn [conf_file pid_file show_usage]. by rewrite orb_true_r.
Qed.

Lemma parse_loop_exits opts ch optarg rest :
  keeps_parsing ch = false →
  parse_loop opts ((ch, optarg) :: rest) =
    if Ascii.eqb ch "v" then ExitVersion else ExitUsage.
Proof.
  unfold keeps_parsing. intros H. simpl.
  destruct (Ascii.eqb ch "c"); [done|]. destruct (Ascii.eqb ch "p"); [done|].
  by destruct (Ascii.eqb ch "h").
Qed.

Lemma parse_loop_skips opts pre rest :
  forallb (λ o, keeps_parsing o.1) pre = true →
  ∃ opts', parse_loop opts (pre ++ rest) = parse_loop opts' rest.
Proof.
  revert opts. induction pre as [|[ch optarg] pre IH]; intros opts Hall; [by exists opts|].
  simpl in Hall. apply andb_true_iff in Hall as [Hch Hall]. unfold keeps_parsing in Hch.
  cbn [app parse_loop].
  destruct (Ascii.eqb ch "c"); [by apply IH|].
  destruct (Ascii.eqb ch "p"); [by apply IH|].
  destruct (Ascii.eqb ch "h"); [by apply IH | done].
Qed.

(** X14. [parseCommandLineOptions] returns exactly when every option
    [getopt] reports is [c], [p] or [h]: the configuration and pid files
    are then the arguments of the last [-c] and the last [-p], the defaults
    when there is none, and the usage flag tells whether there was an
    [-h]. Otherwise the process exits at the first other option, through
    [usage] unless that option is [v], whatever options came before or
    follow. *)
Theorem parseCommandLineOptions_outcome got :
  parseCommandLineOptions got =
    match List.find (λ o, negb (keeps_parsing o.1)) got with
    | None =>
        Returns (mkOptions (last_arg "c" kDefaultConfPath got)
                           (last_arg "p" kDefaultPidPath got)
                           (existsb (λ o, Ascii.eqb o.1 "h") got))
    | Some (ch, _) => if Ascii.eqb ch "v" then ExitVersion else ExitUsage
    end.
Proof.
  unfold parseCommandLineOptions.
  assert (Hgen : ∀ opts,
    parse_loop opts got =
    match List.find (λ o, negb (keeps_parsing o.1)) got with
    | None =>
        Returns (mkOptions (last_arg "c" (conf_file opts) got)
                           (last_arg "p" (pid_file opts) got)
                           (show_usage opts || existsb (λ o, Ascii.eqb o.1 "h") got))
    | Some (ch, _) => if Ascii.eqb ch "v" then ExitVersion else ExitUsage
    end).
  { intros opts. destruct (List.find _ got) as [[ch optarg]|] eqn:Hfind.
    - revert opts. induction got as [|[ch' optarg'] got IH]; intros opts; [done|].
      simpl in Hfind. destruct (keeps_parsing ch') eqn:Hk; simpl in Hfind.
      + change ((ch', optarg') :: got) with ([(ch', optarg')] ++ got).
        destruct (parse_loop_skips opts [(ch', optarg')] got) as [opts' ->].
        { simpl. by rewrite Hk. }
        by apply IH.
      + injection Hfind as -> ->. by apply parse_loop_exits.
    - apply parse_loop_returns. apply forallb_forall. intros o Ho.
      pose proof (List.find_none _ _ Hfind o Ho) as Hn. by apply negb_false_iff in Hn. }
  by rewrite Hgen.
Qed.

(** ** What a timer tick removes *)

Lemma scan_pair_idle now t h (e : Z * ptr) :
  scan_pair now t h e =
    if is_idle now t h e then (λ c, (e.1, id_ c)) <$> h !! e.2 else None.
Proof.
  unfold scan_pair, is_idle. destruct (h !! e.2) as [c|]; [|done].
  by case_bool_decide.
Qed.

Lemma visit_order_length (conns : StdMap.t) cursor :
  length (visit_order conns cursor) = length conns.
Proof.
  unfold visit_order. rewrite length_app.
  induction conns as [|e l IH]; [done|]. simpl.
  destruct (Z.ltb_spec cursor e.1), (Z.leb_spec e.1 cursor); simpl; lia.
Qed.

Lemma visit_order_elem (conns : StdMap.t) cursor e :
  e ∈ visit_order conns cursor ↔ e ∈ conns.
Proof.
  unfold visit_order. rewrite elem_of_app, !list_elem_of_In, !List.filter_In.
  destruct (Z.ltb_spec cursor e.1), (Z.leb_spec e.1 cursor); try lia; tauto.
Qed.

Lemma visited_all (conns : StdMap.t) cursor e :
  (length conns ≤ 50)%nat → e ∈ conns → e ∈ visited conns cursor.
Proof.
  intros Hlen He. unfold visited.
  rewrite take_ge by (rewrite visit_order_length; lia).
  by apply visit_order_elem.
Qed.

Lemma List_filter_sublist {A} (f : A → bool) l : List.filter f l `sublist_of` l.
Proof.
  induction l as [|x l IH]; simpl; [done|].
  destruct (f x); [by apply sublist_skip | by apply sublist_cons].
Qed.

Lemma visited_keys_NoDup (conns : StdMap.t) cursor :
  StdMap.sorted conns → NoDup (StdMap.keys (visited conns cursor)).
Proof.
  intros Hs. apply (sublist_keys_NoDup (visit_order conns cursor)); [apply sublist_take|].
  unfold visit_order, StdMap.keys. rewrite fmap_app. apply NoDup_app. split; [|split].
  - apply (sublist_keys_NoDup conns); [|by apply sorted_NoDup].
    apply List_filter_sublist.
  - intros k [[k1 p1] [-> H1]]%list_elem_of_fmap [[k2 p2] [Hk H2]]%list_elem_of_fmap.
    simpl in Hk. subst k2.
    apply list_elem_of_In, List.filter_In in H1 as [_ H1].
    apply list_elem_of_In, List.filter_In in H2 as [_ H2]. simpl in *. lia.
  - apply (sublist_keys_NoDup conns); [|by apply sorted_NoDup].
    apply List_filter_sublist.
Qed.

Lemma kick_loop_spec now t (h : gmap ptr Connection) (seen : StdMap.t) :
  ∀ s, Inv s → NoDup (StdMap.keys seen) →
    (∀ e, e ∈ seen → e ∈ conns_ s ∧ heap s !! e.2 = h !! e.2) →
    ∃ s', for_each (omap (scan_pair now t h) seen)
                   (λ pair, RemoveConnectionByID pair.1 pair.2) s = Some (tt, s') ∧
      Inv s' ∧
      monitor_conns_ s' = monitor_conns_ s ∧
      last_iter_conn_fd s' = last_iter_conn_fd s ∧
      monitor_clients_ (svr_ s') = monitor_clients_ (svr_ s) ∧
      connected_clients_ (svr_ s') =
        connected_clients_ (svr_ s) - Z.of_nat (length (List.filter (is_idle now t h) seen)) ∧
      trace s' = trace s ++ (EvClose <$> StdMap.keys (List.filter (is_idle now t h) seen)) ∧
      (∀ e, e ∈ conns_ s' ↔ e ∈ conns_ s ∧ e ∉ List.filter (is_idle now t h) seen) ∧
      (∀ p, heap s' !! p =
            if bool_decide (p ∈ StdMap.ptrs (List.filter (is_idle now t h) seen))
            then None else heap s !! p).
Proof.
  induction seen as [|[fd p] seen IH]; intros s HI Hnd Hall.
  - exists s. split; [done|]. split; [done|]. do 4 (split; [simpl; try done; lia|]).
    split; [simpl; by rewrite app_nil_r|]. split.
    + intros e. split; [|tauto]. intros He. split; [done|]. apply not_elem_of_nil.
    + intros q. rewrite bool_decide_false; [done|]. apply not_elem_of_nil.
  - pose proof (inv_wf _ HI) as Hwf.
    change (StdMap.keys ((fd, p) :: seen)) with (fd :: StdMap.keys seen) in Hnd.
    apply NoDup_cons in Hnd as [Hfd Hnd].
    destruct (Hall (fd, p)) as [Hin Hh]; [by left|]. simpl in Hh.
    destruct (wf_live _ Hwf fd p) as (c & Hc & Hfdc); [apply tabled_elem; by left|].
    assert (Hf : StdMap.find (conns_ s) fd = Some p).
    { apply elem_find; [apply sorted_NoDup, Hwf | done]. }
    assert (Hm : StdMap.find (monitor_conns_ s) fd = None)
      by apply (proj1 (WF_find_exclusive s fd p Hwf) Hf).
    assert (Htail : ∀ e, e ∈ seen → e.1 ≠ fd ∧ e.2 ≠ p).
    { intros [k q] He. simpl.
      assert (Hk : k ≠ fd).
      { intros ->. apply Hfd. by eapply elem_keys. }
      split; [done|]. intros ->. apply Hk.
      destruct (Hall (k, p)) as [Hin' _]; [by right|].
      eapply (WF_ptr_key s); [done|apply tabled_elem; by left..]. }
    cbn [omap list_omap List.filter].
    rewrite scan_pair_idle. cbn [fst snd]. rewrite <- Hh, Hc.
    assert (Hidle : is_idle now t h (fd, p) = is_idle now t (heap s) (fd, p)).
    { unfold is_idle. simpl. by rewrite Hh. }
    destruct (is_idle now t h (fd, p)) eqn:Hi.
    + cbn [fmap option_fmap option_map].
      pose proof (RemoveConnectionByID_normal s fd (id_ c) p c Hf Hc Hm) as Hrun.
      rewrite bool_decide_true in Hrun by done.
      destruct (erased_normal_ok s fd p c HI Hf Hc) as (HI1 & _ & _).
      destruct (IH (erased_normal fd p c s) HI1 Hnd)
        as (s' & Hrun' & HI' & Hmon & Hcur & Hmc & Hcc & Htr & Hconns & Hheap).
      { intros e He. destruct (Hall e) as [He1 He2]; [by right|].
        destruct (Htail e He) as [Hk Hq]. split.
        - apply elem_erase. done.
        - simpl. by rewrite lookup_delete_ne. }
      exists s'. split.
      { rewrite (for_each_cons (fd, id_ c) _ _ s _ Hrun). exact Hrun'. }
      split; [done|]. split; [done|]. split; [done|].
      split; [rewrite Hmc; simpl; by destruct (svr_ s)|].
      split.
      { rewrite Hcc. simpl. destruct (svr_ s); simpl. lia. }
      split.
      { rewrite Htr. simpl. rewrite Hfdc, <- app_assoc. done. }
      split.
      { intros e. rewrite Hconns. simpl. rewrite elem_erase, not_elem_of_cons.
        split; [intros [[? ?] ?]; repeat split; try done; by intros ->|].
        intros (He & Hne & Hnot). repeat split; try done.
        intros Hk. apply Hne. destruct e as [k q]. simpl in Hk. subst k. f_equal.
        apply (key_unique s fd); [done|apply tabled_elem; by left..]. }
      intros q. rewrite Hheap. simpl.
      change (StdMap.ptrs ((fd, p) :: List.filter (is_idle now t h) seen))
        with (p :: StdMap.ptrs (List.filter (is_idle now t h) seen)).
      destruct (decide (q = p)) as [->|Hq].
      * rewrite lookup_delete_eq. rewrite (bool_decide_true (p ∈ p :: _)) by by left.
        by case_bool_decide.
      * rewrite lookup_delete_ne by done.
        repeat case_bool_decide; try done.
        -- exfalso. by apply H0; right.
        -- exfalso. apply elem_of_cons in H0 as [?|?]; done.
    + destruct (IH s HI Hnd) as (s' & Hrun' & Hrest).
      { intros e He. apply Hall. by right. }
      exists s'. split; [done|]. exact Hrest.
Qed.

(** X15. What a timer tick with a non-zero timeout does: of the normal
    table it removes the Connections that were visited and whose idle time
    has reached the timeout, and no other; each of them is destroyed and
    its socket closed once, in the order of the visit, and the client
    counter drops by their number. The monitor table is not scanned, so no
    monitor is ever kicked; the Connections that stay are untouched; the
    cursor ends on the descriptor visited last, even when that one has just
    been kicked; and with at most 50 clients no idle one is left. *)
Theorem TimerCB_kicks_visited_idle s now :
  Inv s → timeout (svr_ s) ≠ 0 →
  let seen := visited (conns_ s) (last_iter_conn_fd s) in
  let kicked := List.filter (is_idle now (timeout (svr_ s)) (heap s)) seen in
  ∃ s', TimerCB now s = Some (tt, s') ∧
    (∀ e, e ∈ conns_ s' ↔ e ∈ conns_ s ∧ e ∉ kicked) ∧
    monitor_conns_ s' = monitor_conns_ s ∧
    (∀ e, e ∈ tabled s' → heap s' !! e.2 = heap s !! e.2) ∧
    (∀ e, e ∈ kicked → heap s' !! e.2 = None) ∧
    trace s' = trace s ++ (EvClose <$> StdMap.keys kicked) ∧
    connected_clients_ (svr_ s') = connected_clients_ (svr_ s) - Z.of_nat (length kicked) ∧
    monitor_clients_ (svr_ s') = monitor_clients_ (svr_ s) ∧
    (∀ fd p, last seen = Some (fd, p) → last_iter_conn_fd s' = fd) ∧
    ((length (conns_ s) ≤ 50)%nat →
     ∀ e, e ∈ conns_ s' → is_idle now (timeout (svr_ s)) (heap s') e = false).
Proof.
  intros HI Ht seen kicked. pose proof (inv_wf _ HI) as Hwf.
  unfold TimerCB.
  assert (Hg : gets (λ s, timeout (svr_ s)) s = Some (timeout (svr_ s), s)) by done.
  rewrite (bind_Some _ _ _ _ _ Hg). rewrite bool_decide_false by done.
  rewrite KickoutIdleClients_scan by done. fold seen.
  assert (Hcur : ∃ s1, (if last seen is Some (fd, _)
                        then modify (set_last_iter_conn_fd fd) else mret tt) s = Some (tt, s1) ∧
                       mutates s s1 ∧ heap s1 = heap s ∧ trace s1 = trace s ∧
                       ∀ fd p, last seen = Some (fd, p) → last_iter_conn_fd s1 = fd).
  { destruct (last seen) as [[fd p]|].
    - eexists. split; [done|]. split; [apply mutates_cursor|]. do 2 (split; [done|]).
      by intros ? ? [= -> _].
    - exists s. split; [done|]. split; [apply mutates_refl|]. by do 2 (split; [done|]). }
  destruct Hcur as (s1 & Hrun1 & Hm1 & Hh1 & Ht1 & Hc1).
  rewrite (bind_Some _ _ _ _ _ Hrun1).
  destruct (kick_loop_spec now (timeout (svr_ s)) (heap s) seen s1)
    as (s' & Hrun & HI' & Hmon & Hcur & Hmc & Hcc & Htr & Hconns & Hheap).
  { by eapply mutates_Inv. }
  { apply visited_keys_NoDup, Hwf. }
  { intros e He. rewrite (mu_conns _ _ Hm1), Hh1. split; [|done].
    by eapply visited_elem. }
  fold kicked in Hcc, Htr, Hconns, Hheap.
  rewrite (mu_conns _ _ Hm1) in Hconns. rewrite (mu_monitor _ _ Hm1) in Hmon.
  rewrite (mu_svr _ _ Hm1) in Hmc, Hcc. rewrite Ht1 in Htr.
  assert (Hk : ∀ e, e ∈ kicked → e ∈ conns_ s).
  { intros e He. apply list_elem_of_In, List.filter_In in He as [He _].
    apply list_elem_of_In in He. by eapply visited_elem. }
  assert (Hstay : ∀ e, e ∈ tabled s → e ∉ kicked → e.2 ∉ StdMap.ptrs kicked).
  { intros [k q] He Hne [k' Hq]%ptrs_elem. simpl in Hq. apply Hne.
    assert (k' = k) as ->; [|done].
    eapply (WF_ptr_key s); [done| |done]. apply tabled_elem. left. by apply Hk. }
  assert (Hkept : ∀ e, e ∈ tabled s' → heap s' !! e.2 = heap s !! e.2).
  { intros e He. rewrite Hheap, Hh1, bool_decide_false; [done|].
    apply tabled_elem in He as [He|He].
    - apply Hconns in He as [He Hne]. apply Hstay; [|done]. apply tabled_elem. by left.
    - rewrite Hmon in He. apply Hstay; [apply tabled_elem; by right|].
      intros Hin. apply (WF_keys_disjoint s e.1 Hwf).
      + eapply (elem_keys _ e.1 e.2). destruct e. by apply Hk.
      + eapply (elem_keys _ e.1 e.2). by destruct e. }
  exists s'. split; [done|]. split; [done|]. split; [done|]. split; [done|].
  split.
  { intros e He. rewrite Hheap, bool_decide_true; [done|].
    destruct e as [k q]. by eapply elem_ptrs. }
  split; [done|]. split; [done|]. split; [done|]. split.
  { intros fd p Hl. rewrite Hcur. by eapply Hc1. }
  intros Hlen e He.
  destruct (is_idle now (timeout (svr_ s)) (heap s') e) eqn:Hi; [|done].
  exfalso. pose proof (proj1 (Hconns e) He) as [Hin Hnot]. apply Hnot.
  apply list_elem_of_In, List.filter_In. split.
  - apply list_elem_of_In. by apply visited_all.
  - unfold is_idle in *. rewrite <- Hkept; [done|]. apply tabled_elem. by left.
Qed.

Lemma TimerCB_kicks_visited_idle_witness :
  Inv sample ∧ timeout (svr_ sample) ≠ 0 ∧
  let seen := visited (conns_ sample) (last_iter_conn_fd sample) in
  let kicked := List.filter (is_idle 200 (timeout (svr_ sample)) (heap sample)) seen in
  ∃ s', TimerCB 200 sample = Some (tt, s') ∧
    (∀ e, e ∈ conns_ s' ↔ e ∈ conns_ sample ∧ e ∉ kicked) ∧
    monitor_conns_ s' = monitor_conns_ sample ∧
    (∀ e, e ∈ tabled s' → heap s' !! e.2 = heap sample !! e.2) ∧
    (∀ e, e ∈ kicked → heap s' !! e.2 = None) ∧
    trace s' = trace sample ++ (EvClose <$> StdMap.keys kicked) ∧
    connected_clients_ (svr_ s') =
      connected_clients_ (svr_ sample) - Z.of_nat (length kicked) ∧
    monitor_clients_ (svr_ s') = monitor_clients_ (svr_ sample) ∧
    (∀ fd p, last seen = Some (fd, p) → last_iter_conn_fd s' = fd) ∧
    ((length (conns_ sample) ≤ 50)%nat →
     ∀ e, e ∈ conns_ s' → is_idle 200 (timeout (svr_ sample)) (heap s') e = false).
Proof.
  assert (Ht : timeout (svr_ sample) ≠ 0) by (vm_compute; discriminate).
  split; [apply sample_Inv|]. split; [exact Ht|].
  exact (TimerCB_kicks_visited_idle sample 200 sample_Inv Ht).
Defined.

(** ** The counters follow the tables *)

Lemma accounted_refl s : accounted s s.
Proof. split; lia. Qed.

Lemma accounted_trans s1 s2 s3 : accounted s1 s2 → accounted s2 s3 → accounted s1 s3.
Proof. intros [? ?] [? ?]. split; lia. Qed.

Lemma mutates_accounted s s' : mutates s s' → accounted s s'.
Proof.
  intros Hm. unfold accounted.
  rewrite (mutates_tabled _ _ Hm), (mu_svr _ _ Hm), (mu_monitor _ _ Hm). lia.
Qed.

Lemma erased_normal_accounted s fd p c :
  WF s → StdMap.find (conns_ s) fd = Some p → accounted s (erased_normal fd p c s).
Proof.
  intros Hwf Hf. unfold accounted. rewrite !tabled_length. simpl.
  rewrite (length_erase fd (conns_ s) p) by (apply sorted_NoDup, Hwf || done).
  destruct (svr_ s); simpl. lia.
Qed.

Lemma erased_monitor_accounted s fd p c :
  WF s → StdMap.find (monitor_conns_ s) fd = Some p → accounted s (erased_monitor fd p c s).
Proof.
  intros Hwf Hf. unfold accounted. rewrite !tabled_length. simpl.
  rewrite (length_erase fd (monitor_conns_ s) p) by (apply sorted_NoDup, Hwf || done).
  destruct (svr_ s); simpl. lia.
Qed.

Lemma admitted_accounted s c conn :
  StdMap.find (conns_ s) (fd_ conn) = None → accounted s (admitted c conn s).
Proof.
  intros Hf. unfold accounted. rewrite !tabled_length. simpl.
  rewrite length_insert_absent by done. lia.
Qed.

(** * Runs the code permits *)

Lemma carries_refl s : WF s → carries s s.
Proof. intros Hwf. split; [done|]. split; [done | apply accounted_refl]. Qed.

Lemma carries_trans s1 s2 s3 : carries s1 s2 → carries s2 s3 → carries s1 s3.
Proof.
  intros (_ & Hn1 & Ha1) (Hwf & Hn2 & Ha2). split; [done|].
  split; [auto | by eapply accounted_trans].
Qed.

Lemma mutates_carries s s' : WF s → mutates s s' → carries s s'.
Proof.
  intros Hwf Hm. split; [by eapply mutates_WF|]. split; [|by apply mutates_accounted].
  intros Hna fd p c' Hin Hc'. rewrite (mu_conns _ _ Hm) in Hin.
  destruct (wf_live _ Hwf fd p) as (c & Hc & _); [apply tabled_elem; by left|].
  pose proof (mu_heap _ _ Hm p) as Hst. rewrite Hc, Hc' in Hst.
  destruct Hst as (_ & _ & ->). by eapply Hna.
Qed.

Lemma shrinks_assigned s s' :
  (∀ e, e ∈ conns_ s' → e ∈ conns_ s) →
  (∀ fd p, (fd, p) ∈ conns_ s' → heap s' !! p = heap s !! p) →
  normal_assigned s → normal_assigned s'.
Proof.
  intros Hsub Hsame Hna fd p c Hin Hc. rewrite (Hsame fd p Hin) in Hc.
  eapply Hna; [by apply Hsub | done].
Qed.

Lemma erased_normal_carries s fd p c :
  WF s → StdMap.find (conns_ s) fd = Some p → heap s !! p = Some c →
  carries s (erased_normal fd p c s).
Proof.
  intros Hwf Hf Hc. pose proof (find_Some_elem _ _ _ Hf) as Hin.
  assert (Hsub : tabled (erased_normal fd p c s) `sublist_of` tabled s).
  { unfold tabled. simpl. apply sublist_app; [apply erase_sublist | done]. }
  assert (Hgone : ∀ fd' q, (fd', q) ∈ tabled (erased_normal fd p c s) → q ≠ p).
  { intros fd' q Hq ->.
    assert (fd' = fd) as ->.
    { eapply (WF_ptr_key s); [done | by eapply elem_of_sublist |].
      apply tabled_elem. by left. }
    apply tabled_elem in Hq as [Hq|Hq]; simpl in Hq.
    - apply elem_erase in Hq as [_ Hq]. done.
    - eapply (WF_keys_disjoint s fd); [done | by eapply elem_keys..]. }
  split; [|split; [|by apply erased_normal_accounted]].
  - split; simpl.
    + apply sorted_erase, Hwf.
    + apply Hwf.
    + eapply sublist_keys_NoDup; [exact Hsub | apply Hwf].
    + intros fd' q Hq.
      destruct (wf_live _ Hwf fd' q) as (c' & Hc' & Hfd); [by eapply elem_of_sublist|].
      exists c'. split; [|done]. rewrite lookup_delete_ne; [done|].
      intros <-. by eapply Hgone.
  - apply shrinks_assigned; simpl.
    + intros e He. by apply elem_erase in He as [He _].
    + intros fd' q Hq. apply lookup_delete_ne. intros <-.
      eapply (Hgone fd' p); [|done]. apply tabled_elem. by left.
Qed.

Lemma erased_monitor_carries s fd p c :
  WF s → StdMap.find (monitor_conns_ s) fd = Some p → heap s !! p = Some c →
  carries s (erased_monitor fd p c s).
Proof.
  intros Hwf Hf Hc. pose proof (find_Some_elem _ _ _ Hf) as Hin.
  assert (Hsub : tabled (erased_monitor fd p c s) `sublist_of` tabled s).
  { unfold tabled. simpl. apply sublist_app; [done | apply erase_sublist]. }
  assert (Hgone : ∀ fd' q, (fd', q) ∈ tabled (erased_monitor fd p c s) → q ≠ p).
  { intros fd' q Hq ->.
    assert (fd' = fd) as ->.
    { eapply (WF_ptr_key s); [done | by eapply elem_of_sublist |].
      apply tabled_elem. by right. }
    apply tabled_elem in Hq as [Hq|Hq]; simpl in Hq.
    - eapply (WF_keys_disjoint s fd); [done | by eapply elem_keys..].
    - apply elem_erase in Hq as [_ Hq]. done. }
  split; [|split; [|by apply erased_monitor_accounted]].
  - split; simpl.
    + apply Hwf.
    + apply sorted_erase, Hwf.
    + eapply sublist_keys_NoDup; [exact Hsub | apply Hwf].
    + intros fd' q Hq.
      destruct (wf_live _ Hwf fd' q) as (c' & Hc' & Hfd); [by eapply elem_of_sublist|].
      exists c'. split; [|done]. rewrite lookup_delete_ne; [done|].
      intros <-. by eapply Hgone.
  - apply shrinks_assigned; simpl; [done|].
    intros fd' q Hq. apply lookup_delete_ne. intros <-.
    eapply (Hgone fd' p); [|done]. apply tabled_elem. by left.
Qed.

Lemma RemoveConnection_carries s fd :
  WF s → ∃ s', RemoveConnection fd s = Some (tt, s') ∧ carries s s'.
Proof.
  intros Hwf.
  destruct (StdMap.find (conns_ s) fd) as [p|] eqn:Hf.
  - destruct (WF_find_live s fd p Hwf) as (c & Hc & _); [by left|].
    exists (erased_normal fd p c s). split; [|by apply erased_normal_carries].
    apply RemoveConnection_normal; [done..|].
    apply (proj1 (WF_find_exclusive s fd p Hwf) Hf).
  - destruct (StdMap.find (monitor_conns_ s) fd) as [p|] eqn:Hm.
    + destruct (WF_find_live s fd p Hwf) as (c & Hc & _); [by right|].
      exists (erased_monitor fd p c s). split; [|by apply erased_monitor_carries].
      by apply RemoveConnection_monitor.
    + exists s. split; [by apply RemoveConnection_absent | by apply carries_refl].
Qed.

Lemma RemoveConnectionByID_carries s fd id :
  WF s → ∃ s', RemoveConnectionByID fd id s = Some (tt, s') ∧ carries s s'.
Proof.
  intros Hwf.
  destruct (StdMap.find (conns_ s) fd) as [p|] eqn:Hf.
  - destruct (WF_find_live s fd p Hwf) as (c & Hc & _); [by left|].
    eexists. split.
    + apply (RemoveConnectionByID_normal s fd id p c Hf Hc).
      apply (proj1 (WF_find_exclusive s fd p Hwf) Hf).
    + case_bool_decide; [by apply erased_normal_carries | by apply carries_refl].
  - destruct (StdMap.find (monitor_conns_ s) fd) as [p|] eqn:Hm.
    + destruct (WF_find_live s fd p Hwf) as (c & Hc & _); [by right|].
      eexists. split; [by apply (RemoveConnectionByID_monitor s fd id p c)|].
      case_bool_decide; [by apply erased_monitor_carries | by apply carries_refl].
    + exists s. split; [by apply RemoveConnectionByID_absent | by apply carries_refl].
Qed.

Lemma alloc_carries s p c :
  WF s → heap s !! p = None → carries s (set_heap (<[p := c]> (heap s)) s).
Proof.
  intros Hwf Hp.
  assert (Hother : ∀ fd q, (fd, q) ∈ tabled s → <[p := c]> (heap s) !! q = heap s !! q).
  { intros fd q Hq. rewrite lookup_insert_ne; [done|]. intros <-.
    destruct (wf_live _ Hwf _ _ Hq) as (c' & Hc' & _). congruence. }
  split; [|split].
  - split; simpl; try apply Hwf.
    intros fd q Hq. rewrite (Hother fd q Hq). by apply (wf_live _ Hwf).
  - apply shrinks_assigned; simpl; [done|].
    intros fd q Hq. apply (Hother fd q). apply tabled_elem. by left.
  - unfold accounted, tabled. simpl. lia.
Qed.

Lemma admitted_carries s c conn :
  WF s → heap s !! c = Some conn →
  StdMap.find (conns_ s) (fd_ conn) = None →
  fd_ conn ∉ StdMap.keys (monitor_conns_ s) →
  carries s (admitted c conn s).
Proof.
  intros Hwf Hc Hf Hm.
  pose proof (fresh_fd _ _ Hf Hm) as Hfresh.
  pose proof (λ e, admitted_tabled s c conn e Hf) as Htab.
  assert (Hother : ∀ fd q, (fd, q) ∈ tabled s →
            <[c := set_id (client_id_ (svr_ s)) conn]> (heap s) !! q = heap s !! q).
  { intros fd q Hq. rewrite lookup_insert_ne; [done|].
    intros <-. by eapply (fresh_not_tabled s c conn fd). }
  split; [|split; [|by apply admitted_accounted]].
  - split; simpl.
    + apply sorted_insert, Hwf.
    + apply Hwf.
    + rewrite tabled_keys. simpl. apply NoDup_app. split; [|split].
      * apply sorted_NoDup, sorted_insert, Hwf.
      * intros k [->|Hk]%keys_insert_elem Hk2; [done|].
        by eapply (WF_keys_disjoint s k).
      * apply sorted_NoDup, Hwf.
    + intros fd q [Heq|Hq]%Htab.
      * injection Heq as -> ->. rewrite lookup_insert_eq. by eexists.
      * rewrite (Hother fd q Hq). by apply (wf_live _ Hwf).
  - intros Hna fd q c' Hin Hc'. simpl in Hin, Hc'.
    destruct (decide (q = c)) as [->|Hne].
    + rewrite lookup_insert_eq in Hc'. by injection Hc' as <-.
    + rewrite lookup_insert_ne in Hc' by done.
      apply elem_insert in Hin as [Heq|Hin]; [|by eapply Hna|done].
      by injection Heq as _ ->.
Qed.

Lemma promoted_WF s conn c :
  WF s → heap s !! conn = Some c →
  WF (promoted conn c s) ∧ (normal_assigned s → normal_assigned (promoted conn c s)).
Proof.
  intros Hwf Hc.
  assert (Hne : ∀ e, e ∈ tabled s → e.1 ≠ fd_ c → e.2 ≠ conn).
  { intros [k q] He Hk Heq. simpl in Hk, Heq. subst q.
    destruct (wf_live _ Hwf _ _ He) as (c' & Hc' & Hfd). congruence. }
  split.
  - split; simpl.
    + apply sorted_erase, Hwf.
    + apply sorted_assign, Hwf.
    + rewrite tabled_keys. simpl. apply NoDup_app. split; [|split].
      * eapply sublist_keys_NoDup; [apply erase_sublist|]. apply sorted_NoDup, Hwf.
      * intros k [p Hk]%keys_elem Hk2. apply elem_erase in Hk as [Hk Hkne].
        simpl in Hkne. apply keys_assign_elem in Hk2 as [->|Hk2]; [done|].
        eapply (WF_keys_disjoint s k); [done | by eapply elem_keys | done].
      * apply sorted_NoDup, sorted_assign, Hwf.
    + intros fd' q Hq. apply tabled_elem in Hq as [Hq|Hq]; simpl in Hq.
      * apply elem_erase in Hq as [Hq Hk].
        rewrite lookup_insert_ne.
        -- apply (wf_live _ Hwf). apply tabled_elem. by left.
        -- intros <-. eapply (Hne (fd', conn)); [apply tabled_elem; by left|done..].
      * destruct (proj1 (elem_assign (fd_ c) conn (monitor_conns_ s) (fd', q)
                           (wf_monitor _ Hwf)) Hq) as [Heq|[Hq' Hk]].
        -- injection Heq as -> ->. rewrite lookup_insert_eq. by eexists.
        -- rewrite lookup_insert_ne.
           ++ apply (wf_live _ Hwf). apply tabled_elem. by right.
           ++ intros <-. eapply (Hne (fd', conn)); [apply tabled_elem; by right|done..].
  - apply shrinks_assigned; simpl.
    + intros e He. by apply elem_erase in He as [He _].
    + intros fd' q Hq. apply elem_erase in Hq as [Hq Hk].
      apply lookup_insert_ne. intros <-.
      eapply (Hne (fd', conn)); [apply tabled_elem; by left|done..].
Qed.

Lemma promoted_counts s conn c :
  WF s → heap s !! conn = Some c →
  connected_clients_ (svr_ (promoted conn c s)) -
      Z.of_nat (length (tabled (promoted conn c s))) =
    connected_clients_ (svr_ s) - Z.of_nat (length (tabled s)) -
      (if bool_decide (fd_ c ∉ StdMap.keys (tabled s)) then 1 else 0) ∧
  monitor_clients_ (svr_ s) - Z.of_nat (length (monitor_conns_ s)) ≤
    monitor_clients_ (svr_ (promoted conn c s)) -
      Z.of_nat (length (monitor_conns_ (promoted conn c s))).
Proof.
  intros Hwf Hc. rewrite !tabled_length. simpl.
  rewrite length_assign by apply Hwf.
  destruct (StdMap.find (conns_ s) (fd_ c)) as [q|] eqn:Hf.
  - rewrite (length_erase (fd_ c) (conns_ s) q) by (apply sorted_NoDup, Hwf || done).
    rewrite (proj1 (WF_find_exclusive s _ q Hwf) Hf).
    rewrite bool_decide_false.
    + destruct (svr_ s); simpl. lia.
    + intros Hk. apply Hk. rewrite tabled_keys, elem_of_app. left.
      by eapply find_Some_keys.
  - rewrite erase_absent by done.
    destruct (StdMap.find (monitor_conns_ s) (fd_ c)) as [q|] eqn:Hm.
    + rewrite bool_decide_false.
      * destruct (svr_ s); simpl. lia.
      * intros Hk. apply Hk. rewrite tabled_keys, elem_of_app. right.
        by eapply find_Some_keys.
    + rewrite bool_decide_true.
      * destruct (svr_ s); simpl. lia.
      * rewrite tabled_keys, not_elem_of_app. split; by apply find_None_keys.
Qed.

Lemma newConnection_carries s k p fd now peer :
  WF s → heap s !! p = None → fd ∉ StdMap.keys (monitor_conns_ s) →
  ∃ s', newConnection k p fd now peer s = Some (tt, s') ∧ carries s s'.
Proof.
  intros Hwf Hp Hfd. unfold newConnection. destruct k; simpl.
  2:{ eexists. split; [done|]. apply mutates_carries; [done|]. apply mutates_trace.
      rewrite set_ids_app. simpl. by rewrite app_nil_r. }
  rewrite (bind_Some _ _ _ _ _ (alloc_Some p _ s Hp)).
  pose proof (alloc_carries s p (new_Connection fd now) Hwf Hp) as Hca.
  set (sa := set_heap (<[p := new_Connection fd now]> (heap s)) s) in *.
  assert (Hla : heap sa !! p = Some (new_Connection fd now)) by apply lookup_insert_eq.
  unfold bufferevent_enable at 1.
  rewrite (bind_Some _ _ _ _ _ (update_Some p _ _ sa Hla)).
  fold (accepted fd now).
  assert (Hmb : mutates sa (set_heap (<[p := accepted fd now]> (heap sa)) sa))
    by by apply (mutates_update sa p (new_Connection fd now)).
  set (sb := set_heap (<[p := accepted fd now]> (heap sa)) sa) in *.
  assert (Hcb : carries s sb).
  { eapply carries_trans; [exact Hca|]. apply mutates_carries; [apply Hca | done]. }
  assert (Hlb : heap sb !! p = Some (accepted fd now)) by apply lookup_insert_eq.
  assert (Hreject : ∀ st, IsOK st = false →
            AddConnection p sb = Some (st, sb) →
            ∃ s', (AddConnection p ≫= λ status,
                     (if peer is Some (host, port)
                      then SetAddr p (host +:+ ":" +:+ pretty port) else mret tt);;
                     if negb (IsOK status)
                     then sys_write fd (Redis_Error ("ERR " +:+ Msg status));;
                          fd' ← GetFD p; RemoveConnection fd'
                     else mret tt) sb = Some (tt, s') ∧ carries s s').
  { intros st Hst Hadd. rewrite (bind_Some _ _ _ _ _ Hadd).
    destruct (SetAddr_peer sb p (accepted fd now) peer Hlb)
      as (sc & Hrun & Hmc & _ & c1 & Hc1 & Hfd1).
    rewrite (bind_Some _ _ _ _ _ Hrun). rewrite Hst. simpl.
    assert (Hcc : carries s sc).
    { eapply carries_trans; [exact Hcb|]. apply mutates_carries; [apply Hcb | done]. }
    unfold sys_write at 1.
    set (sd := set_trace (trace sc ++ [EvWrite fd (Redis_Error ("ERR " +:+ Msg st))]) sc).
    assert (Hmd : mutates sc sd).
    { apply mutates_trace. rewrite set_ids_app. simpl. by rewrite app_nil_r. }
    assert (Hcd : carries s sd).
    { eapply carries_trans; [exact Hcc|]. apply mutates_carries; [apply Hcc | done]. }
    destruct (RemoveConnection_carries sd fd) as (s' & Hrm & Hce); [apply Hcd|].
    exists s'. split; [|by eapply carries_trans].
    unfold mbind at 1, M_bind at 1, modify at 1. fold sd.
    assert (Hgd : GetFD p sd = Some (fd, sd)).
    { unfold GetFD. rewrite (bind_Some _ _ _ _ _ (deref_Some p c1 sd Hc1)).
      unfold mret, M_ret. by rewrite Hfd1. }
    by rewrite (bind_Some _ _ _ _ _ Hgd). }
  destruct (StdMap.find (conns_ sb) (fd_ (accepted fd now))) as [q|] eqn:Hf.
  { eapply Hreject; [|by eapply AddConnection_duplicate]. done. }
  destruct (decide (connected_clients_ (svr_ sb) + 1 ≤ maxclients (svr_ sb))) as [Hle|Hgt].
  2:{ eapply Hreject; [|apply (AddConnection_full sb p (accepted fd now)); [done..|lia]].
      done. }
  rewrite (bind_Some _ _ _ _ _ (AddConnection_admitted sb p (accepted fd now) Hlb Hf Hle)).
  assert (Hlc : heap (admitted p (accepted fd now) sb) !! p =
                Some (set_id (client_id_ (svr_ sb)) (accepted fd now)))
    by apply lookup_insert_eq.
  destruct (SetAddr_peer _ p _ peer Hlc) as (sc & Hrun & Hmc & _ & _).
  rewrite (bind_Some _ _ _ _ _ Hrun). simpl.
  exists sc. split; [done|].
  assert (Had : carries sb (admitted p (accepted fd now) sb)).
  { apply admitted_carries; [apply Hcb | done | done | done]. }
  eapply carries_trans; [exact Hcb|].
  eapply carries_trans; [exact Had|].
  apply mutates_carries; [apply Had | done].
Qed.

Lemma for_each_carries {A} (body : A → M unit) l :
  (∀ x s, WF s → ∃ s', body x s = Some (tt, s') ∧ carries s s') →
  ∀ s, WF s → ∃ s', for_each l body s = Some (tt, s') ∧ carries s s'.
Proof.
  intros Hbody. induction l as [|x l IH]; intros s Hwf.
  - exists s. split; [done | by apply carries_refl].
  - destruct (Hbody x s Hwf) as (s1 & Hrun & Hc1).
    destruct (IH s1) as (s2 & Hrun2 & Hc2); [apply Hc1|].
    exists s2. rewrite (for_each_cons _ _ _ _ _ Hrun).
    split; [done | by eapply carries_trans].
Qed.

Lemma TimerCB_carries s now :
  WF s → ∃ s', TimerCB now s = Some (tt, s') ∧ carries s s'.
Proof.
  intros Hwf. unfold TimerCB.
  assert (Hg : gets (λ s, timeout (svr_ s)) s = Some (timeout (svr_ s), s)) by done.
  rewrite (bind_Some _ _ _ _ _ Hg).
  case_bool_decide; [exists s; split; [done | by apply carries_refl]|].
  rewrite KickoutIdleClients_scan by done.
  set (l := omap _ _).
  assert (Hcur : ∃ s1, (if last (visited (conns_ s) (last_iter_conn_fd s)) is Some (fd, _)
                        then modify (set_last_iter_conn_fd fd) else mret tt) s = Some (tt, s1) ∧
                       mutates s s1).
  { destruct (last _) as [[fd p]|].
    - eexists. split; [done | apply mutates_cursor].
    - exists s. split; [done | apply mutates_refl]. }
  destruct Hcur as (s1 & Hrun1 & Hm1).
  rewrite (bind_Some _ _ _ _ _ Hrun1).
  pose proof (mutates_carries _ _ Hwf Hm1) as Hc1.
  destruct (for_each_carries (λ pair : Z * Z, RemoveConnectionByID pair.1 pair.2) l
              (λ x s0, RemoveConnectionByID_carries s0 x.1 x.2) s1) as (s2 & Hrun2 & Hc2);
    [apply Hc1|].
  exists s2. split; [done | by eapply carries_trans].
Qed.

Lemma step_carries s o :
  WF s → callable o s →
  ∃ s', step o s = Some (tt, s') ∧
    WF s' ∧ (normal_assigned s → normal_assigned s') ∧
    connected_clients_ (svr_ s') - Z.of_nat (length (tabled s')) =
      connected_clients_ (svr_ s) - Z.of_nat (length (tabled s)) -
        (if uncounted_entry o s then 1 else 0) ∧
    monitor_clients_ (svr_ s) - Z.of_nat (length (monitor_conns_ s)) ≤
      monitor_clients_ (svr_ s') - Z.of_nat (length (monitor_conns_ s')).
Proof.
  intros Hwf Hen.
  assert (Hplain : ∀ s', carries s s' → uncounted_entry o s = false →
            WF s' ∧ (normal_assigned s → normal_assigned s') ∧
            connected_clients_ (svr_ s') - Z.of_nat (length (tabled s')) =
              connected_clients_ (svr_ s) - Z.of_nat (length (tabled s)) -
                (if uncounted_entry o s then 1 else 0) ∧
            monitor_clients_ (svr_ s) - Z.of_nat (length (monitor_conns_ s)) ≤
              monitor_clients_ (svr_ s') - Z.of_nat (length (monitor_conns_ s'))).
  { intros s' (Hwf' & Hna & Heq & Hle) ->. split; [done|]. split; [done|].
    split; [lia | done]. }
  destruct o as [k p fd now peer|fd|fd id|fd|fd reply|conn|tv_sec tv_usec conn tokens
                 |self id addr skipme|now]; simpl in Hen; cbn [step].
  - destruct Hen as [Hp Hfd].
    destruct (newConnection_carries s k p fd now peer Hwf Hp Hfd) as (s' & Hrun & Hc).
    exists s'. split; [done | by apply Hplain].
  - destruct (RemoveConnection_carries s fd Hwf) as (s' & Hrun & Hc).
    exists s'. split; [done | by apply Hplain].
  - destruct (RemoveConnectionByID_carries s fd id Hwf) as (s' & Hrun & Hc).
    exists s'. split; [done | by apply Hplain].
  - assert (∃ st s', EnableWriteEvent fd s = Some (st, s') ∧ mutates s s')
      as (st & s' & Hrun & Hm).
    { destruct (StdMap.find (conns_ s) fd) as [p|] eqn:Hf.
      - destruct (WF_find_live s fd p Hwf) as (c & Hc & _); [by left|].
        do 2 eexists. split; [by apply (EnableWriteEvent_found s fd p c)|].
        by apply (mutates_update s p c).
      - do 2 eexists. split; [by apply EnableWriteEvent_absent | apply mutates_refl]. }
    exists s'. rewrite (bind_Some _ _ _ _ _ Hrun).
    split; [done|]. apply Hplain; [by apply mutates_carries | done].
  - assert (∃ st s', Reply fd reply s = Some (st, s') ∧ mutates s s')
      as (st & s' & Hrun & Hm).
    { destruct (StdMap.find (conns_ s) fd) as [p|] eqn:Hf.
      - destruct (WF_find_live s fd p Hwf) as (c & Hc & _); [by left|].
        do 2 eexists. split; [by apply (Reply_found s fd reply p c)|].
        by apply (mutates_update s p c).
      - do 2 eexists. split; [by apply Reply_absent | apply mutates_refl]. }
    exists s'. rewrite (bind_Some _ _ _ _ _ Hrun).
    split; [done|]. apply Hplain; [by apply mutates_carries | done].
  - destruct Hen as [c Hc]. exists (promoted conn c s).
    split; [by apply BecomeMonitorConn_promoted|].
    destruct (promoted_WF s conn c Hwf Hc) as [Hwf' Hna].
    destruct (promoted_counts s conn c Hwf Hc) as [Heq Hle].
    cbn [uncounted_entry]. rewrite Hc.
    split; [done|]. split; [done|]. split; [|done].
    rewrite Heq. by case_bool_decide.
  - destruct (FeedMonitorConns_ok s tv_sec tv_usec conn tokens Hwf Hen) as (s' & Hrun & Hm).
    exists s'. split; [done|]. apply Hplain; [by apply mutates_carries | done].
  - destruct (KillClient_ok s self id addr skipme 0 Hwf) as (n & s' & Hrun & Hm).
    exists s'. rewrite (bind_Some _ _ _ _ _ Hrun).
    split; [done|]. apply Hplain; [by apply mutates_carries | done].
  - destruct (TimerCB_carries s now Hwf) as (s' & Hrun & Hc).
    exists s'. split; [done | by apply Hplain].
Qed.

Lemma runs_carries s ops s' :
  WF s → runs s ops s' →
  WF s' ∧ (normal_assigned s → normal_assigned s') ∧
  connected_clients_ (svr_ s') - Z.of_nat (length (tabled s')) =
    connected_clients_ (svr_ s) - Z.of_nat (length (tabled s)) -
      Z.of_nat (uncounted s ops) ∧
  monitor_clients_ (svr_ s) - Z.of_nat (length (monitor_conns_ s)) ≤
    monitor_clients_ (svr_ s') - Z.of_nat (length (monitor_conns_ s')).
Proof.
  intros Hwf Hrun. induction Hrun as [s|s o s1 ops s2 Hen Hstep Hrun IH].
  - split; [done|]. split; [done|]. cbn [uncounted]. lia.
  - destruct (step_carries s o Hwf Hen) as (s1' & Hstep' & Hwf1 & Hna1 & Heq1 & Hle1).
    assert (s1' = s1) as -> by congruence.
    destruct (IH Hwf1) as (Hwf2 & Hna2 & Heq2 & Hle2).
    split; [done|]. split; [auto|]. split; [|lia].
    cbn [uncounted]. rewrite Hstep. rewrite Heq2, Heq1.
    destruct (uncounted_entry o s); lia.
Qed.

(** * The timer tick, in the words of the specification *)

Lemma kick_loop_WF now t (h : gmap ptr Connection) (seen : StdMap.t) :
  ∀ s, WF s → NoDup (StdMap.keys seen) →
    (∀ e, e ∈ seen → e ∈ conns_ s ∧ heap s !! e.2 = h !! e.2) →
    ∃ s', for_each (omap (scan_pair now t h) seen)
                   (λ pair, RemoveConnectionByID pair.1 pair.2) s = Some (tt, s') ∧
      WF s' ∧
      monitor_conns_ s' = monitor_conns_ s ∧
      last_iter_conn_fd s' = last_iter_conn_fd s ∧
      monitor_clients_ (svr_ s') = monitor_clients_ (svr_ s) ∧
      connected_clients_ (svr_ s') =
        connected_clients_ (svr_ s) - Z.of_nat (length (List.filter (is_idle now t h) seen)) ∧
      trace s' = trace s ++ (EvClose <$> StdMap.keys (List.filter (is_idle now t h) seen)) ∧
      (∀ e, e ∈ conns_ s' ↔ e ∈ conns_ s ∧ e ∉ List.filter (is_idle now t h) seen) ∧
      (∀ p, heap s' !! p =
            if bool_decide (p ∈ StdMap.ptrs (List.filter (is_idle now t h) seen))
            then None else heap s !! p).
Proof.
  induction seen as [|[fd p] seen IH]; intros s Hwf Hnd Hall.
  - exists s. split; [done|]. split; [done|]. do 4 (split; [simpl; try done; lia|]).
    split; [simpl; by rewrite app_nil_r|]. split.
    + intros e. split; [|tauto]. intros He. split; [done|]. apply not_elem_of_nil.
    + intros q. rewrite bool_decide_false; [done|]. apply not_elem_of_nil.
  - change (StdMap.keys ((fd, p) :: seen)) with (fd :: StdMap.keys seen) in Hnd.
    apply NoDup_cons in Hnd as [Hfd Hnd].
    destruct (Hall (fd, p)) as [Hin Hh]; [by left|]. simpl in Hh.
    destruct (wf_live _ Hwf fd p) as (c & Hc & Hfdc); [apply tabled_elem; by left|].
    assert (Hf : StdMap.find (conns_ s) fd = Some p).
    { apply elem_find; [apply sorted_NoDup, Hwf | done]. }
    assert (Hm : StdMap.find (monitor_conns_ s) fd = None)
      by apply (proj1 (WF_find_exclusive s fd p Hwf) Hf).
    assert (Htail : ∀ e, e ∈ seen → e.1 ≠ fd ∧ e.2 ≠ p).
    { intros [k q] He. simpl.
      assert (Hk : k ≠ fd).
      { intros ->. apply Hfd. by eapply elem_keys. }
      split; [done|]. intros ->. apply Hk.
      destruct (Hall (k, p)) as [Hin' _]; [by right|].
      eapply (WF_ptr_key s); [done|apply tabled_elem; by left..]. }
    cbn [omap list_omap List.filter].
    rewrite scan_pair_idle. cbn [fst snd]. rewrite <- Hh, Hc.
    assert (Hidle : is_idle now t h (fd, p) = is_idle now t (heap s) (fd, p)).
    { unfold is_idle. simpl. by rewrite Hh. }
    destruct (is_idle now t h (fd, p)) eqn:Hi.
    + cbn [fmap option_fmap option_map].
      pose proof (RemoveConnectionByID_normal s fd (id_ c) p c Hf Hc Hm) as Hrun.
      rewrite bool_decide_true in Hrun by done.
      destruct (erased_normal_carries s fd p c Hwf Hf Hc) as (HI1 & _ & _).
      destruct (IH (erased_normal fd p c s) HI1 Hnd)
        as (s' & Hrun' & HI' & Hmon & Hcur & Hmc & Hcc & Htr & Hconns & Hheap).
      { intros e He. destruct (Hall e) as [He1 He2]; [by right|].
        destruct (Htail e He) as [Hk Hq]. split.
        - apply elem_erase. done.
        - simpl. by rewrite lookup_delete_ne. }
      exists s'. split.
      { rewrite (for_each_cons (fd, id_ c) _ _ s _ Hrun). exact Hrun'. }
      split; [done|]. split; [done|]. split; [done|].
      split; [rewrite Hmc; simpl; by destruct (svr_ s)|].
      split.
      { rewrite Hcc. simpl. destruct (svr_ s); simpl. lia. }
      split.
      { rewrite Htr. simpl. rewrite Hfdc, <- app_assoc. done. }
      split.
      { intros e. rewrite Hconns. simpl. rewrite elem_erase, not_elem_of_cons.
        split; [intros [[? ?] ?]; repeat split; try done; by intros ->|].
        intros (He & Hne & Hnot). repeat split; try done.
        intros Hk. apply Hne. destruct e as [k q]. simpl in Hk. subst k. f_equal.
        apply (key_unique s fd); [done|apply tabled_elem; by left..]. }
      intros q. rewrite Hheap. simpl.
      change (StdMap.ptrs ((fd, p) :: List.filter (is_idle now t h) seen))
        with (p :: StdMap.ptrs (List.filter (is_idle now t h) seen)).
      destruct (decide (q = p)) as [->|Hq].
      * rewrite lookup_delete_eq. rewrite (bool_decide_true (p ∈ p :: _)) by by left.
        by case_bool_decide.
      * rewrite lookup_delete_ne by done.
        repeat case_bool_decide; try done.
        -- exfalso. by apply H0; right.
        -- exfalso. apply elem_of_cons in H0 as [?|?]; done.
    + destruct (IH s Hwf Hnd) as (s' & Hrun' & Hrest).
      { intros e He. apply Hall. by right. }
      exists s'. split; [done|]. exact Hrest.
Qed.

Lemma scan_pairs_keys now t (h : gmap ptr Connection) (seen : StdMap.t) :
  (omap (scan_pair now t h) seen).*1 = StdMap.keys (List.filter (is_idle now t h) seen).
Proof.
  induction seen as [|e seen IH]; [done|].
  cbn [omap list_omap List.filter]. rewrite scan_pair_idle.
  destruct (is_idle now t h e) eqn:Hi; [|exact IH].
  unfold is_idle in Hi. destruct (h !! e.2) as [c|]; [|done].
  cbn [fmap option_fmap option_map].
  change (e.1 :: (omap (scan_pair now t h) seen).*1 =
          e.1 :: StdMap.keys (List.filter (is_idle now t h) seen)).
  by rewrite IH.
Qed.

Lemma scan_idle_pair s now t e :
  idle_in_range now s → e ∈ conns_ s →
  scan_pair now t (heap s) e = idle_pair now t (heap s) e.
Proof.
  intros Hidle Hin. destruct e as [fd p]. unfold scan_pair, idle_pair. simpl.
  destruct (heap s !! p) as [c|] eqn:Hc; [|done].
  rewrite static_cast_int_id by by eapply Hidle.
  apply (f_equal (λ b : bool, if b then Some (fd, id_ c) else None)).
  apply bool_decide_ext. lia.
Qed.

Lemma idle_pair_Some now t (h : gmap ptr Connection) (e : Z * ptr) fd id :
  idle_pair now t h e = Some (fd, id) ↔
  ∃ c, e.1 = fd ∧ h !! e.2 = Some c ∧ id_ c = id ∧ t ≤ now - last_interaction_ c.
Proof.
  unfold idle_pair. destruct (h !! e.2) as [c|].
  - case_bool_decide.
    + split.
      * intros [= <- <-]. by exists c.
      * intros (c' & <- & [= <-] & <- & _). done.
    + split; [done|]. intros (c' & _ & [= <-] & _ & ?). lia.
  - split; [done|]. by intros (c' & _ & ? & _).
Qed.

(** C5. The timer callback does nothing when the timeout is 0; otherwise it
    does what the specification says of [kick_idle_clients], and in
    effect: it visits as many Connections of the normal table as there
    are, but at most 50, those after the cursor first, in ascending order
    of the descriptors, and then, wrapping, those up to it; it collects the
    (fd, id) of exactly those visited whose idle time is at least the
    timeout; it leaves the cursor on the descriptor visited last; and
    afterwards every collected pair is removed as [RemoveConnectionByID]
    removes it: the entry leaves the normal table, the Connection is
    destroyed, its socket is closed, once and in the order of the visit,
    and the client count drops by one.  Nothing else changes, and the
    callback always returns. *)
Theorem kick_idle_clients_scan s now :
  WF s → idle_in_range now s →
  let t := timeout (svr_ s) in
  let cursor := last_iter_conn_fd s in
  let seen := visited (conns_ s) cursor in
  let collected := omap (idle_pair now t (heap s)) seen in
  ∃ s', TimerCB now s = Some (tt, s') ∧
    kick_idle_clients now s = Some (tt, s') ∧
    (t = 0 → s' = s) ∧
    (t ≠ 0 →
     seen = take 50 (List.filter (λ e, cursor <? e.1) (conns_ s) ++
                     List.filter (λ e, e.1 <=? cursor) (conns_ s)) ∧
     length seen = Nat.min (length (conns_ s)) 50 ∧
     (∀ fd id, (fd, id) ∈ collected ↔
        ∃ p c, (fd, p) ∈ seen ∧ heap s !! p = Some c ∧ id_ c = id ∧
               t ≤ now - last_interaction_ c) ∧
     last_iter_conn_fd s' = (if last seen is Some (fd, _) then fd else cursor) ∧
     (∀ e, e ∈ conns_ s' ↔ e ∈ conns_ s ∧ e.1 ∉ collected.*1) ∧
     monitor_conns_ s' = monitor_conns_ s ∧
     (∀ fd p, (fd, p) ∈ conns_ s → fd ∈ collected.*1 → heap s' !! p = None) ∧
     (∀ e, e ∈ tabled s' → heap s' !! e.2 = heap s !! e.2) ∧
     trace s' = trace s ++ (EvClose <$> collected.*1) ∧
     connected_clients_ (svr_ s') =
       connected_clients_ (svr_ s) - Z.of_nat (length collected) ∧
     monitor_clients_ (svr_ s') = monitor_clients_ (svr_ s)).
Proof.
  intros Hwf Hidle t cursor seen collected.
  rewrite <- (TimerCB_kick_idle_clients s now Hwf Hidle).
  unfold TimerCB.
  assert (Hg : gets (λ s, timeout (svr_ s)) s = Some (timeout (svr_ s), s)) by done.
  rewrite (bind_Some _ _ _ _ _ Hg). fold t.
  case_bool_decide as Ht.
  { exists s. split; [done|]. split; [done|]. split; [done|]. by intros ?. }
  rewrite KickoutIdleClients_scan by done. fold cursor seen.
  assert (Hscan : omap (scan_pair now t (heap s)) seen = collected).
  { apply omap_ext_elem. intros e He. apply scan_idle_pair; [done|].
    by eapply visited_elem. }
  assert (Hcur : ∃ s1, (if last seen is Some (fd, _)
                        then modify (set_last_iter_conn_fd fd) else mret tt) s = Some (tt, s1) ∧
                       mutates s s1 ∧ heap s1 = heap s ∧ trace s1 = trace s ∧
                       last_iter_conn_fd s1 =
                         (if last seen is Some (fd, _) then fd else cursor)).
  { destruct (last seen) as [[fd p]|].
    - eexists. split; [done|]. split; [apply mutates_cursor|]. by do 2 (split; [done|]).
    - exists s. split; [done|]. split; [apply mutates_refl|]. by do 2 (split; [done|]). }
  destruct Hcur as (s1 & Hrun1 & Hm1 & Hh1 & Ht1 & Hc1).
  rewrite (bind_Some _ _ _ _ _ Hrun1).
  destruct (kick_loop_WF now t (heap s) seen s1)
    as (s' & Hrun & Hwf' & Hmon & Hcur & Hmc & Hcc & Htr & Hconns & Hheap).
  { by eapply mutates_WF. }
  { apply visited_keys_NoDup, Hwf. }
  { intros e He. rewrite (mu_conns _ _ Hm1), Hh1. split; [|done].
    by eapply visited_elem. }
  set (kicked := List.filter (is_idle now t (heap s)) seen) in *.
  assert (Hkeys : collected.*1 = StdMap.keys kicked).
  { rewrite <- Hscan. apply scan_pairs_keys. }
  assert (Hlen : length collected = length kicked).
  { rewrite <- (length_fmap fst collected), Hkeys. unfold StdMap.keys.
    by rewrite length_fmap. }
  rewrite (mu_conns _ _ Hm1) in Hconns. rewrite (mu_monitor _ _ Hm1) in Hmon.
  rewrite (mu_svr _ _ Hm1) in Hmc, Hcc. rewrite Ht1 in Htr. rewrite Hc1 in Hcur.
  assert (Hk : ∀ e, e ∈ kicked → e ∈ conns_ s).
  { intros e He. apply list_elem_of_In, List.filter_In in He as [He _].
    apply list_elem_of_In in He. by eapply visited_elem. }
  assert (Hkk : ∀ fd p, (fd, p) ∈ conns_ s → fd ∈ StdMap.keys kicked → (fd, p) ∈ kicked).
  { intros fd p Hin [q Hq]%keys_elem.
    assert (q = p) as ->; [|done].
    eapply (key_unique s fd); [done|apply tabled_elem; left..]; [by apply Hk | done]. }
  assert (Hstay : ∀ e, e ∈ tabled s → e ∉ kicked → e.2 ∉ StdMap.ptrs kicked).
  { intros [k q] He Hne [k' Hq]%ptrs_elem. simpl in Hq. apply Hne.
    assert (k' = k) as ->; [|done].
    eapply (WF_ptr_key s); [done| |done]. apply tabled_elem. left. by apply Hk. }
  exists s'. split; [done|]. split; [done|].
  split; [by intros ?|]. intros _.
  split; [done|].
  split.
  { unfold seen, visited. rewrite length_take, visit_order_length. lia. }
  split.
  { intros fd id. unfold collected. rewrite list_elem_of_omap. split.
    - intros ([k p] & He & (c & Hk1 & Hc & Hid & Hle)%idle_pair_Some).
      simpl in Hk1, Hc. subst k. by exists p, c.
    - intros (p & c & He & Hc & Hid & Hle). exists (fd, p). split; [done|].
      apply idle_pair_Some. by exists c. }
  split; [done|].
  split.
  { intros e. rewrite Hconns, Hkeys. split; intros [He Hne]; (split; [done|]).
    - intros Hin. apply Hne. destruct e as [k q]. by apply Hkk.
    - intros Hin. apply Hne. destruct e as [k q]. by eapply elem_keys. }
  split; [done|].
  split.
  { intros fd p Hin Hfd. rewrite Hkeys in Hfd.
    rewrite Hheap, bool_decide_true; [done|]. eapply elem_ptrs. by apply Hkk. }
  split.
  { intros e He. rewrite Hheap, Hh1, bool_decide_false; [done|].
    apply tabled_elem in He as [He|He].
    - apply Hconns in He as [He Hne]. apply Hstay; [|done]. apply tabled_elem. by left.
    - rewrite Hmon in He. apply Hstay; [apply tabled_elem; by right|].
      intros Hin. apply (WF_keys_disjoint s e.1 Hwf).
      + eapply (elem_keys _ e.1 e.2). destruct e. by apply Hk.
      + eapply (elem_keys _ e.1 e.2). by destruct e. }
  split; [by rewrite Htr, Hkeys|].
  split; [by rewrite Hcc, Hlen | done].
Qed.

Lemma kick_idle_clients_scan_witness :
  WF sample ∧ idle_in_range 200 sample ∧
  let t := timeout (svr_ sample) in
  let cursor := last_iter_conn_fd sample in
  let seen := visited (conns_ sample) cursor in
  let collected := omap (idle_pair 200 t (heap sample)) seen in
  ∃ s', TimerCB 200 sample = Some (tt, s') ∧
    kick_idle_clients 200 sample = Some (tt, s') ∧
    (t = 0 → s' = sample) ∧
    (t ≠ 0 →
     seen = take 50 (List.filter (λ e, cursor <? e.1) (conns_ sample) ++
                     List.filter (λ e, e.1 <=? cursor) (conns_ sample)) ∧
     length seen = Nat.min (length (conns_ sample)) 50 ∧
     (∀ fd id, (fd, id) ∈ collected ↔
        ∃ p c, (fd, p) ∈ seen ∧ heap sample !! p = Some c ∧ id_ c = id ∧
               t ≤ 200 - last_interaction_ c) ∧
     last_iter_conn_fd s' = (if last seen is Some (fd, _) then fd else cursor) ∧
     (∀ e, e ∈ conns_ s' ↔ e ∈ conns_ sample ∧ e.1 ∉ collected.*1) ∧
     monitor_conns_ s' = monitor_conns_ sample ∧
     (∀ fd p, (fd, p) ∈ conns_ sample → fd ∈ collected.*1 → heap s' !! p = None) ∧
     (∀ e, e ∈ tabled s' → heap s' !! e.2 = heap sample !! e.2) ∧
     trace s' = trace sample ++ (EvClose <$> collected.*1) ∧
     connected_clients_ (svr_ s') =
       connected_clients_ (svr_ sample) - Z.of_nat (length collected) ∧
     monitor_clients_ (svr_ s') = monitor_clients_ (svr_ sample)).
Proof.
  split; [apply sample_WF|]. split; [apply sample_idle_in_range|].
  exact (kick_idle_clients_scan sample 200 sample_WF sample_idle_in_range).
Defined.

(** * What holds along every run *)

Lemma sample_full_WF : WF sample_full.
Proof. apply sample_full_Inv. Qed.

Lemma sample_full_runs :
  runs sample_full
    [OpNewConnection true 6%positive 11 200 (Some ("10.0.0.6", 5006));
     OpBecomeMonitorConn 6%positive]
    (promoted 6%positive
       (with_peer (Some ("10.0.0.6", 5006)) (accepted 11 200))
       (set_trace (trace sample_full ++
                     [EvWrite 11 (Redis_Error "ERR max number of clients reached")])
          (set_heap (<[6%positive := with_peer (Some ("10.0.0.6", 5006)) (accepted 11 200)]>
                       (heap sample_full)) sample_full))).
Proof.
  eapply runs_cons; [|vm_compute; reflexivity|].
  { split; [reflexivity|]. intros H. apply sample_monitor_keys in H. lia. }
  eapply runs_cons; [|vm_compute; reflexivity|apply runs_nil].
  vm_compute. by eexists.
Qed.

(** X16. Along every run of calls the code permits (see [callable]), the
    client counter moves as the number of entries of the two tables does,
    except at a [BecomeMonitorConn] for a Connection whose descriptor is a
    key of neither table: each such call adds an entry that the counter
    does not count.  No other call opens a gap, and none closes one.  The
    lead of the monitor counter over the size of the monitor table never
    shrinks. *)
Theorem counters_follow_tables s ops s' :
  WF s → runs s ops s' →
  connected_clients_ (svr_ s') - Z.of_nat (length (tabled s')) =
    connected_clients_ (svr_ s) - Z.of_nat (length (tabled s)) -
      Z.of_nat (uncounted s ops) ∧
  monitor_clients_ (svr_ s) - Z.of_nat (length (monitor_conns_ s)) ≤
    monitor_clients_ (svr_ s') - Z.of_nat (length (monitor_conns_ s')) ∧
  (Forall (λ o, ∀ conn, o ≠ OpBecomeMonitorConn conn) ops → uncounted s ops = 0%nat).
Proof.
  intros Hwf Hrun.
  destruct (runs_carries s ops s' Hwf Hrun) as (_ & _ & Heq & Hle).
  split; [done|]. split; [done|].
  clear Heq Hle Hwf. induction Hrun as [s|s o s1 ops s2 Hen Hstep Hrun IH]; [done|].
  intros [Ho Hops]%Forall_cons. cbn [uncounted]. rewrite Hstep, (IH Hops).
  destruct o; try done. by destruct (Ho conn).
Qed.

Lemma counters_follow_tables_witness :
  WF sample_full ∧
  ∃ s', runs sample_full
          [OpNewConnection true 6%positive 11 200 (Some ("10.0.0.6", 5006));
           OpBecomeMonitorConn 6%positive] s' ∧
    connected_clients_ (svr_ s') - Z.of_nat (length (tabled s')) =
      connected_clients_ (svr_ sample_full) - Z.of_nat (length (tabled sample_full)) -
        Z.of_nat (uncounted sample_full
                    [OpNewConnection true 6%positive 11 200 (Some ("10.0.0.6", 5006));
                     OpBecomeMonitorConn 6%positive]) ∧
    monitor_clients_ (svr_ sample_full) - Z.of_nat (length (monitor_conns_ sample_full)) ≤
      monitor_clients_ (svr_ s') - Z.of_nat (length (monitor_conns_ s')) ∧
    (Forall (λ o, ∀ conn, o ≠ OpBecomeMonitorConn conn)
       [OpNewConnection true 6%positive 11 200 (Some ("10.0.0.6", 5006));
        OpBecomeMonitorConn 6%positive] →
     uncounted sample_full
       [OpNewConnection true 6%positive 11 200 (Some ("10.0.0.6", 5006));
        OpBecomeMonitorConn 6%positive] = 0%nat).
Proof.
  split; [apply sample_full_WF|]. eexists. split; [apply sample_full_runs|].
  exact (counters_follow_tables sample_full _ _ sample_full_WF sample_full_runs).
Defined.

(** X17. [AddConnection(c)] has exactly three outcomes.  A descriptor that
    is already a key of the normal table is rejected with "connection was
    exists" and nothing changes.  Otherwise the client count is
    incremented; when the new value exceeds [maxclients] the request is
    rejected with "max number of clients reached" and the increment is
    taken back, so that nothing has changed; otherwise the Connection is
    in the normal table under its descriptor, with its id, the count is
    one higher and the status is OK. *)
Theorem AddConnection_outcomes s c conn :
  heap s !! c = Some conn →
  ∃ st s',
    AddConnection c s = Some (st, s') ∧
    match StdMap.find (conns_ s) (fd_ conn) with
    | Some _ => st = mkStatus NotOK "connection was exists" ∧ s' = s
    | None =>
        if bool_decide (connected_clients_ (svr_ s) + 1 > maxclients (svr_ s))
        then st = mkStatus NotOK "max number of clients reached" ∧ s' = s
        else st = Status_OK ∧
             StdMap.find (conns_ s') (fd_ conn) = Some c ∧
             connected_clients_ (svr_ s') = connected_clients_ (svr_ s) + 1 ∧
             heap s' !! c = Some (set_id (client_id_ (svr_ s)) conn) ∧
             s' = admitted c conn s
    end.
Proof.
  intros Hc.
  destruct (StdMap.find (conns_ s) (fd_ conn)) as [q|] eqn:Hf.
  - exists (mkStatus NotOK "connection was exists"), s.
    split; [by eapply AddConnection_duplicate | done].
  - case_bool_decide as Hcap.
    + exists (mkStatus NotOK "max number of clients reached"), s.
      split; [by apply (AddConnection_full s c conn) | done].
    + exists Status_OK, (admitted c conn s).
      split; [apply (AddConnection_admitted s c conn); [done..|lia]|].
      split; [done|]. split; [simpl; by apply find_insert_absent|].
      split; [done|]. split; [apply lookup_insert_eq | done].
Qed.

Lemma AddConnection_outcomes_witness :
  heap sample_pending !! 6%positive = Some (new_Connection 11 200) ∧
  ∃ st s',
    AddConnection 6%positive sample_pending = Some (st, s') ∧
    match StdMap.find (conns_ sample_pending) (fd_ (new_Connection 11 200)) with
    | Some _ => st = mkStatus NotOK "connection was exists" ∧ s' = sample_pending
    | None =>
        if bool_decide (connected_clients_ (svr_ sample_pending) + 1 >
                        maxclients (svr_ sample_pending))
        then st = mkStatus NotOK "max number of clients reached" ∧ s' = sample_pending
        else st = Status_OK ∧
             StdMap.find (conns_ s') (fd_ (new_Connection 11 200)) = Some 6%positive ∧
             connected_clients_ (svr_ s') = connected_clients_ (svr_ sample_pending) + 1 ∧
             heap s' !! 6%positive =
               Some (set_id (client_id_ (svr_ sample_pending)) (new_Connection 11 200)) ∧
             s' = admitted 6%positive (new_Connection 11 200) sample_pending
    end.
Proof.
  split; [reflexivity|].
  exact (AddConnection_outcomes sample_pending 6%positive (new_Connection 11 200) eq_refl).
Defined.

(** X18. Along every run of calls the code permits (see [callable]), every
    entry of the normal table -- the table [GetClientsStr], [KillClient], [Reply] and
    [EnableWriteEvent] look into -- points to an allocated Connection for
    that descriptor whose id has been set; and [AddConnection] on its own
    keeps that so: it inserts the Connection and sets its id in one
    call. *)
Theorem normal_table_ids_assigned s ops s' :
  WF s → normal_assigned s → runs s ops s' →
  (∀ fd p, (fd, p) ∈ conns_ s' →
     ∃ c, heap s' !! p = Some c ∧ fd_ c = fd ∧ id_assigned c = true) ∧
  (∀ c conn st s'',
     heap s' !! c = Some conn → fd_ conn ∉ StdMap.keys (monitor_conns_ s') →
     AddConnection c s' = Some (st, s'') →
     ∀ fd p, (fd, p) ∈ conns_ s'' →
       ∃ c', heap s'' !! p = Some c' ∧ fd_ c' = fd ∧ id_assigned c' = true).
Proof.
  intros Hwf Hna Hrun.
  destruct (runs_carries s ops s' Hwf Hrun) as (Hwf' & Hna' & _).
  assert (Hvis : ∀ s1, WF s1 → normal_assigned s1 → ∀ fd p, (fd, p) ∈ conns_ s1 →
            ∃ c, heap s1 !! p = Some c ∧ fd_ c = fd ∧ id_assigned c = true).
  { intros s1 Hwf1 Hna1 fd p Hin.
    destruct (wf_live _ Hwf1 fd p) as (c & Hc & Hfd); [apply tabled_elem; by left|].
    exists c. split; [done|]. split; [done|]. by eapply Hna1. }
  split; [by apply Hvis; auto|].
  intros c conn st s'' Hc Hfd Hadd.
  assert (Hcar : carries s' s'').
  { destruct (StdMap.find (conns_ s') (fd_ conn)) as [q|] eqn:Hf.
    { rewrite (AddConnection_duplicate s' c conn q Hc Hf) in Hadd.
      injection Hadd as _ <-. by apply carries_refl. }
    destruct (decide (connected_clients_ (svr_ s') + 1 ≤ maxclients (svr_ s')))
      as [Hle|Hgt].
    - rewrite (AddConnection_admitted s' c conn Hc Hf Hle) in Hadd.
      injection Hadd as _ <-. by apply admitted_carries.
    - rewrite (AddConnection_full s' c conn Hc Hf) in Hadd by lia.
      injection Hadd as _ <-. by apply carries_refl. }
  destruct Hcar as (Hwf'' & Hna'' & _). apply Hvis; auto.
Qed.

Lemma normal_table_ids_assigned_witness :
  WF sample_full ∧ normal_assigned sample_full ∧
  ∃ s', runs sample_full
          [OpNewConnection true 6%positive 11 200 (Some ("10.0.0.6", 5006));
           OpBecomeMonitorConn 6%positive] s' ∧
  (∀ fd p, (fd, p) ∈ conns_ s' →
     ∃ c, heap s' !! p = Some c ∧ fd_ c = fd ∧ id_assigned c = true) ∧
  (∀ c conn st s'',
     heap s' !! c = Some conn → fd_ conn ∉ StdMap.keys (monitor_conns_ s') →
     AddConnection c s' = Some (st, s'') →
     ∀ fd p, (fd, p) ∈ conns_ s'' →
       ∃ c', heap s'' !! p = Some c' ∧ fd_ c' = fd ∧ id_assigned c' = true).
Proof.
  assert (Hna : normal_assigned sample_full).
  { intros fd p c Hin Hc. eapply (inv_assigned _ sample_full_Inv fd p c); [|done].
    apply tabled_elem. by left. }
  split; [apply sample_full_WF|]. split; [exact Hna|].
  eexists. split; [apply sample_full_runs|].
  exact (normal_table_ids_assigned sample_full _ _ sample_full_WF Hna sample_full_runs).
Defined.

(** X19. Along every run of calls the code permits (see [callable]), the
    two tables stay well formed: no descriptor is a key of both, no Connection is in both
    or twice in one, every entry points to an allocated Connection for its
    descriptor, so that every Connection of a table is in exactly one of
    the two and not destroyed; and every call the code permits
    returns. *)
Theorem tables_stay_exclusive s ops s' :
  WF s → runs s ops s' →
  WF s' ∧
  (∀ p, p ∈ StdMap.ptrs (tabled s') → exactly_one s' p) ∧
  (∀ k, k ∈ StdMap.keys (conns_ s') → k ∈ StdMap.keys (monitor_conns_ s') → False) ∧
  NoDup (StdMap.ptrs (conns_ s')) ∧ NoDup (StdMap.ptrs (monitor_conns_ s')) ∧
  (∀ o, callable o s' → ∃ s'', step o s' = Some (tt, s'')).
Proof.
  intros Hwf Hrun.
  destruct (runs_carries s ops s' Hwf Hrun) as (Hwf' & _).
  split; [done|]. split; [intros p Hp; by apply exactly_one_tabled|].
  split; [intros k; by apply WF_keys_disjoint|].
  split; [by apply WF_ptrs_NoDup|]. split; [by apply WF_ptrs_NoDup|].
  intros o Ho. destruct (step_carries s' o Hwf' Ho) as (s'' & Hstep & _).
  by exists s''.
Qed.

Lemma tables_stay_exclusive_witness :
  WF sample_full ∧
  ∃ s', runs sample_full
          [OpNewConnection true 6%positive 11 200 (Some ("10.0.0.6", 5006));
           OpBecomeMonitorConn 6%positive] s' ∧
  WF s' ∧
  (∀ p, p ∈ StdMap.ptrs (tabled s') → exactly_one s' p) ∧
  (∀ k, k ∈ StdMap.keys (conns_ s') → k ∈ StdMap.keys (monitor_conns_ s') → False) ∧
  NoDup (StdMap.ptrs (conns_ s')) ∧ NoDup (StdMap.ptrs (monitor_conns_ s')) ∧
  (∀ o, callable o s' → ∃ s'', step o s' = Some (tt, s'')).
Proof.
  split; [apply sample_full_WF|]. eexists. split; [apply sample_full_runs|].
  exact (tables_stay_exclusive sample_full _ _ sample_full_WF sample_full_runs).
Defined.
